(** * Crawl service: a shallow embedding of the Go sources and its properties

    The development follows the packages of [services/crawl]:
    - [GoString]   : the string and slice primitives of Go the code relies on;
    - [Models]     : the records of package [models];
    - [Handlers]   : request defaulting and job-id validation of [HandleCrawl],
                     the status mapping of [HandleGetContent];
    - [Pool]       : the worker pool (sizing, admission, batch processing);
    - [Stealth]    : the tiered content extractor [processURL];
    - [Bus]        : [PublishCrawlEvent] and the goroutines it starts;
    - [Utils]      : the reachability prober of [utils/url.go];
    - [Crawler]    : the three-tier orchestrator and the HTML walker callback;
    - [Database]   : the start-up recovery of [LoadActiveJobsFromMongoDB];
    - [Middleware] : the API-key check of [APIKeyMiddleware];
    - [Jobs]       : the poll of [HandleJobStatus];
    - [BrowserPool]: the pool of headless browsers;
    - [Aggressive] : the last-resort strategy [tryAggressiveHTTP];
    - [Toy], [BlockedSite], [SitemapSite], [IndexSite], [StubbornSite],
      [Scenarios]  : executable sites and requests to run the model on.

    Network, browser and library calls are parameters (the classes [Net],
    [Fetchers], [Site], [Runtime]) acting on an abstract world; a run
    yields a value, the next world and the trace of its observable
    actions.

    Go [int] values are integers of [Z]; lengths are [nat].  Wall-clock
    values of results and events ([Timestamp], durations, throughput) and
    the human-readable [Progress] text of events steer no branch of the
    code and are left out of the records. *)

From Stdlib Require Import ZArith List String Ascii Bool Lia.
From stdpp Require Import base option list gmap strings pretty.

Local Open Scope string_scope.
Local Open Scope Z_scope.
Local Open Scope list_scope.

(* ===================================================================== *)
(** ** Go strings *)
(* ===================================================================== *)

Module GoString.

(** A Go string is a sequence of bytes; [len] counts bytes. *)
Definition len (s : string) : Z := Z.of_nat (String.length s).

Definition byte_of (c : ascii) : Z := Z.of_nat (nat_of_ascii c).

Definition bytes (s : string) : list Z := map byte_of (list_ascii_of_string s).

(** [strings.HasPrefix]. *)
Definition HasPrefix (s p : string) : bool := String.prefix p s.

(** [s[n:]] for [n <= len s]. *)
Definition slice_from (n : nat) (s : string) : string :=
  String.substring n (String.length s - n) s.

(** [utf8.RuneError], the rune produced for an invalid encoding. *)
Definition RuneError : Z := 65533.

Definition between (lo hi b : Z) : bool := (lo <=? b) && (b <=? hi).

(** Continuation byte [0x80..0xBF]. *)
Definition cont (b : Z) : bool := between 128 191 b.

(** Accepted range of the second byte, by leading byte (Unicode table 3-7,
    as in [unicode/utf8]). *)
Definition second_lo (b0 : Z) : Z :=
  if b0 =? 224 then 160 else if b0 =? 240 then 144 else 128.
Definition second_hi (b0 : Z) : Z :=
  if b0 =? 237 then 159 else if b0 =? 244 then 143 else 191.

(** [utf8.DecodeRuneInString]: the first rune of a byte sequence and its
    width; an invalid or short encoding yields [(RuneError, 1)]. *)
Definition DecodeRune (bs : list Z) : Z * nat :=
  match bs with
  | [] => (RuneError, 0%nat)
  | b0 :: tl =>
      if b0 <? 128 then (b0, 1%nat)
      else if between 194 223 b0 then
        match tl with
        | b1 :: _ =>
            if cont b1 then ((b0 mod 32) * 64 + b1 mod 64, 2%nat)
            else (RuneError, 1%nat)
        | _ => (RuneError, 1%nat)
        end
      else if between 224 239 b0 then
        match tl with
        | b1 :: b2 :: _ =>
            if between (second_lo b0) (second_hi b0) b1 && cont b2
            then ((b0 mod 16) * 4096 + (b1 mod 64) * 64 + b2 mod 64, 3%nat)
            else (RuneError, 1%nat)
        | _ => (RuneError, 1%nat)
        end
      else if between 240 244 b0 then
        match tl with
        | b1 :: b2 :: b3 :: _ =>
            if between (second_lo b0) (second_hi b0) b1 && cont b2 && cont b3
            then ((b0 mod 8) * 262144 + (b1 mod 64) * 4096
                  + (b2 mod 64) * 64 + b3 mod 64, 4%nat)
            else (RuneError, 1%nat)
        | _ => (RuneError, 1%nat)
        end
      else (RuneError, 1%nat)
  end.

(** The runes visited by [for _, r := range s]: decode at the current
    position, then skip the remaining bytes of that encoding. *)
Fixpoint range_from (skip : nat) (bs : list Z) : list Z :=
  match bs with
  | [] => []
  | _ :: tl =>
      match skip with
      | S k => range_from k tl
      | O => let '(r, w) := DecodeRune bs in r :: range_from (Nat.pred w) tl
      end
  end.

Definition runes (s : string) : list Z := range_from 0 (bytes s).

End GoString.

(* ===================================================================== *)
(** ** Package models *)
(* ===================================================================== *)

Module Models.

(** [models.CrawlRequest], as decoded from the JSON body. *)
Record CrawlRequest := mkCrawlRequest {
  URL : string;
  JobID : string;
  Depth : Z;
  Workers : Z;
  Delay : string;
  MaxURLs : Z;
  EnableSitemap : bool;
  EnableHTML : bool;
  EnableHeadless : bool;
  HeadlessTimeout : Z;
  WaitForJS : bool
}.

(** [models.CrawlSettings]. *)
Record CrawlSettings := mkCrawlSettings {
  sWorkers : Z;
  sDelay : string;
  sDepth : Z
}.

(** [models.CrawlResult]; [ID] is [None] until the handler assigns one. *)
Record CrawlResult := mkCrawlResult {
  rID : option string;
  TargetURL : string;
  TotalURLs : Z;
  Settings : CrawlSettings;
  URLs : list string
}.

(** [models.JobStatus]; timestamps are clock readings. *)
Record JobStatus := mkJobStatus {
  jID : string;
  Status : string;
  Progress : string;
  Result : option CrawlResult;
  jError : string;
  CreatedAt : Z;
  UpdatedAt : Z;
  Request : option CrawlRequest
}.

(** [models.CrawlResponse]. *)
Record CrawlResponse := mkCrawlResponse {
  respJobID : string;
  respStatus : string;
  respMessage : string
}.

(** [models.CrawlEvent] without [Progress] and [Timestamp]. *)
Record CrawlEvent := mkCrawlEvent {
  Type_ : string;
  evJobID : string;
  evURL : string;
  evDepth : Z;
  Total : Z;
  PageCount : Z;
  evError : string;
  Tier : string
}.

(** [models.URLFallback]. *)
Record URLFallback := mkURLFallback {
  OriginalURL : string;
  FallbackURL : string;
  Success : bool;
  fbError : string
}.

(** [models.ContentResponse]; [Sizes.Markdown] is [mSize]. *)
Record ContentResponse := mkContentResponse {
  cURL : string;
  StatusCode : Z;
  ContentType : string;
  Markdown : string;
  mSize : Z;
  Headers : list (string * string);
  cError : string
}.

(** [models.ContentRequest]. *)
Record ContentRequest := mkContentRequest {
  qURL : string;
  qURLs : list string;
  Concurrency : Z
}.

(** [models.ContentBatchResponse]. *)
Record ContentBatchResponse := mkContentBatchResponse {
  Results : list ContentResponse;
  bTotal : Z;
  bSuccess : Z;
  bFailed : Z
}.

End Models.

Import Models.

(* ===================================================================== *)
(** ** Worker pool *)
(* ===================================================================== *)

Module Pool.

(** Go [int] is 64 bits wide on the supported platforms; [wrap] is its
    two's-complement wrap-around. *)
Definition wrap (z : Z) : Z :=
  (z + 2 ^ 63) mod 2 ^ 64 - 2 ^ 63.

(** [calculateOptimalWorkers], as a function of [runtime.NumCPU()] and of
    [memStats.Sys] (an unsigned 64-bit byte count). *)
Definition calculateOptimalWorkers (cpuCount : Z) (memSys : Z) : Z :=
  let cpuBasedLimit := wrap (cpuCount * 2) in
  let memoryBasedLimit := wrap (memSys / (100 * 1024 * 1024)) in
  let memoryBasedLimit := if memoryBasedLimit <? 1 then 10 else memoryBasedLimit in
  let maxWorkers := cpuBasedLimit in
  let maxWorkers := if memoryBasedLimit <? maxWorkers then memoryBasedLimit else maxWorkers in
  let maxWorkers := if maxWorkers >? 50 then 50 else maxWorkers in
  let maxWorkers := if maxWorkers <? 5 then 5 else maxWorkers in
  maxWorkers.

(** The fields of [WorkerPool] that admission reads. *)
Record WorkerPool := mkWorkerPool {
  maxWorkers : Z;
  activeJobs : Z
}.

(** [InitializeGlobalPool]: a fresh pool has no active job. *)
Definition InitializeGlobalPool (cpuCount memSys : Z) : WorkerPool :=
  {| maxWorkers := calculateOptimalWorkers cpuCount memSys; activeJobs := 0 |}.

(** [CanAcceptWork]; [/] on Go ints truncates toward zero ([Z.quot]). *)
Definition CanAcceptWork (wp : WorkerPool) (urlCount : Z) : bool :=
  let active := activeJobs wp in
  let available := maxWorkers wp - active in
  (available >=? Z.quot urlCount 10) || (available >=? 2).

(** How the normal path of a batch went: a submission that did not fit in
    the job queue within 5 s, the batch deadline passing with only some
    results collected, or every result collected. *)
Inductive NormalRun :=
| SubmitTimeout
| DeadlineHit (collected : list (nat * ContentResponse))
| AllCollected.

(** The zero [ContentResponse] that [make] fills a fresh slice with. *)
Definition zeroResponse : ContentResponse :=
  {| cURL := ""; StatusCode := 0; ContentType := ""; Markdown := "";
     mSize := 0; Headers := []; cError := "" |}.

(** [results[result.Index] = result.Response] for the collected results. *)
Definition store_results (n : nat) (got : list (nat * ContentResponse)) : list ContentResponse :=
  fold_left (fun acc ir => <[fst ir := snd ir]> acc) got (replicate n zeroResponse).

(** The goroutines of [processWithReducedConcurrency], one for each URL
    and named by its index: [waiting] are those that have not got through
    [sem <- struct{}{}] yet, [holding] those between that send and the
    deferred receive [<-sem], which is where [processURL] runs; [results]
    is the slice they share. *)
Record Reduced := mkReduced {
  waiting : list nat;
  holding : list nat;
  results : list ContentResponse
}.

(** The state after the [for] loop has started every goroutine. *)
Definition reduced_start (urls : list string) : Reduced :=
  {| waiting := seq 0 (length urls); holding := [];
     results := replicate (length urls) zeroResponse |}.

(** One step of one goroutine.  [sem] is a channel of capacity [limit]: a
    send goes through only while fewer than [limit] goroutines hold a
    slot.  A goroutine that holds a slot stores [processURL url] at its
    index and gives the slot back. *)
Inductive reduced_step (processURL : string -> ContentResponse) (urls : list string)
    (limit : Z) : Reduced -> Reduced -> Prop :=
| step_send (s : Reduced) (before after : list nat) (index : nat) :
    waiting s = before ++ index :: after ->
    Z.of_nat (length (holding s)) < limit ->
    reduced_step processURL urls limit s
      {| waiting := before ++ after; holding := index :: holding s;
         results := results s |}
| step_done (s : Reduced) (before after : list nat) (index : nat) (url : string) :
    holding s = before ++ index :: after ->
    urls !! index = Some url ->
    reduced_step processURL urls limit s
      {| waiting := waiting s; holding := before ++ after;
         results := <[index := processURL url]> (results s) |}.

(** The states the goroutines can be in, under any interleaving. *)
Inductive reduced_run (processURL : string -> ContentResponse) (urls : list string)
    (limit : Z) : Reduced -> Prop :=
| run_start : reduced_run processURL urls limit (reduced_start urls)
| run_step (s s' : Reduced) :
    reduced_run processURL urls limit s ->
    reduced_step processURL urls limit s s' ->
    reduced_run processURL urls limit s'.

(** [wg.Wait] returns once every goroutine is done. *)
Definition reduced_done (s : Reduced) : Prop := waiting s = [] /\ holding s = [].

(** The first waiting goroutine run from its send to its receive, if its
    send goes through. *)
Definition run_goroutine (processURL : string -> ContentResponse) (urls : list string)
    (limit : Z) (s : Reduced) : Reduced :=
  match waiting s with
  | index :: rest =>
      if Z.of_nat (length (holding s)) <? limit then
        {| waiting := rest; holding := holding s;
           results := match urls !! index with
                      | Some url => <[index := processURL url]> (results s)
                      | None => results s
                      end |}
      else s
  | [] => s
  end.

(** [processWithReducedConcurrency]: the slice after [wg.Wait], computed
    by running the goroutines one after the other; every interleaving
    [reduced_run] allows ends with the same slice.  With [limit < 1] no
    send goes through and the call does not return; [ProcessContentURLs]
    calls it with [limit >= 1] only. *)
Definition processWithReducedConcurrency (processURL : string -> ContentResponse)
    (urls : list string) (limit : Z) : list ContentResponse * option string :=
  (results (Nat.iter (length urls) (run_goroutine processURL urls limit)
              (reduced_start urls)),
   None).

(** [ProcessContentURLs]: the result slice ([None] is Go's [nil]) and the
    error, if any. *)
Definition ProcessContentURLs (processURL : string -> ContentResponse)
    (run : NormalRun) (wp : WorkerPool) (urls : list string)
  : option (list ContentResponse) * option string :=
  if negb (CanAcceptWork wp (Z.of_nat (length urls))) then
    let reduced := Z.quot (maxWorkers wp) 4 in
    if reduced <? 1 then (None, Some "system overloaded")
    else
      let '(rs, e) := processWithReducedConcurrency processURL urls reduced in
      (Some rs, e)
  else
    match run with
    | SubmitTimeout => (None, Some "job submission timeout")
    | DeadlineHit got => (Some (store_results (length urls) got), Some "processing timeout")
    | AllCollected => (Some (map processURL urls), None)
    end.

End Pool.

(* ===================================================================== *)
(** ** Effects: world oracles and the trace of observable actions *)
(* ===================================================================== *)

Module Effects.

(** A Go function that returns [(T, error)]. *)
Inductive result (A : Type) :=
| Ok (a : A)
| Err (msg : string).
Arguments Ok {A} a.
Arguments Err {A} msg.

(** The content-extraction strategies, in source order. *)
Inductive Strategy := Rendered | PlainHTTP | PooledBrowser | AggressiveHTTP.

(** What a run does that other parties can observe, in program order. *)
Inductive Action :=
| Probe (url : string)            (* the [client.Do] of [CheckURLAccessibility] *)
| Publish (e : CrawlEvent)        (* a call of [PublishCrawlEvent] *)
| PublishAsync (e : CrawlEvent)   (* [go PublishCrawlEvent(e)] *)
| Call (fn : string)              (* entry into a tier function *)
| Fetch (s : Strategy) (url : string)
| Lock                            (* [config.JobsMutex.Lock] *)
| Unlock
| MemWrite (j : JobStatus)        (* the job record in [ActiveJobs] now reads [j] *)
| StoreInsert (j : JobStatus)     (* [SaveJobToMongoDB] *)
| StoreUpdate (j : JobStatus).    (* [UpdateJobInMongoDB] *)

(** A computation over an external world [W]: a value, the next world and
    the actions performed. *)
Definition M (W A : Type) : Type := W -> A * W * list Action.

Section Monad.
Context {W : Type}.

Definition ret {A} (a : A) : M W A := fun w => (a, w, []).

Definition bind {A B} (m : M W A) (k : A -> M W B) : M W B :=
  fun w =>
    let '(a, w1, t1) := m w in
    let '(b, w2, t2) := k a w1 in
    (b, w2, t1 ++ t2).

Definition emit (a : Action) : M W unit := fun w => (tt, w, [a]).

(** A call to the outside world. *)
Definition ask {A} (f : W -> A * W) : M W A :=
  fun w => let '(a, w') := f w in (a, w', []).

(** A call to a component that only publishes events. *)
Definition ask_pub {A} (f : W -> A * W * list CrawlEvent) : M W A :=
  fun w => let '(a, w', es) := f w in (a, w', map Publish es).

Definition value {A} (m : M W A) (w : W) : A := fst (fst (m w)).
Definition world {A} (m : M W A) (w : W) : W := snd (fst (m w)).
Definition trace {A} (m : M W A) (w : W) : list Action := snd (m w).

End Monad.

#[global] Instance M_ret {W} : MRet (M W) := @ret W.
#[global] Instance M_bind {W} : MBind (M W) := fun A B k m => bind m k.

(** [for _, x := range xs { f x }]. *)
Fixpoint for_each {W A} (f : A -> M W unit) (xs : list A) : M W unit :=
  match xs with
  | [] => mret tt
  | x :: rest => _ ← f x; for_each f rest
  end.

(** The results of running [f] on every element in order. *)
Fixpoint map_each {W A B} (f : A -> M W B) (xs : list A) : M W (list B) :=
  match xs with
  | [] => mret []
  | x :: rest => b ← f x; bs ← map_each f rest; mret (b :: bs)
  end.

End Effects.

Import Effects.

(* ===================================================================== *)
(** ** The event bus: [PublishCrawlEvent] and the goroutines it starts *)
(* ===================================================================== *)

Module Bus.
Import GoString.

(** What [PublishCrawlEvent] finds in [config.RabbitChannel]. *)
Inductive Channel := NilChannel | ClosedChannel | OpenChannel.

(** What is handed to [RabbitChannel.Publish]: the routing key and the
    body of the [amqp.Publishing]. *)
Record Publishing := mkPublishing {
  routingKey : string;
  Body : string
}.

(** A goroutine that has been started and has not run yet: the one of
    [go PublishCrawlEvent(event)], or the [go func] inside
    [PublishCrawlEvent] that calls [RabbitChannel.Publish]. *)
Inductive Goroutine :=
| WillCall (event : CrawlEvent)
| WillPublish (m : Publishing).

(** What can be observed of a crawl and of the goroutines it starts. *)
Inductive Step :=
| Does (a : Action)               (* the crawl performs [a], in program order *)
| Calls (event : CrawlEvent)      (* a goroutine calls [PublishCrawlEvent] *)
| ChannelPublish (m : Publishing). (* a goroutine calls [RabbitChannel.Publish] *)

(** [json.Marshal] on an event. *)
Class Codec := {
  json_Marshal : CrawlEvent -> result string
}.

Section Publisher.
Context `{Codec}.

(** [PublishCrawlEvent] up to its [go] statement: [None] when it returns
    without starting the publishing goroutine (no channel, a closed
    channel, or an event that does not marshal), else what that goroutine
    will hand to [RabbitChannel.Publish]. *)
Definition PublishCrawlEvent (channel : Channel) (event : CrawlEvent)
  : option Publishing :=
  match channel with
  | NilChannel => None
  | ClosedChannel => None
  | OpenChannel =>
      match json_Marshal event with
      | Err _ => None
      | Ok body =>
          let routingKey := "crawler." +:+ evJobID event +:+ "." +:+ Type_ event in
          Some {| routingKey := routingKey; Body := body |}
      end
  end.

(** The goroutine a call of [PublishCrawlEvent] starts, if any. *)
Definition go_func (channel : Channel) (event : CrawlEvent) : list Goroutine :=
  match PublishCrawlEvent channel event with
  | Some m => [WillPublish m]
  | None => []
  end.

(** The goroutines an action of the crawl starts. *)
Definition started (channel : Channel) (a : Action) : list Goroutine :=
  match a with
  | Publish e => go_func channel e
  | PublishAsync e => [WillCall e]
  | _ => []
  end.

(** The executions of a crawl whose actions are, in program order, [t],
    with the goroutines [gs] started and not yet run.  The crawl performs
    its next action, or one of the waiting goroutines runs; the channel is
    whatever [config.RabbitChannel] holds at the time of a call.  Nothing
    orders a goroutine with respect to the crawl after its start, and an
    execution may end with goroutines that never ran. *)
Inductive execution : list Action -> list Goroutine -> list Step -> Prop :=
| exec_end (gs : list Goroutine) : execution [] gs []
| exec_does (a : Action) (t : list Action) (gs : list Goroutine) (channel : Channel)
    (obs : list Step) :
    execution t (gs ++ started channel a) obs ->
    execution (a :: t) gs (Does a :: obs)
| exec_calls (t : list Action) (before : list Goroutine) (event : CrawlEvent)
    (after : list Goroutine) (channel : Channel) (obs : list Step) :
    execution t (go_func channel event ++ before ++ after) obs ->
    execution t (before ++ WillCall event :: after) (Calls event :: obs)
| exec_publishes (t : list Action) (before : list Goroutine) (m : Publishing)
    (after : list Goroutine) (obs : list Step) :
    execution t (before ++ after) obs ->
    execution t (before ++ WillPublish m :: after) (ChannelPublish m :: obs).

(** The call of [RabbitChannel.Publish] for an event, the channel being
    open. *)
Definition publication (event : CrawlEvent) : list Step :=
  match PublishCrawlEvent OpenChannel event with
  | Some m => [ChannelPublish m]
  | None => []
  end.

(** The execution in which every goroutine runs as soon as it is
    started. *)
Definition eager (t : list Action) : list Step :=
  flat_map (fun a => Does a :: match a with
                               | Publish e => publication e
                               | PublishAsync e => Calls e :: publication e
                               | _ => []
                               end) t.

(** The goroutines [gs] run one after the other. *)
Definition drain (gs : list Goroutine) : list Step :=
  flat_map (fun g => match g with
                     | WillCall e => Calls e :: publication e
                     | WillPublish m => [ChannelPublish m]
                     end) gs.

(** The execution in which the goroutines run after the crawl's last
    action. *)
Definition late (t : list Action) : list Step :=
  map Does t ++ drain (flat_map (started OpenChannel) t).

(** The execution in which no goroutine runs: there is no channel, or the
    goroutines are still waiting when the observation ends. *)
Definition silent (t : list Action) : list Step := map Does t.

(** The actions of the crawl in an execution. *)
Definition program (obs : list Step) : list Action :=
  omap (fun s => match s with Does a => Some a | _ => None end) obs.

End Publisher.

End Bus.

(* ===================================================================== *)
(** ** Package utils: the reachability prober (utils/url.go) *)
(* ===================================================================== *)

Module Utils.
Import GoString.

(** The fields of [net/url.URL]. *)
Record URL := mkURL {
  Scheme : string;
  Opaque : string;
  User : option string;
  Host : string;
  Path : string;
  RawPath : string;
  ForceQuery : bool;
  RawQuery : string;
  Fragment : string;
  RawFragment : string
}.

Definition with_Host (u : URL) (h : string) : URL :=
  {| Scheme := Scheme u; Opaque := Opaque u; User := User u; Host := h;
     Path := Path u; RawPath := RawPath u; ForceQuery := ForceQuery u;
     RawQuery := RawQuery u; Fragment := Fragment u; RawFragment := RawFragment u |}.

Definition with_Scheme (u : URL) (s : string) : URL :=
  {| Scheme := s; Opaque := Opaque u; User := User u; Host := Host u;
     Path := Path u; RawPath := RawPath u; ForceQuery := ForceQuery u;
     RawQuery := RawQuery u; Fragment := Fragment u; RawFragment := RawFragment u |}.

(** The library and network calls the prober makes.  [http_Do] stands for
    building the request and [client.Do]: a transport error, or the status
    code with its status text.  The client follows up to five redirects
    inside [client.Do]; what it answers is the outcome of the last hop. *)
Class Net (W : Type) := {
  url_Parse : string -> result URL;
  url_String : URL -> string;
  http_Do : string -> W -> result (Z * string) * W
}.

Section Prober.
Context {W : Type} `{Net W}.

(** [CheckURLAccessibility]: [None] is the [nil] error. *)
Definition CheckURLAccessibility (urlStr : string) : M W (option string) :=
  match url_Parse urlStr with
  | Err e => mret (Some e)
  | Ok _ =>
      _ ← emit (Probe urlStr);
      r ← ask (http_Do urlStr);
      match r with
      | Err e => mret (Some e)
      | Ok (code, status) =>
          if (200 <=? code) && (code <? 400) then mret None
          else if code =? 403
          then mret (Some "HTTP 403: Forbidden (may need different approach)")
          else mret (Some ("HTTP " +:+ pretty code +:+ ": " +:+ status))
      end
  end.

(** [GenerateFallbackURLs]. *)
Definition GenerateFallbackURLs (originalURL : string) : list string :=
  match url_Parse originalURL with
  | Err _ => []
  | Ok parsed =>
      let host := Host parsed in
      let fallbacks := [] in
      let fallbacks :=
        if negb (HasPrefix host "www.")
        then fallbacks ++ [url_String (with_Host parsed ("www." +:+ host))]
        else fallbacks in
      let fallbacks :=
        if HasPrefix host "www."
        then fallbacks ++ [url_String (with_Host parsed (slice_from 4 host))]
        else fallbacks in
      if String.eqb (Scheme parsed) "http" then
        let httpsURL := with_Scheme parsed "https" in
        let fallbacks := fallbacks ++ [url_String httpsURL] in
        if negb (HasPrefix host "www.")
        then fallbacks ++ [url_String (with_Host httpsURL ("www." +:+ host))]
        else fallbacks ++ [url_String (with_Host httpsURL (slice_from 4 host))]
      else fallbacks
  end.

(** The loop of [FindAccessibleURL] over the fallback URLs. *)
Fixpoint try_fallbacks (originalURL : string) (fallbackInfo : URLFallback)
    (fallbacks : list string) : M W (string * URLFallback) :=
  match fallbacks with
  | [] => mret (originalURL, fallbackInfo)
  | fallbackURL :: rest =>
      err ← CheckURLAccessibility fallbackURL;
      match err with
      | None =>
          mret (fallbackURL,
                {| OriginalURL := OriginalURL fallbackInfo; FallbackURL := fallbackURL;
                   Success := true; fbError := fbError fallbackInfo |})
      | Some _ => try_fallbacks originalURL fallbackInfo rest
      end
  end.

(** [FindAccessibleURL]. *)
Definition FindAccessibleURL (originalURL jobID : string) : M W (string * URLFallback) :=
  let fallbackInfo :=
    {| OriginalURL := originalURL; FallbackURL := originalURL;
       Success := false; fbError := "" |} in
  err ← CheckURLAccessibility originalURL;
  match err with
  | None =>
      mret (originalURL,
            {| OriginalURL := originalURL; FallbackURL := originalURL;
               Success := true; fbError := "" |})
  | Some e =>
      let fallbackInfo :=
        {| OriginalURL := originalURL; FallbackURL := originalURL;
           Success := false; fbError := e |} in
      try_fallbacks originalURL fallbackInfo (GenerateFallbackURLs originalURL)
  end.

End Prober.

End Utils.

(* ===================================================================== *)
(** ** Tiered content extractor (services/stealth.go, second file) *)
(* ===================================================================== *)

Module Stealth.
Import GoString Utils.

(** [strings.Contains]. *)
Fixpoint Contains (s substr : string) : bool :=
  String.prefix substr s ||
  match s with
  | EmptyString => false
  | String _ tl => Contains tl substr
  end.

(** What the code reads of an [http.Response]: [ctype] is
    [Header.Get("Content-Type")], [body] the outcome of [io.ReadAll]. *)
Record HTTPResponse := mkHTTPResponse {
  hStatusCode : Z;
  hStatus : string;
  hHeader : list (string * list string);
  ctype : string;
  body : result string
}.

(** Library functions and the fetchers behind the strategies.
    [convertToMarkdown] and [tryAggressiveHTTP] live in
    [content_helpers.go]; [plain_Do] is the GET of the plain HTTP
    strategy ([http.NewRequest], which cannot fail on a URL that was just
    probed, then [client.Do]); [pool_ready] is
    [GlobalPool != nil && GlobalPool.browserPool != nil] and
    [browserPool_Get] the error, if any, of taking a browser. *)
Class Fetchers (W : Type) := {
  TrimSpace : string -> string;
  ToLower : string -> string;
  convertToMarkdown : string -> result string;
  tryJSDOMRendering : string -> W -> result string * W;
  plain_Do : string -> W -> result HTTPResponse * W;
  pool_ready : W -> bool * W;
  browserPool_Get : W -> option string * W;
  scrapeWithPooledBrowser : string -> W -> result string * W;
  tryAggressiveHTTP : string -> W -> ContentResponse * W
}.

Definition emptyResponse (u : string) : ContentResponse :=
  {| cURL := u; StatusCode := 0; ContentType := ""; Markdown := "";
     mSize := 0; Headers := []; cError := "" |}.

Definition withError (r : ContentResponse) (e : string) : ContentResponse :=
  {| cURL := cURL r; StatusCode := StatusCode r; ContentType := ContentType r;
     Markdown := Markdown r; mSize := mSize r; Headers := Headers r; cError := e |}.

(** A response filled from a page: status, content type, headers, Markdown
    and its size. *)
Definition filled (u : string) (code : Z) (ct : string)
    (hs : list (string * string)) (md : string) : ContentResponse :=
  {| cURL := u; StatusCode := code; ContentType := ct; Markdown := md;
     mSize := len md; Headers := hs; cError := "" |}.

(** [headers[key] = values[0]] for every key with a value. *)
Definition first_values (h : list (string * list string)) : list (string * string) :=
  omap (fun kv => match snd kv with
                  | [] => None
                  | v :: _ => Some (fst kv, v)
                  end) h.

Section Extractor.
Context {W : Type} `{Net W} `{Fetchers W}.

(** The Markdown of a page, or the conversion error as text. *)
Definition markdown_of (prefix html : string) : string :=
  match convertToMarkdown html with
  | Ok markdown => markdown
  | Err e => prefix +:+ e
  end.

(** [tryHTMLScraping]: rendered fetch, then plain HTTP. *)
Definition tryHTMLScraping (targetURL : string) : M W ContentResponse :=
  '(actualURL, fallbackInfo) ← FindAccessibleURL targetURL "";
  let response := emptyResponse actualURL in
  if negb (Success fallbackInfo) then mret (withError response (fbError fallbackInfo))
  else
    _ ← emit (Fetch Rendered actualURL);
    rendered ← ask (tryJSDOMRendering actualURL);
    let rendered_ok :=
      match rendered with
      | Ok htmlContent => if String.eqb htmlContent "" then None else Some htmlContent
      | Err _ => None
      end in
    match rendered_ok with
    | Some htmlContent =>
        mret (filled actualURL 200 "text/html; charset=UTF-8"
                [("Content-Type", "text/html; charset=UTF-8");
                 ("X-Rendered-By", "JSDOM-Tier1")]
                (markdown_of "Error converting JSDOM content to markdown: " htmlContent))
    | None =>
        _ ← emit (Fetch PlainHTTP actualURL);
        r ← ask (plain_Do actualURL);
        match r with
        | Err e => mret (withError response ("Failed to fetch URL: " +:+ e))
        | Ok resp =>
            if (hStatusCode resp =? 403) || (hStatusCode resp =? 429) then
              mret (withError response
                      ("HTTP " +:+ pretty (hStatusCode resp) +:+ ": " +:+ hStatus resp
                       +:+ " (blocked by server, trying browser fallback)"))
            else
              match body resp with
              | Err e => mret (withError response ("Failed to read response: " +:+ e))
              | Ok rawContent =>
                  let contentType := ctype resp in
                  let isHTML := Contains (ToLower contentType) "text/html" in
                  mret (filled actualURL (hStatusCode resp) contentType
                          (first_values (hHeader resp))
                          (if isHTML
                           then markdown_of "Error converting to markdown: " rawContent
                           else rawContent))
              end
        end
    end.

(** [tryBrowserScraping]: pooled browser, then aggressive HTTP. *)
Definition tryBrowserScraping (targetURL : string) : M W ContentResponse :=
  let response := emptyResponse targetURL in
  ready ← ask pool_ready;
  if negb ready then mret (withError response "Browser pool not initialized")
  else
    got ← ask browserPool_Get;
    match got with
    | Some e => mret (withError response ("Failed to get browser from pool: " +:+ e))
    | None =>
        _ ← emit (Fetch PooledBrowser targetURL);
        r ← ask (scrapeWithPooledBrowser targetURL);
        match r with
        | Err e =>
            _ ← emit (Fetch AggressiveHTTP targetURL);
            aggressiveResponse ← ask (tryAggressiveHTTP targetURL);
            if String.eqb (cError aggressiveResponse) "" then mret aggressiveResponse
            else mret (withError response
                         ("Browser scraping failed: " +:+ e
                          +:+ " (Aggressive HTTP also failed: "
                          +:+ cError aggressiveResponse +:+ ")"))
        | Ok htmlContent =>
            mret (filled targetURL 200 "text/html"
                    [("Content-Type", "text/html"); ("X-Scraped-With", "Browser")]
                    (markdown_of "Error converting to markdown: " htmlContent))
        end
    end.

(** The test [processURL] applies to the first tier only. *)
Definition long_enough (r : ContentResponse) : bool :=
  String.eqb (cError r) "" && (len (TrimSpace (Markdown r)) >? 100).

(** [processURL]. *)
Definition processURL (targetURL : string) : M W ContentResponse :=
  htmlResponse ← tryHTMLScraping targetURL;
  if long_enough htmlResponse then mret htmlResponse
  else
    browserResponse ← tryBrowserScraping targetURL;
    if String.eqb (cError browserResponse) "" then mret browserResponse
    else if negb (String.eqb (cError htmlResponse) "") then
      if Contains (cError browserResponse) "browser not available"
      then mret (withError htmlResponse
                   (cError htmlResponse +:+
                    " (Browser fallback unavailable: headless browser not available in this environment)"))
      else mret (withError htmlResponse
                   (cError htmlResponse +:+ " (Browser fallback also failed: "
                    +:+ cError browserResponse +:+ ")"))
    else mret browserResponse.

(** The strategies a run fetched with, in program order. *)
Definition strategies (t : list Action) : list Strategy :=
  omap (fun a => match a with Fetch s _ => Some s | _ => None end) t.

End Extractor.

End Stealth.

(* ===================================================================== *)
(** ** Three-tier orchestrator and HTML walker (services/crawler.go,
       services/sitemap.go) *)
(* ===================================================================== *)

Module Crawler.
Import GoString Utils.

(** [event typ job tier] with the remaining fields at their zero value. *)
Definition event (typ jobID tier : string) : CrawlEvent :=
  {| Type_ := typ; evJobID := jobID; evURL := ""; evDepth := 0; Total := 0;
     PageCount := 0; evError := ""; Tier := tier |}.

Definition event_url (typ jobID tier url : string) : CrawlEvent :=
  {| Type_ := typ; evJobID := jobID; evURL := url; evDepth := 0; Total := 0;
     PageCount := 0; evError := ""; Tier := tier |}.

Definition event_total (typ jobID tier : string) (total : Z) : CrawlEvent :=
  {| Type_ := typ; evJobID := jobID; evURL := ""; evDepth := 0; Total := total;
     PageCount := 0; evError := ""; Tier := tier |}.

Definition event_error (jobID tier err : string) : CrawlEvent :=
  {| Type_ := "error"; evJobID := jobID; evURL := ""; evDepth := 0; Total := 0;
     PageCount := 0; evError := err; Tier := tier |}.

(** [len] of a slice, as a Go [int]. *)
Definition slen {A} (l : list A) : Z := Z.of_nat (length l).

(** [removeDuplicateURLs]: the loop over [urls] with its [seen] map and
    [unique] slice. *)
Fixpoint removeDuplicateURLs_loop (seen : gmap string bool) (unique urls : list string)
  : list string :=
  match urls with
  | [] => unique
  | url :: rest =>
      if negb (default false (seen !! url))
      then removeDuplicateURLs_loop (<[url := true]> seen) (unique ++ [url]) rest
      else removeDuplicateURLs_loop seen unique rest
  end.

Definition removeDuplicateURLs (urls : list string) : list string :=
  removeDuplicateURLs_loop ∅ [] urls.

(** [shouldFallbackToHTML]. *)
Definition shouldFallbackToHTML (currentURLs : list string) (config : CrawlRequest) : bool :=
  slen currentURLs <? 10.

(** [shouldFallbackToHeadless] (no caller). *)
Definition shouldFallbackToHeadless (currentURLs : list string) (config : CrawlRequest) : bool :=
  slen currentURLs <? 5.

(** [strings.HasSuffix]. *)
Definition HasSuffix (s suffix : string) : bool :=
  let n := String.length s in
  let k := String.length suffix in
  (k <=? n)%nat && String.eqb (String.substring (n - k) k s) suffix.

Definition skipExtensions : list string :=
  [".css"; ".js"; ".jpg"; ".jpeg"; ".png"; ".gif"; ".svg"; ".ico"; ".pdf";
   ".zip"; ".tar"; ".gz"; ".mp4"; ".mp3"; ".avi"; ".mov"; ".wmv"; ".flv";
   ".swf"; ".doc"; ".docx"; ".xls"; ".xlsx"; ".ppt"; ".pptx"].

Definition skipPatterns : list string :=
  ["/admin"; "/login"; "/logout"; "/register"; "/signin"; "/signup"; "/auth";
   "/api/"; "/assets/"; "/static/"; "/images/"; "/img/"; "/css/"; "/js/";
   "/fonts/"; "mailto:"; "tel:"; "javascript:"; "#"].

(** What [xml.Unmarshal] makes of a fetched sitemap body: the [<loc>]s of
    a [sitemapindex], and those of a [urlset]. *)
Record SitemapBody := mkSitemapBody {
  asIndex : result (list string);
  asSet : result (list string)
}.

(** A link handed to the [a[href]] callback: the [href] after [cleanURL],
    the outcome of [url.Parse(e.Request.AbsoluteURL(link))], and the depth
    and URL of the request. *)
Record LinkSeen := mkLinkSeen {
  link : string;
  absolute : result URL;
  reqDepth : Z;
  reqURL : string
}.

(** The callbacks colly fires, in the order they take effect. *)
Inductive Callback :=
| OnRequest (depth : Z) (url : string)
| OnResponse
| OnHTMLAny (depth : Z)
| OnError (err url : string)
| OnLink (l : LinkSeen).

(** The site as the crawler meets it.  [ParseRobotsTxt] (robots.go) only
    publishes events; [fetch_sitemap] is the GET of [ParseSitemap] up to
    [io.ReadAll]; [colly_run] is [c.Visit] followed by [c.Wait]: the error
    of [Visit], if any, and the callbacks fired. *)
Class Site (W : Type) := {
  ToLower : string -> string;
  ParseRobotsTxt : string -> string -> W -> list string * W * list CrawlEvent;
  CheckSitemapExists : string -> W -> bool * W;
  ExtractSitemapsFromRobots : string -> W -> list string * W;
  fetch_sitemap : string -> W -> result SitemapBody * W;
  colly_run : string -> W -> (option string * list Callback) * W
}.

(** The variables the callbacks of [crawlWebsiteWithEvents] share. *)
Record Walker := mkWalker {
  foundURLs : gmap string bool;
  urlList : list string;
  pagesCrawled : Z;
  stopped : bool
}.

Section Orchestrator.
Context {W : Type} `{Net W} `{Site W}.

(** A call of [PublishCrawlEvent], recorded where the code makes it.  The
    call returns at once; whether it starts the goroutine that hands the
    event to the bus is [Bus.PublishCrawlEvent], and when that goroutine
    runs is left open by [Bus.execution]. *)
Definition publish (e : CrawlEvent) : M W unit := emit (Publish e).

(** [shouldSkipURL]. *)
Definition shouldSkipURL (link : string) : bool :=
  let link := ToLower link in
  existsb (HasSuffix link) skipExtensions
  || existsb (Stealth.Contains link) skipPatterns.

(** [DiscoverSitemapsWithFallback]. *)
Definition DiscoverSitemapsWithFallback (baseURL jobID : string)
    (robotsSitemaps : list string) : M W (list string) :=
  match url_Parse baseURL with
  | Err _ => mret []
  | Ok parsed =>
      let baseScheme := Scheme parsed in
      let baseHost := Host parsed in
      if (0 <? slen robotsSitemaps) then
        _ ← publish (event "progress" jobID "sitemap");
        _ ← for_each (fun sitemapURL =>
               publish (event_url "sitemap_discovered" jobID "sitemap" sitemapURL))
             robotsSitemaps;
        mret robotsSitemaps
      else
        let candidates :=
          [baseScheme +:+ "://" +:+ baseHost +:+ "/sitemap.xml";
           baseScheme +:+ "://" +:+ baseHost +:+ "/sitemap_index.xml";
           baseScheme +:+ "://" +:+ baseHost +:+ "/sitemaps.xml";
           baseScheme +:+ "://" +:+ baseHost +:+ "/sitemap/sitemap.xml"] in
        _ ← publish (event "progress" jobID "sitemap");
        let check (candidate : string) : M W (list string) :=
          ok ← ask (CheckSitemapExists candidate);
          if (ok : bool) then
            _ ← publish (event_url "sitemap_discovered" jobID "sitemap" candidate);
            mret [candidate]
          else mret [] in
        found ← map_each check candidates;
        let robotsURL := baseScheme +:+ "://" +:+ baseHost +:+ "/robots.txt" in
        robotsSitemaps ← ask (ExtractSitemapsFromRobots robotsURL);
        found' ← map_each check robotsSitemaps;
        mret (concat found ++ concat found')
  end.

(** [ParseSitemap].  The recursion over a sitemap index has no bound in
    the source; [fuel] bounds its depth here and [None] means the bound
    was reached. *)
Fixpoint ParseSitemap (fuel : nat) (sitemapURL jobID : string)
  : M W (option (result (list string))) :=
  match fuel with
  | O => mret None
  | S fuel' =>
      _ ← publish (event "progress" jobID "sitemap");
      fetched ← ask (fetch_sitemap sitemapURL);
      match fetched with
      | Err e => mret (Some (Err e))
      | Ok body =>
          let index := match asIndex body with
                       | Ok refs => if 0 <? slen refs then Some refs else None
                       | Err _ => None
                       end in
          match index with
          | Some refs =>
              _ ← publish (event "progress" jobID "sitemap");
              (fix each (refs : list string) (urls : list string)
                 : M W (option (result (list string))) :=
                 match refs with
                 | [] => mret (Some (Ok urls))
                 | ref :: rest =>
                     sub ← ParseSitemap fuel' ref jobID;
                     match sub with
                     | None => mret None
                     | Some (Err _) => each rest urls
                     | Some (Ok subURLs) => each rest (urls ++ subURLs)
                     end
                 end) refs []
          | None =>
              match asSet body with
              | Err e => mret (Some (Err ("failed to parse sitemap XML: " +:+ e)))
              | Ok locs =>
                  let urls := filter (fun loc => loc ≠ "") locs in
                  _ ← publish (event_total "progress" jobID "sitemap" (slen urls));
                  mret (Some (Ok urls))
              end
          end
      end
  end.

(** The loop of [CrawlWithSitemapsAndFallback] over the discovered
    sitemaps. *)
Fixpoint parse_each (fuel : nat) (jobID : string) (sitemapURLs allURLs : list string)
  : M W (option (list string)) :=
  match sitemapURLs with
  | [] => mret (Some allURLs)
  | sitemapURL :: rest =>
      r ← ParseSitemap fuel sitemapURL jobID;
      match r with
      | None => mret None
      | Some (Err e) =>
          _ ← publish (event_error jobID "sitemap" e);
          parse_each fuel jobID rest allURLs
      | Some (Ok urls) => parse_each fuel jobID rest (allURLs ++ urls)
      end
  end.

(** [CrawlWithSitemapsAndFallback]. *)
Definition CrawlWithSitemapsAndFallback (fuel : nat) (targetURL jobID : string)
    (robotsSitemaps : list string) : M W (option (result (list string))) :=
  sitemapURLs ← DiscoverSitemapsWithFallback targetURL jobID robotsSitemaps;
  if slen sitemapURLs =? 0 then
    _ ← publish (event "progress" jobID "sitemap");
    mret (Some (Ok []))
  else
    parsed ← parse_each fuel jobID sitemapURLs [];
    match parsed with
    | None => mret None
    | Some allURLs =>
        let uniqueURLs := removeDuplicateURLs allURLs in
        _ ← publish (event_total "progress" jobID "sitemap" (slen uniqueURLs));
        mret (Some (Ok uniqueURLs))
    end.

(** The body of the [c.OnHTML("a[href]", ...)] callback: the new state of
    the shared variables and the events it publishes. *)
Definition onLink (allowedDomains : list string) (depth maxURLs : Z) (jobID : string)
    (l : LinkSeen) (st : Walker) : Walker * list Action :=
  if String.eqb (link l) "" || shouldSkipURL (link l) then
    (st, if String.eqb (link l) "" then [PublishAsync (event "progress" jobID "")] else [])
  else
    match absolute l with
    | Err _ => (st, [])
    | Ok linkURL =>
        let isAllowed := existsb (String.eqb (Host linkURL)) allowedDomains in
        if isAllowed then
          let cleanURL := Scheme linkURL +:+ "://" +:+ Host linkURL +:+ Path linkURL in
          let cleanURL :=
            if negb (String.eqb (RawQuery linkURL) "")
            then cleanURL +:+ "?" +:+ RawQuery linkURL
            else cleanURL in
          if negb (default false (foundURLs st !! cleanURL))
             && (slen (urlList st) <? maxURLs) && negb (stopped st)
          then
            let urlList' := urlList st ++ [cleanURL] in
            let currentTotal := slen urlList' in
            let limit := currentTotal >=? maxURLs in
            ({| foundURLs := <[cleanURL := true]> (foundURLs st);
                urlList := urlList';
                pagesCrawled := pagesCrawled st;
                stopped := if limit then true else stopped st |},
             if limit then []
             else [PublishAsync
                     {| Type_ := "url_discovered"; evJobID := jobID; evURL := cleanURL;
                        evDepth := reqDepth l; Total := currentTotal; PageCount := 0;
                        evError := ""; Tier := "" |}])
          else (st, [])
        else (st, [])
    end.

(** One callback of the collector. *)
Definition onCallback (allowedDomains : list string) (depth maxURLs : Z) (jobID : string)
    (cb : Callback) (st : Walker) : Walker * list Action :=
  match cb with
  | OnRequest d url =>
      if stopped st then (st, [])
      else
        let count := pagesCrawled st + 1 in
        ({| foundURLs := foundURLs st; urlList := urlList st;
            pagesCrawled := count; stopped := stopped st |},
         [PublishAsync
            {| Type_ := "progress"; evJobID := jobID; evURL := ""; evDepth := 0;
               Total := 0; PageCount := count; evError := ""; Tier := "" |}])
  | OnResponse =>
      (st, [PublishAsync (event "progress" jobID ""); PublishAsync (event "progress" jobID "")])
  | OnHTMLAny d =>
      (st, if d =? 0 then [PublishAsync (event "progress" jobID "")] else [])
  | OnError err url => (st, [PublishAsync (event_error jobID "" err)])
  | OnLink l => onLink allowedDomains depth maxURLs jobID l st
  end.

(** The callbacks of one crawl, run on the shared variables. *)
Fixpoint run_callbacks (allowedDomains : list string) (depth maxURLs : Z) (jobID : string)
    (cbs : list Callback) (st : Walker) : Walker * list Action :=
  match cbs with
  | [] => (st, [])
  | cb :: rest =>
      let '(st1, t1) := onCallback allowedDomains depth maxURLs jobID cb st in
      let '(st2, t2) := run_callbacks allowedDomains depth maxURLs jobID rest st1 in
      (st2, t1 ++ t2)
  end.

(** The hosts the walker admits: the base host and its [www.] sibling. *)
Definition allowedDomainsOf (baseDomain : string) : list string :=
  if HasPrefix baseDomain "www."
  then [baseDomain; slice_from 4 baseDomain]
  else [baseDomain; "www." +:+ baseDomain].

Definition initialWalker : Walker :=
  {| foundURLs := ∅; urlList := []; pagesCrawled := 0; stopped := false |}.

(** [crawlWebsiteWithEvents]. *)
Definition crawlWebsiteWithEvents (targetURL : string) (depth workers : Z)
    (delayStr : string) (maxURLs : Z) (jobID : string) : M W (result CrawlResult) :=
  '(actualURL, fallbackInfo) ← FindAccessibleURL targetURL jobID;
  if negb (Success fallbackInfo) then
    mret (Err ("URL and all fallbacks are inaccessible: " +:+ fbError fallbackInfo))
  else
    match url_Parse actualURL with
    | Err e => mret (Err ("error parsing actual URL: " +:+ e))
    | Ok parsedURL =>
        let allowedDomains := allowedDomainsOf (Host parsedURL) in
        '(visitErr, cbs) ← ask (colly_run actualURL);
        match visitErr with
        | Some e => mret (Err ("error visiting URL: " +:+ e))
        | None =>
            let '(st, t) :=
              run_callbacks allowedDomains depth maxURLs jobID cbs initialWalker in
            _ ← for_each emit t;
            let finalURLList := urlList st in
            let finalCount := slen (urlList st) in
            mret (Ok {| rID := None; TargetURL := actualURL; TotalURLs := finalCount;
                        Settings := {| sWorkers := workers; sDelay := delayStr;
                                       sDepth := depth |};
                        URLs := finalURLList |})
        end
    end.

(** [CrawlWithHTML]. *)
Definition CrawlWithHTML (targetURL : string) (config : CrawlRequest) (jobID : string)
  : M W (result (list string)) :=
  r ← crawlWebsiteWithEvents targetURL (Depth config) (Workers config) (Delay config)
        (MaxURLs config) jobID;
  match r with
  | Err e => mret (Err e)
  | Ok result => mret (Ok (URLs result))
  end.

(** The tier flags in force: [enableSitemap] and [enableHTML]. *)
Definition enableSitemap (crawlConfig : CrawlRequest) : bool :=
  EnableSitemap crawlConfig
  || (negb (EnableSitemap crawlConfig) && negb (EnableHTML crawlConfig)
      && negb (EnableHeadless crawlConfig)).

Definition enableHTML (crawlConfig : CrawlRequest) : bool :=
  EnableHTML crawlConfig
  || (negb (EnableSitemap crawlConfig) && negb (EnableHTML crawlConfig)
      && negb (EnableHeadless crawlConfig)).

(** Reachability step of [CrawlWebsiteWithTiers]: the URL to crawl, or
    [None] when neither the seed, a fallback nor robots.txt helps. *)
Definition resolve_target (targetURL jobID actualURL : string) (fallbackInfo : URLFallback)
  : M W (option string) :=
  if negb (Success fallbackInfo) then
    _ ← publish (event "progress" jobID "sitemap");
    robotsSitemaps ← ask_pub (ParseRobotsTxt targetURL jobID);
    if 0 <? slen robotsSitemaps then
      _ ← publish (event "progress" jobID "sitemap");
      mret (Some targetURL)
    else
      _ ← publish (event_error jobID "" (fbError fallbackInfo));
      mret None
  else mret (Some actualURL).

(** Tier 1 of [CrawlWebsiteWithTiers]: [allURLs] after the sitemap tier. *)
Definition sitemap_tier (fuel : nat) (targetURL jobID actualURL : string)
    (fallbackInfo : URLFallback) : M W (option (list string)) :=
  _ ← publish (event "tier_switch" jobID "sitemap");
  robotsSitemaps ← (if negb (Success fallbackInfo)
                    then ask_pub (ParseRobotsTxt targetURL jobID)
                    else mret []);
  _ ← emit (Call "CrawlWithSitemapsAndFallback");
  r ← CrawlWithSitemapsAndFallback fuel actualURL jobID robotsSitemaps;
  match r with
  | None => mret None
  | Some (Err e) =>
      _ ← publish (event_error jobID "sitemap" e);
      mret (Some [])
  | Some (Ok sitemapURLs) => mret (Some ([] ++ sitemapURLs))
  end.

(** Tier 2 of [CrawlWebsiteWithTiers]: [allURLs] after the HTML tier. *)
Definition html_tier (actualURL jobID : string) (crawlConfig : CrawlRequest)
    (allURLs : list string) : M W (list string) :=
  _ ← publish (event "tier_switch" jobID "html");
  _ ← emit (Call "CrawlWithHTML");
  r ← CrawlWithHTML actualURL crawlConfig jobID;
  match r with
  | Err e =>
      _ ← publish (event_error jobID "html" e);
      mret allURLs
  | Ok htmlURLs =>
      let allURLs := removeDuplicateURLs (allURLs ++ htmlURLs) in
      _ ← publish (event_total "progress" jobID "html" (slen allURLs));
      mret allURLs
  end.

(** Where [CrawlWebsiteWithTiers] stands after tier 1: the job failed for
    want of a reachable URL, the sitemap recursion ran out of [fuel], or
    [allURLs] holds what the sitemap tier yielded for [actualURL]. *)
Inductive Stage1 :=
| Unreachable (err : string)
| Diverged
| Tier1 (actualURL : string) (allURLs : list string).

(** [CrawlWebsiteWithTiers] up to and including tier 1. *)
Definition first_stage (fuel : nat) (targetURL : string)
    (crawlConfig : CrawlRequest) (jobID : string) : M W Stage1 :=
  '(actualURL, fallbackInfo) ← FindAccessibleURL targetURL jobID;
  target ← resolve_target targetURL jobID actualURL fallbackInfo;
  match target with
  | None => mret (Unreachable (fbError fallbackInfo))
  | Some actualURL =>
      _ ← (if negb (String.eqb (FallbackURL fallbackInfo) (OriginalURL fallbackInfo))
           then publish (event "progress" jobID "")
           else mret tt);
      _ ← publish (event "progress" jobID "");
      tier1 ← (if enableSitemap crawlConfig
               then sitemap_tier fuel targetURL jobID actualURL fallbackInfo
               else mret (Some []));
      match tier1 with
      | None => mret Diverged
      | Some allURLs => mret (Tier1 actualURL allURLs)
      end
  end.

(** The URL limit of [CrawlWebsiteWithTiers]. *)
Definition apply_limit (crawlConfig : CrawlRequest) (jobID : string)
    (allURLs : list string) : M W (list string) :=
  if (MaxURLs crawlConfig >? 0) && (slen allURLs >? MaxURLs crawlConfig)
  then
    _ ← publish (event "progress" jobID "");
    mret (take (Z.to_nat (MaxURLs crawlConfig)) allURLs)
  else mret allURLs.

(** [CrawlWebsiteWithTiers] from tier 2 on. *)
Definition second_stage (actualURL : string) (crawlConfig : CrawlRequest)
    (jobID : string) (allURLs : list string) : M W CrawlResult :=
  let shouldUseHTML :=
    enableHTML crawlConfig && shouldFallbackToHTML allURLs crawlConfig in
  allURLs ← (if shouldUseHTML
             then html_tier actualURL jobID crawlConfig allURLs
             else mret allURLs);
  allURLs ← apply_limit crawlConfig jobID allURLs;
  let result :=
    {| rID := None; TargetURL := actualURL; TotalURLs := slen allURLs;
       Settings := {| sWorkers := Workers crawlConfig;
                      sDelay := Delay crawlConfig;
                      sDepth := Depth crawlConfig |};
       URLs := allURLs |} in
  _ ← publish (event_total "completed" jobID "" (slen allURLs));
  mret result.

(** [CrawlWebsiteWithTiers].  [None]: the sitemap recursion ran out of
    [fuel].  The tier statistics only feed the completion text. *)
Definition CrawlWebsiteWithTiers (fuel : nat) (targetURL : string)
    (crawlConfig : CrawlRequest) (jobID : string) : M W (option (result CrawlResult)) :=
  s ← first_stage fuel targetURL crawlConfig jobID;
  match s with
  | Unreachable err =>
      mret (Some (Err ("URL and all fallbacks are inaccessible: " +:+ err)))
  | Diverged => mret None
  | Tier1 actualURL allURLs =>
      result ← second_stage actualURL crawlConfig jobID allURLs;
      mret (Some (Ok result))
  end.

End Orchestrator.

End Crawler.

(* ===================================================================== *)
(** ** Package handlers: POST /crawl and POST /content *)
(* ===================================================================== *)

Module Handlers.
Import GoString Crawler.

(** The character test of [isValidJobID], on a rune. *)
Definition allowed_rune (char : Z) : bool :=
  ((char >=? 97) && (char <=? 122))
  || ((char >=? 65) && (char <=? 90))
  || ((char >=? 48) && (char <=? 57))
  || (char =? 45) || (char =? 95).

(** [isValidJobID]. *)
Definition isValidJobID (jobID : string) : bool :=
  if (len jobID <? 3) || (len jobID >? 50) then false
  else forallb allowed_rune (runes jobID).

(** The defaults and the clamp [HandleCrawl] applies to the decoded
    request. *)
Definition applyDefaults (req : CrawlRequest) : CrawlRequest :=
  let depth := if Depth req =? 0 then 1 else Depth req in
  let workers := if Workers req =? 0 then 10 else Workers req in
  let delay := if String.eqb (Delay req) "" then "200ms" else Delay req in
  let maxURLs := if MaxURLs req =? 0 then 1000 else MaxURLs req in
  let maxURLs := if maxURLs >? 5000 then 5000 else maxURLs in
  let headlessTimeout := if HeadlessTimeout req =? 0 then 30 else HeadlessTimeout req in
  {| URL := URL req; JobID := JobID req; Depth := depth; Workers := workers;
     Delay := delay; MaxURLs := maxURLs; EnableSitemap := EnableSitemap req;
     EnableHTML := EnableHTML req; EnableHeadless := EnableHeadless req;
     HeadlessTimeout := headlessTimeout; WaitForJS := WaitForJS req |}.

(** An HTTP reply: [http.Error] with a status code, or the JSON body. *)
Inductive Reply (A : Type) :=
| HTTPError (code : Z) (msg : string)
| HTTPOk (a : A).
Arguments HTTPError {A} code msg.
Arguments HTTPOk {A} a.

(** What an accepted request leaves behind: the response, the job record
    and the request handed to the background crawl. *)
Record Accepted := mkAccepted {
  response : CrawlResponse;
  job : JobStatus;
  request : CrawlRequest
}.

(** Clock and identifier source. *)
Class Runtime (W : Type) := {
  time_Now : W -> Z * W;
  NewObjectID : W -> string * W
}.

Definition withStatus (j : JobStatus) (s : string) : JobStatus :=
  {| jID := jID j; Status := s; Progress := Progress j; Result := Result j;
     jError := jError j; CreatedAt := CreatedAt j; UpdatedAt := UpdatedAt j;
     Request := Request j |}.

Definition withJobError (j : JobStatus) (e : string) : JobStatus :=
  {| jID := jID j; Status := Status j; Progress := Progress j; Result := Result j;
     jError := e; CreatedAt := CreatedAt j; UpdatedAt := UpdatedAt j;
     Request := Request j |}.

Definition withResult (j : JobStatus) (r : CrawlResult) : JobStatus :=
  {| jID := jID j; Status := Status j; Progress := Progress j; Result := Some r;
     jError := jError j; CreatedAt := CreatedAt j; UpdatedAt := UpdatedAt j;
     Request := Request j |}.

Definition withUpdatedAt (j : JobStatus) (t : Z) : JobStatus :=
  {| jID := jID j; Status := Status j; Progress := Progress j; Result := Result j;
     jError := jError j; CreatedAt := CreatedAt j; UpdatedAt := t;
     Request := Request j |}.

Definition withResultID (r : CrawlResult) (id : string) : CrawlResult :=
  {| rID := Some id; TargetURL := TargetURL r; TotalURLs := TotalURLs r;
     Settings := Settings r; URLs := URLs r |}.

Definition invalidJobIDMessage : string :=
  "Invalid job_id format. Use alphanumeric characters, hyphens, and underscores only".

Definition jobExistsMessage : string :=
  "Job ID already exists. Choose a different job_id or omit it for auto-generation".

Section Crawl.
Context {W : Type} `{Utils.Net W} `{Site W} `{Runtime W}.

(** [HandleCrawl] up to the reply: [body] is the decoded JSON ([None] when
    decoding fails); the map returned is [config.ActiveJobs] afterwards. *)
Definition HandleCrawl (body : option CrawlRequest) (ActiveJobs : gmap string JobStatus)
  : M W (Reply Accepted * gmap string JobStatus) :=
  match body with
  | None => mret (HTTPError 400 "Invalid JSON", ActiveJobs)
  | Some req =>
      if String.eqb (URL req) "" then mret (HTTPError 400 "URL is required", ActiveJobs)
      else
        let req := applyDefaults req in
        let accept (jobID : string) : M W (Reply Accepted * gmap string JobStatus) :=
          created ← ask time_Now;
          updated ← ask time_Now;
          let job := {| jID := jobID; Status := "running"; Progress := "Starting crawl...";
                        Result := None; jError := ""; CreatedAt := created;
                        UpdatedAt := updated; Request := Some req |} in
          _ ← emit (StoreInsert job);
          _ ← emit Lock;
          _ ← emit (MemWrite job);
          _ ← emit Unlock;
          mret (HTTPOk {| response := {| respJobID := jobID; respStatus := "accepted";
                                         respMessage := "Crawl job started successfully" |};
                          job := job; request := req |},
                <[jobID := job]> ActiveJobs) in
        if negb (String.eqb (JobID req) "") then
          if negb (isValidJobID (JobID req)) then
            mret (HTTPError 400 invalidJobIDMessage, ActiveJobs)
          else if bool_decide (is_Some (ActiveJobs !! JobID req)) then
            mret (HTTPError 409 jobExistsMessage, ActiveJobs)
          else accept (JobID req)
        else
          jobID ← ask NewObjectID;
          accept jobID
  end.

(** The goroutine [HandleCrawl] starts for an accepted job: the crawl,
    then the update of the job record under [JobsMutex].  [None]: the
    crawl did not return within [fuel]. *)
Definition crawl_goroutine (fuel : nat) (req : CrawlRequest) (jobID : string)
    (job : JobStatus) : M W (option JobStatus) :=
  _ ← publish (event "progress" jobID "");
  r ← CrawlWebsiteWithTiers fuel (URL req) req jobID;
  match r with
  | None => mret None
  | Some outcome =>
      _ ← emit Lock;
      job ← match outcome with
            | Err e =>
                let job := withStatus job "failed" in
                _ ← emit (MemWrite job);
                let job := withJobError job e in
                _ ← emit (MemWrite job);
                mret job
            | Ok result =>
                let job := withStatus job "completed" in
                _ ← emit (MemWrite job);
                id ← ask NewObjectID;
                let result := withResultID result id in
                let job := withResult job result in
                _ ← emit (MemWrite job);
                _ ← publish (event_total "completed" jobID "" (slen (URLs result)));
                mret job
            end;
      now ← ask time_Now;
      let job := withUpdatedAt job now in
      _ ← emit (MemWrite job);
      _ ← emit (StoreUpdate job);
      _ ← emit Unlock;
      mret (Some job)
  end.

End Crawl.

(** [HandleGetContent]: [process] is [services.GlobalPool.ProcessContentURLs]. *)
Definition HandleGetContent (body : option ContentRequest)
    (process : list string -> option (list ContentResponse) * option string)
  : Reply ContentBatchResponse :=
  match body with
  | None => HTTPError 400 "Invalid JSON"
  | Some req =>
      let urls :=
        if 0 <? slen (qURLs req) then Some (qURLs req)
        else if negb (String.eqb (qURL req) "") then Some [qURL req]
        else None in
      match urls with
      | None => HTTPError 400 "Either 'url' or 'urls' is required"
      | Some urls =>
          let '(results, err) := process urls in
          match err with
          | Some e =>
              if String.eqb e "system overloaded"
              then HTTPError 503 "Service temporarily unavailable"
              else HTTPError 500 e
          | None =>
              let results := default [] results in
              let success :=
                slen (filter (fun r => cError r = "") results) in
              let failed :=
                slen (filter (fun r => cError r ≠ "") results) in
              HTTPOk {| Results := results; bTotal := slen urls;
                        bSuccess := success; bFailed := failed |}
          end
      end
  end.

End Handlers.

(* ===================================================================== *)
(** ** Start-up recovery (services/database.go) *)
(* ===================================================================== *)

Module Database.

(** How a [for _, job := range ...] statement allocates [job]: one
    variable for the whole loop (the language up to Go 1.21, the oldest
    toolchain the README supports) or a fresh one per iteration (Go 1.22
    and later). *)
Inductive LoopVar := PerLoop | PerIteration.

(** Pointers are addresses into a heap of job records. *)
Record Memory := mkMemory {
  heap : gmap nat JobStatus;
  ActiveJobs : gmap string nat;
  spawned : list nat          (* [go UpdateJobInMongoDB(&job)], by argument *)
}.

Definition emptyMemory : Memory :=
  {| heap := ∅; ActiveJobs := ∅; spawned := [] |}.

Definition recoveryError : string := "Job interrupted by server restart".

(** The assignments of the loop body to [job]. *)
Definition markFailed (j : JobStatus) (now : Z) : JobStatus :=
  {| jID := jID j; Status := "failed"; Progress := Progress j; Result := Result j;
     jError := recoveryError; CreatedAt := CreatedAt j; UpdatedAt := now;
     Request := Request j |}.

(** The address of the loop variable in iteration [i]. *)
Definition loop_var (sem : LoopVar) (i : nat) : nat :=
  match sem with
  | PerLoop => 0%nat
  | PerIteration => i
  end.

(** The loop of [LoadActiveJobsFromMongoDB] from iteration [i] on;
    [clock k] is [time.Now()] in iteration [k]. *)
Fixpoint recover_loop (sem : LoopVar) (clock : nat -> Z) (i : nat)
    (recoveredJobs : list JobStatus) (m : Memory) : Memory :=
  match recoveredJobs with
  | [] => m
  | v :: rest =>
      let job := loop_var sem i in
      let failed := markFailed v (clock i) in
      recover_loop sem clock (S i) rest
        {| heap := <[job := failed]> (heap m);
           ActiveJobs := <[jID failed := job]> (ActiveJobs m);
           spawned := spawned m ++ [job] |}
  end.

(** The job store: the documents of the [jobs] collection, or [None] when
    [config.JobsCollection] is [nil]. *)
Definition Store := option (list JobStatus).

(** [Find(ctx, bson.M{"status": "running"})] followed by [cursor.All]. *)
Definition find_running (docs : list JobStatus) : list JobStatus :=
  filter (fun j => Status j = "running") docs.

(** [UpdateOne(ctx, {"_id": job.ID}, {"$set": job})]. *)
Definition UpdateOne (docs : list JobStatus) (job : JobStatus) : list JobStatus :=
  map (fun d => if String.eqb (jID d) (jID job) then job else d) docs.

(** [LoadActiveJobsFromMongoDB]: the memory after the loop. [find_ok] is
    false when [Find] or [cursor.All] fails. *)
Definition LoadActiveJobsFromMongoDB (sem : LoopVar) (clock : nat -> Z)
    (store : Store) (find_ok : bool) (m : Memory) : Memory :=
  match store with
  | None => m
  | Some docs =>
      if find_ok then recover_loop sem clock 0 (find_running docs) m else m
  end.

(** The job a poll of [id] reads from the active-jobs map. *)
Definition lookup_job (m : Memory) (id : string) : option JobStatus :=
  a ← ActiveJobs m !! id; heap m !! a.

(** The store once the spawned updates have run, each reading its
    argument after the loop has ended. *)
Definition store_after (m : Memory) (docs : list JobStatus) : list JobStatus :=
  fold_left (fun ds a => match heap m !! a with
                         | Some j => UpdateOne ds j
                         | None => ds
                         end) (spawned m) docs.

End Database.

(* ===================================================================== *)
(** ** API-key middleware (middleware/auth.go) *)
(* ===================================================================== *)

Module Middleware.
Import GoString.

(** What [APIKeyMiddleware] reads of a request: the method, [r.URL.Path]
    and the two headers; [Header.Get] yields the empty string for a header
    that is absent. *)
Record Request := mkRequest {
  Method : string;
  Path : string;
  XAPIKey : string;
  Authorization : string
}.

(** [getAPIKey], as a function of [os.Getenv("API_KEY")] (empty when the
    variable is unset). *)
Definition getAPIKey (env : string) : string :=
  if negb (String.eqb env "") then env else "your-secure-api-key-here".

(** [IsValidAPIKey], with the package variable [API_KEY] as a parameter. *)
Definition IsValidAPIKey (API_KEY apiKey : string) : bool :=
  String.eqb apiKey API_KEY.

(** [strings.TrimPrefix]. *)
Definition TrimPrefix (s prefix : string) : string :=
  if HasPrefix s prefix then slice_from (String.length prefix) s else s.

(** What the middleware does with a request: it answers itself, or hands
    the request to the next handler. *)
Inductive Served (A : Type) :=
| Answered (code : Z) (body : string)
| Next (a : A).
Arguments Answered {A} code body.
Arguments Next {A} a.

Definition quote : string := String (ascii_of_nat 34) EmptyString.

Definition unauthorizedBody : string :=
  "{" +:+ quote +:+ "error" +:+ quote +:+ ":" +:+ quote
  +:+ "Invalid or missing API key. Use X-API-Key header or Authorization: Bearer token"
  +:+ quote +:+ "}".

(** [APIKeyMiddleware]. *)
Definition APIKeyMiddleware {A} (API_KEY : string) (next : Request -> A) (r : Request)
  : Served A :=
  if String.eqb (Method r) "OPTIONS" || String.eqb (Path r) "/"
     || String.eqb (Path r) "/health"
     || HasPrefix (Path r) "/notforhumans/"
     || HasPrefix (Path r) "/ws/"
  then Next (next r)
  else
    let apiKey := XAPIKey r in
    let apiKey :=
      if String.eqb apiKey "" then
        let apiKey := Authorization r in
        if HasPrefix apiKey "Bearer " then TrimPrefix apiKey "Bearer " else apiKey
      else apiKey in
    if negb (IsValidAPIKey API_KEY apiKey) then Answered 401 unauthorizedBody
    else Next (next r).

End Middleware.

(* ===================================================================== *)
(** ** Job polling (handlers/jobs.go) *)
(* ===================================================================== *)

Module Jobs.
Import Handlers.

(** [HandleJobStatus]: the map is [config.ActiveJobs], read under the
    read lock; [GetJobFromMongoDB] is the lookup in the job store. *)
Definition HandleJobStatus (jobID : string) (ActiveJobs : gmap string JobStatus)
    (GetJobFromMongoDB : string -> result JobStatus) : Reply JobStatus :=
  match ActiveJobs !! jobID with
  | Some job => HTTPOk job
  | None =>
      match GetJobFromMongoDB jobID with
      | Err _ => HTTPError 404 "Job not found"
      | Ok job => HTTPOk job
      end
  end.

End Jobs.

(* ===================================================================== *)
(** ** Browser pool (services/browser_pool.go) *)
(* ===================================================================== *)

Module BrowserPool.
Import Crawler.

(** A [*rod.Browser] is a pointer; browsers are told apart by their
    address. [lastUsed] is only written. *)
Record BrowserInstance := mkBrowserInstance {
  browser : nat;
  inUse : bool
}.

Record BrowserPool := mkBrowserPool {
  instances : list BrowserInstance;
  maxSize : Z
}.

(** [NewBrowserPool], for a size that is not negative ([make] panics on a
    negative capacity). *)
Definition NewBrowserPool (maxSize : Z) : BrowserPool :=
  {| instances := []; maxSize := maxSize |}.

(** The first loop of [Get]: the first instance not in use is marked and
    its browser returned. *)
Fixpoint take_idle (l : list BrowserInstance) : option (nat * list BrowserInstance) :=
  match l with
  | [] => None
  | instance :: rest =>
      if negb (inUse instance)
      then Some (browser instance, {| browser := browser instance; inUse := true |} :: rest)
      else match take_idle rest with
           | Some (b, rest') => Some (b, instance :: rest')
           | None => None
           end
  end.

(** [Get]; [created] is what [createBrowser] returns when it is called. *)
Definition Get (created : result nat) (bp : BrowserPool) : result nat * BrowserPool :=
  match take_idle (instances bp) with
  | Some (b, l) => (Ok b, {| instances := l; maxSize := maxSize bp |})
  | None =>
      if slen (instances bp) <? maxSize bp then
        match created with
        | Err e => (Err e, bp)
        | Ok b =>
            (Ok b, {| instances := instances bp ++ [{| browser := b; inUse := true |}];
                      maxSize := maxSize bp |})
        end
      else (Err "browser pool exhausted", bp)
  end.

(** The loop of [Release]: the first instance holding [b] is marked idle. *)
Fixpoint mark_idle (b : nat) (l : list BrowserInstance) : list BrowserInstance :=
  match l with
  | [] => []
  | instance :: rest =>
      if Nat.eqb (browser instance) b
      then {| browser := browser instance; inUse := false |} :: rest
      else instance :: mark_idle b rest
  end.

(** [Release]. *)
Definition Release (b : nat) (bp : BrowserPool) : BrowserPool :=
  {| instances := mark_idle b (instances bp); maxSize := maxSize bp |}.

(** [Shutdown]: every browser is closed and the slice dropped. *)
Definition Shutdown (bp : BrowserPool) : BrowserPool :=
  {| instances := []; maxSize := maxSize bp |}.

(** The pool [InitializeGlobalPool] builds for [maxWorkers] workers. *)
Definition globalBrowserPool (maxWorkers : Z) : BrowserPool :=
  NewBrowserPool (Z.quot maxWorkers 2).

(** The calls made on a pool. *)
Inductive Op :=
| OpGet (created : result nat)
| OpRelease (b : nat)
| OpShutdown.

Definition step (op : Op) (bp : BrowserPool) : BrowserPool :=
  match op with
  | OpGet created => snd (Get created bp)
  | OpRelease b => Release b bp
  | OpShutdown => Shutdown bp
  end.

Definition run (ops : list Op) (bp : BrowserPool) : BrowserPool :=
  fold_left (fun bp op => step op bp) ops bp.

End BrowserPool.

(* ===================================================================== *)
(** ** Aggressive HTTP strategy (services/content_helpers.go) *)
(* ===================================================================== *)

Module Aggressive.
Import GoString Stealth.

Definition userAgents : list string :=
  ["Mozilla/5.0 (Windows NT 10.0; Win64; x64) AppleWebKit/537.36 (KHTML, like Gecko) Chrome/120.0.0.0 Safari/537.36";
   "Mozilla/5.0 (Macintosh; Intel Mac OS X 10_15_7) AppleWebKit/537.36 (KHTML, like Gecko) Chrome/120.0.0.0 Safari/537.36";
   "Mozilla/5.0 (Windows NT 10.0; Win64; x64; rv:109.0) Gecko/20100101 Firefox/121.0";
   "Mozilla/5.0 (Macintosh; Intel Mac OS X 10.15; rv:109.0) Gecko/20100101 Firefox/121.0";
   "Mozilla/5.0 (Windows NT 10.0; Win64; x64) AppleWebKit/537.36 (KHTML, like Gecko) Chrome/120.0.0.0 Safari/537.36 Edg/120.0.0.0"].

(** What varies between the requests of [tryAggressiveHTTP]: the seconds
    slept before it, the user agent, whether the [Sec-Fetch-*] headers are
    set, and the [Referer] (empty: not set). *)
Record Attempt := mkAttempt {
  sleep : Z;
  userAgent : string;
  secFetch : bool;
  referer : string
}.

Definition attempt (i : Z) (ua : string) : Attempt :=
  {| sleep := if i >? 0 then i else 0;
     userAgent := ua;
     secFetch := Contains ua "Chrome";
     referer :=
       let r := if i >? 0 then "https://www.google.com/" else "" in
       if i >? 2 then "https://www.bing.com/" else r |}.

Definition failureMessage : string :=
  "All aggressive HTTP attempts failed (browser not available in this environment)".

Section Attempts.
Context {W : Type}.

(** [strings.ToLower] and [convertToMarkdown]; whether [http.NewRequest]
    accepts the URL; and the round trip of one attempt, [client.Do]. *)
Variable ToLower : string -> string.
Variable convertToMarkdown : string -> result string.
Variable http_NewRequest : string -> bool.
Variable client_Do : Attempt -> string -> W -> result HTTPResponse * W.

(** The loop over the user agents, from index [i] on. *)
Fixpoint attempts (targetURL : string) (response : ContentResponse) (i : Z)
    (uas : list string) (w : W) : ContentResponse * W :=
  match uas with
  | [] => (withError response failureMessage, w)
  | ua :: rest =>
      if negb (http_NewRequest targetURL) then attempts targetURL response (i + 1) rest w
      else
        let '(r, w) := client_Do (attempt i ua) targetURL w in
        match r with
        | Err _ => attempts targetURL response (i + 1) rest w
        | Ok resp =>
            if (hStatusCode resp >=? 200) && (hStatusCode resp <? 300) then
              match body resp with
              | Err _ => attempts targetURL response (i + 1) rest w
              | Ok rawContent =>
                  let contentType := ctype resp in
                  let isHTML := Contains (ToLower contentType) "text/html" in
                  let markdown :=
                    if isHTML then
                      match convertToMarkdown rawContent with
                      | Ok markdown => markdown
                      | Err e => "Error converting to markdown: " +:+ e
                      end
                    else rawContent in
                  (filled (cURL response) (hStatusCode resp) contentType
                     [("Content-Type", contentType);
                      ("X-Scraped-With", "Aggressive-HTTP-UA" +:+ pretty (i + 1))]
                     markdown, w)
              end
            else attempts targetURL response (i + 1) rest w
        end
  end.

(** [tryAggressiveHTTP]. *)
Definition tryAggressiveHTTP (targetURL : string) (w : W) : ContentResponse * W :=
  attempts targetURL (emptyResponse targetURL) 0 userAgents w.

End Attempts.

End Aggressive.

(* ===================================================================== *)
(** ** Concrete sites *)
(* ===================================================================== *)

(** A small executable stand-in for the library functions, on ASCII
    strings and absolute URLs without query or fragment. *)
Module Toy.
Import Utils.

Definition is_space (c : ascii) : bool :=
  let n := nat_of_ascii c in
  (n =? 32)%nat || ((9 <=? n)%nat && (n <=? 13)%nat).

Fixpoint trim_left (s : string) : string :=
  match s with
  | String c tl => if is_space c then trim_left tl else s
  | EmptyString => s
  end.

Definition rev_string (s : string) : string :=
  string_of_list_ascii (rev (list_ascii_of_string s)).

Definition TrimSpace (s : string) : string :=
  rev_string (trim_left (rev_string (trim_left s))).

Definition lower (c : ascii) : ascii :=
  let n := nat_of_ascii c in
  if (65 <=? n)%nat && (n <=? 90)%nat then ascii_of_nat (n + 32) else c.

Definition ToLower (s : string) : string :=
  string_of_list_ascii (map lower (list_ascii_of_string s)).

(** [scheme://host/path]. *)
Definition url_Parse (s : string) : result URL :=
  match String.index 0 "://" s with
  | Some i =>
      let scheme := String.substring 0 i s in
      let rest := String.substring (i + 3) (String.length s - (i + 3)) s in
      let '(host, path) :=
        match String.index 0 "/" rest with
        | Some j => (String.substring 0 j rest,
                     String.substring j (String.length rest - j) rest)
        | None => (rest, "")
        end in
      Ok {| Scheme := scheme; Opaque := ""; User := None; Host := host; Path := path;
            RawPath := ""; ForceQuery := false; RawQuery := ""; Fragment := "";
            RawFragment := "" |}
  | None => Err "missing protocol scheme"
  end.

Definition url_String (u : URL) : string :=
  Scheme u +:+ "://" +:+ Host u +:+ Path u.

(** An encoding of the type and the job of an event. *)
#[local] Instance codec : Bus.Codec := {|
  Bus.json_Marshal := fun e => Ok ("{type:" +:+ Type_ e +:+ ",job_id:" +:+ evJobID e +:+ "}")
|}.

End Toy.

(** A site that refuses plain HTTP with 403 and whose page, once rendered
    in the pooled browser, carries a script and a two-letter paragraph. *)
Module BlockedSite.
Import Utils Stealth.

Definition script : string :=
  "window.dataLayer=window.dataLayer||[];function gtag(){dataLayer.push(arguments);}gtag('js',new Date());gtag('config','G-0000000');".

Definition page : string :=
  "<html><head><script>" +:+ script +:+ "</script></head><body><p>Hi</p></body></html>".

#[local] Instance net : Net unit := {|
  url_Parse := Toy.url_Parse;
  url_String := Toy.url_String;
  http_Do := fun _ w => (Ok (403, "403 Forbidden"), w)
|}.

#[local] Instance fetchers : Fetchers unit := {|
  TrimSpace := Toy.TrimSpace;
  ToLower := Toy.ToLower;
  convertToMarkdown := fun html => if String.eqb html page then Ok "Hi" else Ok html;
  tryJSDOMRendering := fun _ w => (Err "failed to launch browser", w);
  plain_Do := fun _ w =>
    (Ok {| hStatusCode := 403; hStatus := "403 Forbidden"; hHeader := [];
           ctype := "text/html"; body := Ok "" |}, w);
  pool_ready := fun w => (true, w);
  browserPool_Get := fun w => (None, w);
  scrapeWithPooledBrowser := fun _ w => (Ok page, w);
  tryAggressiveHTTP := fun u w =>
    (withError (emptyResponse u)
       "All aggressive HTTP attempts failed (browser not available in this environment)", w)
|}.

Definition run : ContentResponse * unit * list Action :=
  processURL "https://example.com" tt.

End BlockedSite.

(** A reachable site whose [/sitemap.xml] lists one page of another host
    and whose front page links to [/about]; the world is the clock. *)
Module SitemapSite.
Import Utils Crawler Handlers.

Definition seed : string := "https://example.com".

#[local] Instance net : Net Z := {|
  url_Parse := Toy.url_Parse;
  url_String := Toy.url_String;
  http_Do := fun _ w => (Ok (200, "200 OK"), w)
|}.

#[local] Instance site : Site Z := {|
  ToLower := Toy.ToLower;
  ParseRobotsTxt := fun _ _ w => ([], w, []);
  CheckSitemapExists := fun u w => (String.eqb u "https://example.com/sitemap.xml", w);
  ExtractSitemapsFromRobots := fun _ w => ([], w);
  fetch_sitemap := fun _ w =>
    (Ok {| asIndex := Err "expected element type <sitemapindex> but have <urlset>";
           asSet := Ok ["https://elsewhere.org/page"] |}, w);
  colly_run := fun u w =>
    ((None, [OnRequest 0 u; OnResponse;
             OnLink {| link := "/about";
                       absolute := Toy.url_Parse "https://example.com/about";
                       reqDepth := 0; reqURL := u |}]), w)
|}.

#[local] Instance runtime : Runtime Z := {|
  time_Now := fun w => (w, w + 1);
  NewObjectID := fun w => ("65f1a2b3c4d5e6f708192a3b", w)
|}.

(** The body of a POST /crawl for the seed. *)
Definition body (maxURLs : Z) : CrawlRequest :=
  {| Models.URL := seed; JobID := "docs-crawl"; Depth := 0; Workers := 0; Delay := "";
     MaxURLs := maxURLs; EnableSitemap := false; EnableHTML := false;
     EnableHeadless := false; HeadlessTimeout := 0; WaitForJS := false |}.

(** The crawl of the seed with the request as the handler passes it on. *)
Definition crawl (maxURLs : Z) : option (result CrawlResult) * Z * list Action :=
  CrawlWebsiteWithTiers 2 seed (applyDefaults (body maxURLs)) "docs-crawl" 0.

(** The job record the handler creates, and the background goroutine. *)
Definition job : JobStatus :=
  {| jID := "docs-crawl"; Status := "running"; Progress := "Starting crawl...";
     Result := None; jError := ""; CreatedAt := 0; UpdatedAt := 1;
     Request := Some (applyDefaults (body 100)) |}.

Definition background : option JobStatus * Z * list Action :=
  crawl_goroutine 2 (applyDefaults (body 100)) "docs-crawl" job 2.

(** The part of the goroutine up to the return of the crawl. *)
Definition crawl_trace : list Action :=
  Publish (event "progress" "docs-crawl" "")
  :: snd (CrawlWebsiteWithTiers 2 seed (applyDefaults (body 100)) "docs-crawl" 2).

End SitemapSite.

(** A site whose sitemap index names three sitemaps: one with an empty
    [<loc>], one that is gone, and one that repeats a page of the first. *)
Module IndexSite.
Import Utils Crawler.

Definition index : string := "https://example.com/sitemap_index.xml".
Definition posts : string := "https://example.com/sitemap-posts.xml".
Definition gone : string := "https://example.com/sitemap-old.xml".
Definition pages : string := "https://example.com/sitemap-pages.xml".

#[local] Instance net : Net unit := {|
  url_Parse := Toy.url_Parse;
  url_String := Toy.url_String;
  http_Do := fun _ w => (Ok (200, "200 OK"), w)
|}.

#[local] Instance site : Site unit := {|
  ToLower := Toy.ToLower;
  ParseRobotsTxt := fun _ _ w => ([], w, []);
  CheckSitemapExists := fun u w => (String.eqb u index, w);
  ExtractSitemapsFromRobots := fun _ w => ([], w);
  fetch_sitemap := fun u w =>
    if String.eqb u index then
      (Ok {| asIndex := Ok [posts; gone; pages];
             asSet := Err "expected element type <urlset> but have <sitemapindex>" |}, w)
    else if String.eqb u posts then
      (Ok {| asIndex := Err "expected element type <sitemapindex> but have <urlset>";
             asSet := Ok ["https://example.com/a"; ""; "https://example.com/b"] |}, w)
    else if String.eqb u pages then
      (Ok {| asIndex := Err "expected element type <sitemapindex> but have <urlset>";
             asSet := Ok ["https://example.com/c"; "https://example.com/a"] |}, w)
    else (Err "HTTP 404: 404 Not Found", w);
  colly_run := fun u w => ((None, []), w)
|}.

(** The parse of the index. *)
Definition parsed : option (result (list string)) * unit * list Action :=
  ParseSitemap 2 index "job" tt.

End IndexSite.

(** A site that answers the probe but refuses plain HTTP with 403, whose
    page fails to load in the pooled browser and which resets every
    connection of the aggressive strategy. *)
Module StubbornSite.
Import Utils Stealth.

#[local] Instance net : Net unit := {|
  url_Parse := Toy.url_Parse;
  url_String := Toy.url_String;
  http_Do := fun _ w => (Ok (200, "200 OK"), w)
|}.

Definition client_Do (a : Aggressive.Attempt) (u : string) (w : unit)
  : result HTTPResponse * unit :=
  (Err "read: connection reset by peer", w).

#[local] Instance fetchers : Fetchers unit := {|
  TrimSpace := Toy.TrimSpace;
  ToLower := Toy.ToLower;
  convertToMarkdown := fun html => Ok html;
  tryJSDOMRendering := fun _ w => (Err "failed to launch browser", w);
  plain_Do := fun _ w =>
    (Ok {| hStatusCode := 403; hStatus := "403 Forbidden"; hHeader := [];
           ctype := "text/html"; body := Ok "" |}, w);
  pool_ready := fun w => (true, w);
  browserPool_Get := fun w => (None, w);
  scrapeWithPooledBrowser := fun _ w => (Err "navigation failed: net::ERR_CONNECTION_RESET", w);
  tryAggressiveHTTP :=
    Aggressive.tryAggressiveHTTP Toy.ToLower (fun html => Ok html) (fun _ => true) client_Do
|}.

Definition first_tier : ContentResponse * unit * list Action :=
  tryHTMLScraping "https://example.com" tt.

Definition run : ContentResponse * unit * list Action :=
  processURL "https://example.com" tt.

End StubbornSite.

(** Requests and runs on the example site of [SitemapSite]. *)
Module Scenarios.
Import Utils Crawler Handlers.

#[local] Existing Instance SitemapSite.net.
#[local] Existing Instance SitemapSite.site.
#[local] Existing Instance SitemapSite.runtime.

(** A POST /crawl for the seed on an empty registry, and a second one
    with the same job id on the registry the first one left. *)
Definition first_reply : Reply Accepted * gmap string JobStatus * Z * list Action :=
  HandleCrawl (Some (SitemapSite.body 100)) ∅ 0.

Definition registered : gmap string JobStatus := snd (fst (fst first_reply)).

Definition second_reply : Reply Accepted * gmap string JobStatus * Z * list Action :=
  HandleCrawl (Some (SitemapSite.body 5)) registered 2.

(** A POST /crawl without a job id, on a registry that already holds the
    id the generator returns. *)
Definition anonymous : CrawlRequest :=
  {| Models.URL := SitemapSite.seed; JobID := ""; Depth := 0; Workers := 0;
     Delay := ""; MaxURLs := 0; EnableSitemap := false; EnableHTML := false;
     EnableHeadless := false; HeadlessTimeout := 0; WaitForJS := false |}.

Definition taken : gmap string JobStatus :=
  {[ "65f1a2b3c4d5e6f708192a3b" := SitemapSite.job ]}.

Definition anonymous_reply : Reply Accepted * gmap string JobStatus * Z * list Action :=
  HandleCrawl (Some anonymous) taken 0.

(** A POST /crawl whose body is not JSON. *)
Definition undecodable_reply : Reply Accepted * gmap string JobStatus * Z * list Action :=
  HandleCrawl None registered 2.

(** The walk of the seed with a limit of one URL. *)
Definition walk : result CrawlResult * Z * list Action :=
  crawlWebsiteWithEvents SitemapSite.seed 1 10 "200ms" 1 "docs-crawl" 0.

(** A request that enables only the headless tier, and its crawl. *)
Definition headless_only : CrawlRequest :=
  {| Models.URL := SitemapSite.seed; JobID := "docs-crawl"; Depth := 0; Workers := 0;
     Delay := ""; MaxURLs := 0; EnableSitemap := false; EnableHTML := false;
     EnableHeadless := true; HeadlessTimeout := 0; WaitForJS := false |}.

Definition headless_crawl : option (result CrawlResult) * Z * list Action :=
  CrawlWebsiteWithTiers 2 SitemapSite.seed (applyDefaults headless_only) "docs-crawl" 0.

(** The record the goroutine of the example job leaves. *)
Definition final_job : JobStatus :=
  withUpdatedAt
    (withResult (withStatus SitemapSite.job "completed")
       {| rID := Some "65f1a2b3c4d5e6f708192a3b";
          TargetURL := "https://example.com"; TotalURLs := 2;
          Settings := {| sWorkers := 10; sDelay := "200ms"; sDepth := 1 |};
          URLs := ["https://elsewhere.org/page"; "https://example.com/about"] |}) 2.

(** A pool of two browsers, the first handed out. *)
Definition half_used : BrowserPool.BrowserPool :=
  {| BrowserPool.instances :=
       [{| BrowserPool.browser := 1%nat; BrowserPool.inUse := true |};
        {| BrowserPool.browser := 2%nat; BrowserPool.inUse := false |}];
     BrowserPool.maxSize := 2 |}.

End Scenarios.

(* ===================================================================== *)
(** * Properties *)
(* ===================================================================== *)

(** ** Running computations *)

Module Run.

Section Laws.
Context {W : Type}.

Lemma run_ret {A} (a : A) (w : W) : (mret a : M W A) w = (a, w, []).
Proof. reflexivity. Qed.

Lemma value_bind {A B} (m : M W A) (k : A -> M W B) (w : W) :
  value (m ≫= k) w = value (k (value m w)) (world m w).
Proof.
  unfold value, world, mbind, M_bind, bind.
  destruct (m w) as [[a w1] t1]; simpl.
  destruct (k a w1) as [[b w2] t2]; reflexivity.
Qed.

Lemma world_bind {A B} (m : M W A) (k : A -> M W B) (w : W) :
  world (m ≫= k) w = world (k (value m w)) (world m w).
Proof.
  unfold value, world, mbind, M_bind, bind.
  destruct (m w) as [[a w1] t1]; simpl.
  destruct (k a w1) as [[b w2] t2]; reflexivity.
Qed.

Lemma trace_bind {A B} (m : M W A) (k : A -> M W B) (w : W) :
  trace (m ≫= k) w = trace m w ++ trace (k (value m w)) (world m w).
Proof.
  unfold value, world, trace, mbind, M_bind, bind.
  destruct (m w) as [[a w1] t1]; simpl.
  destruct (k a w1) as [[b w2] t2]; reflexivity.
Qed.

Lemma value_ret {A} (a : A) (w : W) : value (mret a : M W A) w = a.
Proof. reflexivity. Qed.

Lemma world_ret {A} (a : A) (w : W) : world (mret a : M W A) w = w.
Proof. reflexivity. Qed.

Lemma trace_ret {A} (a : A) (w : W) : trace (mret a : M W A) w = [].
Proof. reflexivity. Qed.

Lemma trace_emit (a : Action) (w : W) : trace (emit a) w = [a].
Proof. reflexivity. Qed.

Lemma world_emit (a : Action) (w : W) : world (emit a) w = w.
Proof. reflexivity. Qed.

Lemma trace_ask {A} (f : W -> A * W) (w : W) : trace (ask f) w = [].
Proof. unfold trace, ask. destruct (f w); reflexivity. Qed.

Lemma value_ask {A} (f : W -> A * W) (w : W) : value (ask f) w = fst (f w).
Proof. unfold value, ask. destruct (f w); reflexivity. Qed.

Lemma world_ask {A} (f : W -> A * W) (w : W) : world (ask f) w = snd (f w).
Proof. unfold world, ask. destruct (f w); reflexivity. Qed.

Lemma trace_ask_pub {A} (f : W -> A * W * list CrawlEvent) (w : W) :
  trace (ask_pub f) w = map Publish (snd (f w)).
Proof. unfold trace, ask_pub. destruct (f w) as [[a w'] es]; reflexivity. Qed.

Lemma trace_for_each_emit (t : list Action) (w : W) :
  trace (for_each emit t) w = t.
Proof.
  revert w; induction t as [|a t IH]; intros w; [reflexivity|].
  simpl for_each. rewrite trace_bind, trace_emit, world_emit, IH. reflexivity.
Qed.

End Laws.

Create Rewrite HintDb run.

#[global] Hint Rewrite @value_bind @world_bind @trace_bind @value_ret @world_ret
  @trace_ret @trace_emit @world_emit @trace_ask @value_ask @world_ask
  @trace_ask_pub @trace_for_each_emit : run.

End Run.

(** ** Job-id validation *)

Module JobIdFacts.
Import GoString Handlers.

(** The characters the specification admits in a job id. *)
Definition spec_job_id_char (c : ascii) : Prop :=
  97 <= byte_of c <= 122 \/ 65 <= byte_of c <= 90 \/ 48 <= byte_of c <= 57
  \/ c = "-"%char \/ c = "_"%char.

(** The specification of an acceptable job id. *)
Definition spec_valid_job_id (s : string) : Prop :=
  (3 <= String.length s <= 50)%nat /\ Forall spec_job_id_char (list_ascii_of_string s).

Lemma allowed_rune_ascii (r : Z) : allowed_rune r = true -> r < 128.
Proof. unfold allowed_rune. lia. Qed.

Lemma DecodeRune_low (b : Z) (tl : list Z) :
  b < 128 -> DecodeRune (b :: tl) = (b, 1%nat).
Proof. intros Hb. unfold DecodeRune. destruct (Z.ltb_spec b 128); [reflexivity|lia]. Qed.

Lemma DecodeRune_high (b : Z) (tl : list Z) :
  128 <= b -> 128 <= fst (DecodeRune (b :: tl)).
Proof.
  intros Hb. unfold DecodeRune, RuneError, cont, between, second_lo, second_hi.
  destruct (Z.ltb_spec b 128); [lia|].
  repeat match goal with
         | |- context [match ?l with [] => _ | _ :: _ => _ end] => destruct l
         | |- context [if ?c then _ else _] => destruct c eqn:?
         end; simpl; try lia.
  all: repeat match goal with
         | H : (_ && _) = true |- _ => apply andb_prop in H; destruct H
         | H : context [if ?c then _ else _] |- _ => destruct c eqn:?
         end.
  all: Z.div_mod_to_equations; lia.
Qed.

Lemma range_from_cons (b : Z) (tl : list Z) :
  range_from 0 (b :: tl) =
  let '(r, w) := DecodeRune (b :: tl) in r :: range_from (Nat.pred w) tl.
Proof. reflexivity. Qed.

Lemma range_from_allowed (bs : list Z) :
  forallb allowed_rune (range_from 0 bs) = forallb allowed_rune bs.
Proof.
  induction bs as [|b tl IH]; [reflexivity|].
  destruct (Z.lt_ge_cases b 128) as [Hlo|Hhi].
  - rewrite range_from_cons, (DecodeRune_low b tl Hlo). simpl. rewrite IH. reflexivity.
  - pose proof (DecodeRune_high b tl Hhi) as Hr.
    rewrite range_from_cons. destruct (DecodeRune (b :: tl)) as [r w]. simpl in *.
    assert (allowed_rune r = false) as ->
      by (destruct (allowed_rune r) eqn:E; [apply allowed_rune_ascii in E; lia|reflexivity]).
    assert (allowed_rune b = false) as ->
      by (destruct (allowed_rune b) eqn:E; [apply allowed_rune_ascii in E; lia|reflexivity]).
    reflexivity.
Qed.

Lemma byte_of_inj (c d : ascii) : byte_of c = byte_of d -> c = d.
Proof.
  unfold byte_of. intros E. apply Nat2Z.inj in E.
  rewrite <- (ascii_nat_embedding c), <- (ascii_nat_embedding d), E. reflexivity.
Qed.

Lemma allowed_rune_spec (c : ascii) :
  allowed_rune (byte_of c) = true <-> spec_job_id_char c.
Proof.
  unfold allowed_rune, spec_job_id_char. split.
  - intros E.
    destruct (Z.eq_dec (byte_of c) 45) as [e|]; [right; right; right; left; apply byte_of_inj; exact e|].
    destruct (Z.eq_dec (byte_of c) 95) as [e|]; [right; right; right; right; apply byte_of_inj; exact e|].
    lia.
  - intros [?|[?|[?|[->| ->]]]]; try lia; reflexivity.
Qed.

Lemma forallb_bytes_spec (s : string) :
  forallb allowed_rune (bytes s) = true <-> Forall spec_job_id_char (list_ascii_of_string s).
Proof.
  unfold bytes. induction (list_ascii_of_string s) as [|c l IH]; simpl.
  - split; [constructor|reflexivity].
  - rewrite andb_true_iff, IH, allowed_rune_spec. split.
    + intros [? ?]; constructor; assumption.
    + intros E; inversion E; subst; split; assumption.
Qed.

End JobIdFacts.

Module JobIdTheorems.
Import GoString Handlers JobIdFacts Run.

Lemma isValidJobID_spec (s : string) :
  isValidJobID s = true <-> spec_valid_job_id s.
Proof.
  unfold isValidJobID, spec_valid_job_id, runes, len.
  rewrite <- forallb_bytes_spec, range_from_allowed.
  destruct (Z.ltb_spec (Z.of_nat (String.length s)) 3);
    destruct (Z.gtb_spec (Z.of_nat (String.length s)) 50); simpl;
    split; intros E; try discriminate; try (destruct E; lia); try tauto.
  split; [lia|exact E].
Qed.

Lemma applyDefaults_JobID (req : CrawlRequest) : JobID (applyDefaults req) = JobID req.
Proof. reflexivity. Qed.

Lemma applyDefaults_URL (req : CrawlRequest) : URL (applyDefaults req) = URL req.
Proof. reflexivity. Qed.

(** C5. A string supplied as custom [job_id] passes the validation of the
    API exactly when its length is between 3 and 50 and each of its
    characters is an ASCII letter, a digit, a hyphen or an underscore; the
    handler answers 400 with the format message exactly for the other
    non-empty ids, and creates the job under that id exactly for the valid
    ones that are not taken. *)
Theorem job_id_accepted_iff (s : string) :
  (isValidJobID s = true <->
   (3 <= String.length s <= 50)%nat /\ Forall spec_job_id_char (list_ascii_of_string s))
  /\ (forall (W : Type) (N : Utils.Net W) (S : Crawler.Site W) (R : Runtime W)
        (req : CrawlRequest) (jobs : gmap string JobStatus) (w : W),
        URL req <> "" -> JobID req = s -> s <> "" ->
        (fst (value (HandleCrawl (Some req) jobs) w) = HTTPError 400 invalidJobIDMessage
         <-> ~ spec_valid_job_id s)
        /\ (jobs !! s = None ->
            (exists a, fst (value (HandleCrawl (Some req) jobs) w) = HTTPOk a
                       /\ respJobID (response a) = s /\ jID (job a) = s)
            <-> spec_valid_job_id s)).
Proof.
  split; [apply isValidJobID_spec|].
  intros W N S R req jobs w Hurl Hid Hne.
  unfold HandleCrawl.
  rewrite (proj2 (String.eqb_neq _ _) Hurl), applyDefaults_JobID, Hid.
  rewrite (proj2 (String.eqb_neq _ _) Hne). simpl negb.
  rewrite <- isValidJobID_spec.
  destruct (isValidJobID s) eqn:Hv; simpl negb; cbv iota.
  - case_bool_decide as Hin.
    + split.
      * rewrite value_ret. simpl. split; [discriminate|intros F; exfalso; apply F; reflexivity].
      * intros Hfree. rewrite Hfree in Hin. destruct Hin as [? ?]; discriminate.
    + split.
      * autorewrite with run. simpl.
        split; [discriminate|intros F; exfalso; apply F; reflexivity].
      * intros _. autorewrite with run. simpl. split; [reflexivity|].
        intros _. eexists. split; [reflexivity|]. split; reflexivity.
  - rewrite value_ret. simpl. split.
    + split; [intros _; discriminate|reflexivity].
    + intros _. split; [intros [a [E _]]; discriminate|discriminate].
Qed.

End JobIdTheorems.

(** ** Worker pool *)

Module ReducedFacts.
Import Pool.

Section Run.
Variable processURL : string -> ContentResponse.
Variable urls : list string.
Variable limit : Z.

(** The state after the first [k] goroutines ran one after the other. *)
Definition served (k : nat) : Reduced :=
  {| waiting := seq k (length urls - k); holding := [];
     results := map processURL (take k urls)
                ++ replicate (length urls - k) zeroResponse |}.

Lemma served_0 : served 0 = reduced_start urls.
Proof. unfold served, reduced_start. rewrite Nat.sub_0_r. reflexivity. Qed.

Lemma served_all : results (served (length urls)) = map processURL urls.
Proof.
  unfold served. simpl. rewrite Nat.sub_diag, firstn_all. apply app_nil_r.
Qed.

Lemma served_results (k : nat) (url : string) :
  urls !! k = Some url ->
  <[k := processURL url]> (results (served k)) = results (served (S k)).
Proof.
  intros Hk. pose proof (lookup_lt_Some _ _ _ Hk) as Hlt. simpl.
  assert (Hlen : length (map processURL (take k urls)) = k).
  { rewrite length_map, length_take. lia. }
  rewrite insert_app_r_alt by lia. rewrite Hlen, Nat.sub_diag.
  replace (length urls - k)%nat with (S (length urls - S k)) by lia.
  rewrite (take_S_r _ _ _ Hk), map_app, <- app_assoc. reflexivity.
Qed.

Lemma served_waiting (k : nat) :
  (k < length urls)%nat ->
  waiting (served k) = k :: waiting (served (S k)).
Proof.
  intros Hk. simpl.
  replace (length urls - k)%nat with (S (length urls - S k)) by lia. reflexivity.
Qed.

Lemma run_goroutine_served (k : nat) :
  1 <= limit -> (k < length urls)%nat ->
  run_goroutine processURL urls limit (served k) = served (S k).
Proof.
  intros Hl Hk. unfold run_goroutine. rewrite (served_waiting k Hk).
  change (holding (served k)) with (@nil nat). simpl length.
  destruct (Z.ltb_spec (Z.of_nat 0) limit); [|lia].
  destruct (lookup_lt_is_Some_2 urls k Hk) as [url Hu]. rewrite Hu.
  rewrite (served_results k url Hu). reflexivity.
Qed.

Lemma iter_served (k : nat) :
  1 <= limit -> (k <= length urls)%nat ->
  Nat.iter k (run_goroutine processURL urls limit) (reduced_start urls) = served k.
Proof.
  intros Hl. induction k as [|k IH]; intros Hk; simpl.
  - symmetry. apply served_0.
  - rewrite IH by lia. apply run_goroutine_served; [exact Hl|lia].
Qed.

(** With a semaphore of at least one slot the call returns the responses
    in input order. *)
Lemma processWithReducedConcurrency_value :
  1 <= limit ->
  processWithReducedConcurrency processURL urls limit = (map processURL urls, None).
Proof.
  intros Hl. unfold processWithReducedConcurrency.
  rewrite (iter_served (length urls) Hl (Nat.le_refl _)), served_all. reflexivity.
Qed.

(** Running the goroutines one after the other is a run. *)
Lemma served_run (k : nat) :
  1 <= limit -> (k <= length urls)%nat ->
  reduced_run processURL urls limit (served k).
Proof.
  intros Hl. induction k as [|k IH]; intros Hk.
  - rewrite served_0. constructor.
  - assert (Hlt : (k < length urls)%nat) by lia.
    destruct (lookup_lt_is_Some_2 urls k Hlt) as [url Hu].
    eapply run_step.
    + eapply run_step; [apply IH; lia|].
      apply (step_send processURL urls limit (served k) [] (waiting (served (S k))) k).
      * apply (served_waiting k Hlt).
      * simpl. lia.
    + pose proof (step_done processURL urls limit
                    {| waiting := [] ++ waiting (served (S k));
                       holding := k :: holding (served k);
                       results := results (served k) |} [] [] k url eq_refl Hu) as Hs.
      cbn [waiting holding results app] in Hs.
      rewrite (served_results k url Hu) in Hs. exact Hs.
Qed.

Lemma served_done : reduced_done (served (length urls)).
Proof. unfold reduced_done, served. simpl. rewrite Nat.sub_diag. split; reflexivity. Qed.

(** The state after the first [k] goroutines got through their send. *)
Definition sent (k : nat) : Reduced :=
  {| waiting := seq k (length urls - k); holding := rev (seq 0 k);
     results := replicate (length urls) zeroResponse |}.

Lemma sent_run (k : nat) :
  Z.of_nat k <= limit -> (k <= length urls)%nat ->
  reduced_run processURL urls limit (sent k).
Proof.
  induction k as [|k IH]; intros Hl Hk.
  - unfold sent. simpl. rewrite Nat.sub_0_r. constructor.
  - eapply run_step; [apply IH; lia|].
    pose proof (step_send processURL urls limit (sent k) []
                  (seq (S k) (length urls - S k)) k) as Hs.
    cbn [waiting holding results app sent] in Hs.
    replace (sent (S k))
      with {| waiting := seq (S k) (length urls - S k);
              holding := k :: rev (seq 0 k);
              results := replicate (length urls) zeroResponse |}.
    + apply Hs.
      * replace (length urls - k)%nat with (S (length urls - S k)) by lia. reflexivity.
      * rewrite length_rev, length_seq. lia.
    + unfold sent. f_equal. rewrite seq_S, rev_app_distr. reflexivity.
Qed.

Lemma sent_holding (k : nat) : length (holding (sent k)) = k.
Proof. simpl. rewrite length_rev, length_seq. reflexivity. Qed.

(** What holds in every state of every run. *)
Record reduced_ok (s : Reduced) : Prop := {
  ok_distinct : NoDup (waiting s ++ holding s);
  ok_index : forall i, i ∈ waiting s ++ holding s -> (i < length urls)%nat;
  ok_length : length (results s) = length urls;
  ok_stored : forall i, (i < length urls)%nat -> i ∉ waiting s ++ holding s ->
                results s !! i = processURL <$> urls !! i;
  ok_slots : Z.of_nat (length (holding s)) <= Z.max 0 limit
}.

Lemma reduced_start_ok : reduced_ok (reduced_start urls).
Proof.
  split; simpl.
  - rewrite app_nil_r. apply NoDup_seq.
  - intros i. rewrite app_nil_r, elem_of_seq. lia.
  - apply length_replicate.
  - intros i Hi Hn. exfalso. apply Hn. rewrite app_nil_r, elem_of_seq. lia.
  - lia.
Qed.

Lemma reduced_step_ok (s s' : Reduced) :
  reduced_step processURL urls limit s s' -> reduced_ok s -> reduced_ok s'.
Proof.
  intros Hstep [Hd Hi Hl Hs Hb].
  destruct Hstep as [s before after index Hw Hlt|s before after index url Hh Hu].
  - assert (Hp : (before ++ after) ++ index :: holding s
                 ≡ₚ waiting s ++ holding s).
    { rewrite Hw. rewrite <- !app_assoc. apply Permutation_app_head.
      cbn [app]. symmetry. apply Permutation_middle. }
    split; cbn [waiting holding results].
    + rewrite Hp. exact Hd.
    + intros i. rewrite Hp. apply Hi.
    + exact Hl.
    + intros i. rewrite Hp. apply Hs.
    + simpl length. lia.
  - assert (Hp : index :: (waiting s ++ before ++ after) ≡ₚ waiting s ++ holding s).
    { rewrite Hh. rewrite Permutation_middle.
      apply Permutation_app_head. apply Permutation_middle. }
    rewrite <- Hp in Hd. apply NoDup_cons in Hd as [Hfresh Hd].
    assert (Hlt : (index < length urls)%nat) by (apply Hi; rewrite <- Hp; left).
    split; cbn [waiting holding results].
    + exact Hd.
    + intros i Hin. apply Hi. rewrite <- Hp. right. exact Hin.
    + rewrite length_insert. exact Hl.
    + intros i Hlt' Hn. destruct (decide (i = index)) as [->|Hne].
      * rewrite list_lookup_insert_eq by lia. rewrite Hu. reflexivity.
      * rewrite list_lookup_insert_ne by congruence. apply Hs; [exact Hlt'|].
        rewrite <- Hp, elem_of_cons. intros [?|?]; [congruence|contradiction].
    + rewrite Hh, length_app in Hb. simpl in Hb. rewrite length_app. lia.
Qed.

Lemma reduced_run_ok (s : Reduced) :
  reduced_run processURL urls limit s -> reduced_ok s.
Proof.
  induction 1 as [|s s' _ IH Hstep]; [apply reduced_start_ok|].
  eapply reduced_step_ok; eassumption.
Qed.

(** Every run that ends leaves the responses in input order. *)
Lemma reduced_done_results (s : Reduced) :
  reduced_run processURL urls limit s -> reduced_done s ->
  results s = map processURL urls.
Proof.
  intros Hr [Hw Hh]. destruct (reduced_run_ok s Hr) as [_ _ Hl Hs _].
  rewrite Hw, Hh in Hs. apply list_eq. intros i.
  destruct (decide (i < length urls)%nat) as [Hi|Hi].
  - rewrite (Hs i Hi) by apply not_elem_of_nil. symmetry. apply list_lookup_fmap.
  - rewrite !lookup_ge_None_2; [reflexivity|rewrite length_map; lia|lia].
Qed.

(** A run that has not ended can go on. *)
Lemma reduced_progress (s : Reduced) :
  1 <= limit -> reduced_run processURL urls limit s -> ~ reduced_done s ->
  exists s', reduced_step processURL urls limit s s'.
Proof.
  intros Hl Hr Hn. destruct (reduced_run_ok s Hr) as [_ Hi _ _ _].
  destruct (holding s) as [|index after] eqn:Hh.
  - destruct (waiting s) as [|index after] eqn:Hw.
    + exfalso. apply Hn. split; assumption.
    + eexists. apply (step_send processURL urls limit s [] after index Hw).
      rewrite Hh. simpl. lia.
  - assert (Hlt : (index < length urls)%nat).
    { apply Hi. rewrite elem_of_app. right. left. }
    destruct (lookup_lt_is_Some_2 urls index Hlt) as [url Hu].
    eexists. apply (step_done processURL urls limit s [] after index url Hh Hu).
Qed.

End Run.

End ReducedFacts.

Module PoolTheorems.
Import Pool Handlers ReducedFacts.

(** The admission rule as the specification words it: idle workers at
    least [max(ceil(n/10), 2)]. *)
Definition spec_needed (n : Z) : Z := Z.max ((n + 9) / 10) 2.

Definition spec_accepts (wp : WorkerPool) (n : Z) : bool :=
  spec_needed n <=? maxWorkers wp - activeJobs wp.

Lemma CanAcceptWork_iff (wp : WorkerPool) (n : Z) :
  0 <= n ->
  CanAcceptWork wp n = true <-> Z.min (n / 10) 2 <= maxWorkers wp - activeJobs wp.
Proof.
  intros Hn. unfold CanAcceptWork.
  rewrite Z.quot_div_nonneg by lia.
  rewrite orb_true_iff, !Z.geb_le. lia.
Qed.

(** C2, as stated, fails: with five workers of which four are busy, a
    batch of one URL is admitted to normal processing although only one
    worker is idle and [max(ceil(1/10), 2) = 2]. *)
Lemma admission_max_counterexample :
  CanAcceptWork {| maxWorkers := 5; activeJobs := 4 |} 1 = true
  /\ spec_accepts {| maxWorkers := 5; activeJobs := 4 |} 1 = false
  /\ ProcessContentURLs (fun u => zeroResponse) AllCollected
       {| maxWorkers := 5; activeJobs := 4 |} ["https://example.com"]
     = (Some [zeroResponse], None).
Proof. repeat split. Qed.

Lemma overloaded_iff (wp : WorkerPool) (urls : list string)
    (processURL : string -> ContentResponse) (run : NormalRun) :
  snd (ProcessContentURLs processURL run wp urls) = Some "system overloaded"
  <-> CanAcceptWork wp (Z.of_nat (length urls)) = false /\ Z.quot (maxWorkers wp) 4 < 1.
Proof.
  unfold ProcessContentURLs.
  destruct (CanAcceptWork wp (Z.of_nat (length urls))); simpl negb; cbv iota.
  - split; [|intros [? _]; discriminate].
    destruct run; simpl; intros E; discriminate.
  - destruct (Z.ltb_spec (Z.quot (maxWorkers wp) 4) 1) as [Hlt|Hge]; simpl.
    + split; [intros _; split; [reflexivity|lia]|reflexivity].
    + split; [discriminate|intros [_ ?]; lia].
Qed.

(** C2, amended. A batch of [n] URLs is admitted to normal processing
    exactly when the idle workers number at least [floor(n/10)] or at
    least 2, that is at least [min(floor(n/10), 2)]; a rejected batch is
    processed with reduced concurrency [maxWorkers/4] when that is at
    least 1: the call returns the responses in input order, the
    goroutines it starts never process more than [maxWorkers/4] URLs at
    a time, they do process that many at a time when the batch is that
    large, they cannot get stuck, and however they interleave they end
    with the slice the call returns; and the error "system overloaded"
    is returned exactly when the batch is rejected and
    [maxWorkers/4 < 1]. *)
Theorem admission_rule (wp : WorkerPool) (urls : list string)
    (processURL : string -> ContentResponse) (run : NormalRun) :
  let n := Z.of_nat (length urls) in
  let idle := maxWorkers wp - activeJobs wp in
  let limit := Z.quot (maxWorkers wp) 4 in
  (CanAcceptWork wp n = true <-> Z.min (n / 10) 2 <= idle)
  /\ (CanAcceptWork wp n = false -> 1 <= limit ->
      ProcessContentURLs processURL run wp urls
      = (Some (fst (processWithReducedConcurrency processURL urls limit)), None)
      /\ fst (processWithReducedConcurrency processURL urls limit) = map processURL urls
      /\ (forall s, reduced_run processURL urls limit s ->
           Z.of_nat (length (holding s)) <= limit)
      /\ (limit <= n ->
          exists s, reduced_run processURL urls limit s
                    /\ Z.of_nat (length (holding s)) = limit)
      /\ (forall s, reduced_run processURL urls limit s -> ~ reduced_done s ->
           exists s', reduced_step processURL urls limit s s')
      /\ (forall s, reduced_run processURL urls limit s -> reduced_done s ->
           results s = fst (processWithReducedConcurrency processURL urls limit))
      /\ (exists s, reduced_run processURL urls limit s /\ reduced_done s))
  /\ (snd (ProcessContentURLs processURL run wp urls) = Some "system overloaded"
      <-> CanAcceptWork wp n = false /\ Z.quot (maxWorkers wp) 4 < 1).
Proof.
  intros n idle limit. split; [apply CanAcceptWork_iff; lia|].
  split; [|apply overloaded_iff].
  intros Hc Hq.
  pose proof (processWithReducedConcurrency_value processURL urls limit Hq) as Hv.
  split.
  { unfold ProcessContentURLs. fold n. rewrite Hc. simpl negb. cbv iota zeta.
    fold limit. destruct (Z.ltb_spec limit 1); [lia|]. rewrite Hv. reflexivity. }
  rewrite Hv. simpl fst. split; [reflexivity|]. split.
  { intros s Hs. destruct (reduced_run_ok processURL urls limit s Hs) as [_ _ _ _ Hb].
    lia. }
  split.
  { intros Hn. exists (sent urls (Z.to_nat limit)).
    split; [apply sent_run; lia|]. rewrite sent_holding. lia. }
  split; [intros s; apply reduced_progress, Hq|].
  split; [intros s; apply reduced_done_results|].
  exists (served processURL urls (length urls)).
  split; [apply served_run; [exact Hq|lia]|apply served_done].
Qed.

Lemma calculateOptimalWorkers_range (cpuCount memSys : Z) :
  5 <= calculateOptimalWorkers cpuCount memSys <= 50.
Proof.
  unfold calculateOptimalWorkers.
  repeat match goal with
         | |- context [if ?c then _ else _] => destruct c eqn:?
         end; lia.
Qed.

(** C10. The worker count computed at start-up lies in [5, 50], so the
    reduced concurrency [maxWorkers/4] is at least 1, [ProcessContentURLs]
    never returns "system overloaded" and [HandleGetContent] never answers
    503, whatever the batch and however many jobs are active. *)
Theorem overload_unreachable (cpuCount memSys active : Z) (urls : list string)
    (processURL : string -> ContentResponse) (run : NormalRun)
    (body : option ContentRequest) (msg : string) :
  let wp := {| maxWorkers := calculateOptimalWorkers cpuCount memSys;
               activeJobs := active |} in
  5 <= maxWorkers wp <= 50
  /\ 1 <= Z.quot (maxWorkers wp) 4
  /\ snd (ProcessContentURLs processURL run wp urls) <> Some "system overloaded"
  /\ HandleGetContent body (ProcessContentURLs processURL run wp) <> HTTPError 503 msg.
Proof.
  intros wp.
  pose proof (calculateOptimalWorkers_range cpuCount memSys) as Hr.
  assert (Hq : 1 <= Z.quot (maxWorkers wp) 4).
  { simpl. apply Z.quot_le_lower_bound; lia. }
  assert (Hno : forall us, snd (ProcessContentURLs processURL run wp us)
                            <> Some "system overloaded").
  { intros us E. apply overloaded_iff in E. lia. }
  repeat split; try (simpl; lia); [exact Hq|apply Hno|].
  unfold HandleGetContent. destruct body as [req|]; [|discriminate].
  destruct (if 0 <? Crawler.slen (qURLs req) then _ else _) as [us|]; [|discriminate].
  specialize (Hno us).
  destruct (ProcessContentURLs processURL run wp us) as [rs [e|]]; [|discriminate].
  simpl in Hno. destruct (String.eqb_spec e "system overloaded") as [->|]; [congruence|discriminate].
Qed.

End PoolTheorems.

(** ** Reachability prober *)

Module ProberTheorems.
Import GoString Utils Run.

(** The host with its [www.] prefix added or removed. *)
Definition toggle_www (host : string) : string :=
  if HasPrefix host "www." then slice_from 4 host else "www." +:+ host.

Section Facts.
Context {W : Type} `{Net W}.





End Facts.


End ProberTheorems.

(** ** Content extractor *)

Module ExtractorTheorems.
Import GoString Utils Stealth Run.

Section Facts.
Context {W : Type} `{Net W} `{Fetchers W}.

Lemma strategies_app (t1 t2 : list Action) :
  strategies (t1 ++ t2) = strategies t1 ++ strategies t2.
Proof. unfold strategies. apply omap_app. Qed.

Lemma strategies_Check (u : string) (w : W) :
  strategies (trace (CheckURLAccessibility u) w) = [].
Proof.
  unfold CheckURLAccessibility. destruct (url_Parse u); [|reflexivity].
  rewrite trace_bind, trace_emit, world_emit, trace_bind, trace_ask.
  destruct (value (ask (http_Do u)) w) as [[code status]|e]; [|reflexivity].
  repeat match goal with |- context [if ?c then _ else _] => destruct c end; reflexivity.
Qed.

Lemma strategies_try_fallbacks (o : string) (info : URLFallback) (fs : list string) (w : W) :
  strategies (trace (try_fallbacks o info fs) w) = [].
Proof.
  revert w. induction fs as [|f fs IH]; intros w; [reflexivity|].
  simpl. rewrite trace_bind, strategies_app, strategies_Check.
  destruct (value (CheckURLAccessibility f) w); [apply IH|reflexivity].
Qed.

Lemma strategies_FindAccessibleURL (o j : string) (w : W) :
  strategies (trace (FindAccessibleURL o j) w) = [].
Proof.
  unfold FindAccessibleURL. rewrite trace_bind, strategies_app, strategies_Check.
  destruct (value (CheckURLAccessibility o) w);
    [apply strategies_try_fallbacks|reflexivity].
Qed.

(** The first tier fetches rendered, then plain HTTP only after the
    rendering gave nothing. *)
Lemma strategies_tryHTMLScraping (u : string) (w : W) :
  strategies (trace (tryHTMLScraping u) w) ∈ [[]; [Rendered]; [Rendered; PlainHTTP]].
Proof.
  unfold tryHTMLScraping.
  rewrite trace_bind, strategies_app, strategies_FindAccessibleURL.
  destruct (value (FindAccessibleURL u "") w) as [actualURL info].
  destruct (Success info); simpl negb; cbv iota; [|set_solver].
  rewrite trace_bind, trace_emit, world_emit, trace_bind, trace_ask.
  match goal with
  | |- context [match ?x with Some _ => _ | None => _ end] => destruct x
  end.
  - set_solver.
  - rewrite trace_bind, trace_emit, world_emit, trace_bind, trace_ask.
    match goal with
    | |- context [match ?x with Ok _ => _ | Err _ => _ end] => destruct x as [resp|e]
    end; [|set_solver].
    destruct ((hStatusCode resp =? 403) || (hStatusCode resp =? 429)); [set_solver|].
    destruct (body resp); set_solver.
Qed.

(** The second tier fetches with the pooled browser, then with aggressive
    HTTP only after the browser failed. *)
Lemma strategies_tryBrowserScraping (u : string) (w : W) :
  strategies (trace (tryBrowserScraping u) w)
  ∈ [[]; [PooledBrowser]; [PooledBrowser; AggressiveHTTP]].
Proof.
  unfold tryBrowserScraping.
  rewrite trace_bind, trace_ask.
  destruct (value (ask pool_ready) w); simpl negb; cbv iota; [|set_solver].
  rewrite trace_bind, trace_ask.
  match goal with
  | |- context [match ?x with Some _ => _ | None => _ end] => destruct x
  end; [set_solver|].
  rewrite trace_bind, trace_emit, world_emit, trace_bind, trace_ask.
  match goal with
  | |- context [match ?x with Ok _ => _ | Err _ => _ end] => destruct x as [html|e]
  end; [set_solver|].
  rewrite trace_bind, trace_emit, world_emit, trace_bind, trace_ask.
  match goal with
  | |- context [if ?c then _ else _] => destruct c
  end; set_solver.
Qed.

End Facts.

(** C7, amended. [processURL] returns the response of the first tier
    (rendered fetch, else plain HTTP) when its error is empty and its
    trimmed Markdown is longer than 100, without trying the second tier;
    otherwise it returns the response of the second tier (pooled browser,
    else aggressive HTTP) as soon as that response has an empty error,
    whatever the length of its Markdown; when both tiers report an error
    it returns the first-tier response with a note appended to its error:
    the fixed text [(Browser fallback unavailable: headless browser not
    available in this environment)] when the second-tier error contains
    [browser not available], the second-tier error itself being dropped,
    and [(Browser fallback also failed: ...)] around the second-tier
    error otherwise; when only the second tier reports an error it
    returns the second-tier response.  The strategies are fetched in the
    order rendered, plain HTTP, pooled browser, aggressive HTTP. *)
Theorem processURL_selection {W : Type} `{Net W} `{Fetchers W} (targetURL : string) (w : W) :
  let h := value (tryHTMLScraping targetURL) w in
  let w1 := world (tryHTMLScraping targetURL) w in
  let b := value (tryBrowserScraping targetURL) w1 in
  let r := value (processURL targetURL) w in
  (long_enough h = true ->
     r = h /\ trace (processURL targetURL) w = trace (tryHTMLScraping targetURL) w)
  /\ (long_enough h = false -> cError b = "" -> r = b)
  /\ (long_enough h = false -> cError b <> "" -> cError h <> "" ->
      r = withError h
            (cError h +:+
             (if Contains (cError b) "browser not available"
              then " (Browser fallback unavailable: headless browser not available in this environment)"
              else " (Browser fallback also failed: " +:+ cError b +:+ ")")))
  /\ (long_enough h = false -> cError b <> "" -> cError h = "" -> r = b)
  /\ sublist (strategies (trace (processURL targetURL) w))
       [Rendered; PlainHTTP; PooledBrowser; AggressiveHTTP].
Proof.
  intros h w1 b r. subst r. unfold processURL.
  rewrite value_bind, trace_bind. fold h w1.
  destruct (long_enough h) eqn:Hl.
  - rewrite value_ret, trace_ret, app_nil_r.
    repeat split; try discriminate.
    pose proof (strategies_tryHTMLScraping targetURL w) as Hs.
    set (s := strategies _) in *. clearbody s.
    rewrite !elem_of_cons in Hs.
    destruct Hs as [->|[->|[->|Hs]]]; [| | |inversion Hs];
      repeat first [apply sublist_nil | apply sublist_skip | apply sublist_cons].
  - rewrite value_bind, trace_bind. fold b.
    split; [discriminate|].
    assert (Hord : sublist
              (strategies (trace (tryHTMLScraping targetURL) w
                 ++ trace (tryBrowserScraping targetURL) w1))
              [Rendered; PlainHTTP; PooledBrowser; AggressiveHTTP]).
    { rewrite strategies_app.
      pose proof (strategies_tryHTMLScraping targetURL w) as Hs.
      pose proof (strategies_tryBrowserScraping targetURL w1) as Hb.
      set (s := strategies (trace (tryHTMLScraping targetURL) w)) in *. clearbody s.
      set (s' := strategies (trace (tryBrowserScraping targetURL) w1)) in *. clearbody s'.
      rewrite !elem_of_cons in Hs, Hb.
      destruct Hs as [->|[->|[->|Hs]]]; [| | |inversion Hs];
        destruct Hb as [->|[->|[->|Hb]]]; try (inversion Hb); simpl;
        repeat first [apply sublist_nil | apply sublist_skip | apply sublist_cons]. }
    destruct (String.eqb_spec (cError b) "") as [Eb|Eb].
    + rewrite value_ret, trace_ret, app_nil_r.
      repeat split; try congruence; exact Hord.
    + destruct (String.eqb_spec (cError h) "") as [Eh|Eh]; simpl negb; cbv iota.
      * rewrite value_ret, trace_ret, app_nil_r.
        repeat split; try congruence; exact Hord.
      * split; [congruence|]. split.
        { intros _ _ _.
          destruct (Contains (cError b) "browser not available");
            rewrite value_ret; reflexivity. }
        split; [congruence|].
        destruct (Contains (cError b) "browser not available");
          rewrite trace_ret, app_nil_r; exact Hord.
Qed.

End ExtractorTheorems.

Module ExtractorExamples.
Import GoString Stealth.

(** C7, as stated, fails: on a site that blocks plain HTTP, the pooled
    browser's response is returned with an empty error although its
    trimmed Markdown, "Hi", is not longer than 100 characters. *)
Lemma short_markdown_returned :
  cError (fst (fst BlockedSite.run)) = ""
  /\ Markdown (fst (fst BlockedSite.run)) = "Hi"
  /\ len (Toy.TrimSpace (Markdown (fst (fst BlockedSite.run)))) = 2
  /\ strategies (snd BlockedSite.run) = [PooledBrowser].
Proof. vm_compute. repeat split. Qed.

End ExtractorExamples.

(** ** Orchestrator: deduplication and the HTML walker *)

Module CrawlerFacts.
Import GoString Utils Crawler Run.

Lemma removeDuplicateURLs_loop_spec (urls : list string) :
  forall (seen : gmap string bool) (unique : list string),
    (forall u, default false (seen !! u) = true <-> u ∈ unique) ->
    NoDup unique ->
    NoDup (removeDuplicateURLs_loop seen unique urls)
    /\ (forall u, u ∈ removeDuplicateURLs_loop seen unique urls <-> u ∈ unique \/ u ∈ urls).
Proof.
  induction urls as [|url rest IH]; intros seen unique Hseen Hnd; simpl.
  - split; [exact Hnd|]. intros u. rewrite elem_of_nil. tauto.
  - destruct (default false (seen !! url)) eqn:E; simpl negb; cbv iota.
    + apply Hseen in E.
      destruct (IH seen unique Hseen Hnd) as [Hn Hm]. split; [exact Hn|].
      intros u. rewrite Hm, elem_of_cons. split; [tauto|].
      intros [?|[->|?]]; tauto.
    + assert (Hfresh : url ∉ unique).
      { intros Hin. apply Hseen in Hin. congruence. }
      destruct (IH (<[url := true]> seen) (unique ++ [url])) as [Hn Hm].
      * intros u. rewrite elem_of_app, list_elem_of_singleton.
        destruct (decide (u = url)) as [->|Hne].
        -- rewrite lookup_insert_eq. simpl. tauto.
        -- rewrite lookup_insert_ne by congruence. rewrite Hseen. tauto.
      * apply NoDup_app. split; [exact Hnd|]. split; [|apply NoDup_singleton].
        intros u Hu. rewrite list_elem_of_singleton. intros ->. contradiction.
      * split; [exact Hn|]. intros u.
        rewrite Hm, elem_of_app, list_elem_of_singleton, elem_of_cons. tauto.
Qed.

Lemma removeDuplicateURLs_NoDup (urls : list string) : NoDup (removeDuplicateURLs urls).
Proof.
  apply (removeDuplicateURLs_loop_spec urls ∅ []); [|constructor].
  intros u. rewrite lookup_empty, elem_of_nil. simpl. split; [discriminate|tauto].
Qed.

Lemma removeDuplicateURLs_elem (urls : list string) (u : string) :
  u ∈ removeDuplicateURLs urls <-> u ∈ urls.
Proof.
  pose proof (removeDuplicateURLs_loop_spec urls ∅ []) as Hs.
  destruct Hs as [_ Hm]; [|constructor|].
  - intros v. rewrite lookup_empty, elem_of_nil. simpl. split; [discriminate|tauto].
  - unfold removeDuplicateURLs. rewrite Hm, elem_of_nil. tauto.
Qed.

(** The URL the walker records for a link. *)
Definition canonical (linkURL : URL) : string :=
  let cleanURL := Scheme linkURL +:+ "://" +:+ Host linkURL +:+ Path linkURL in
  if negb (String.eqb (RawQuery linkURL) "")
  then cleanURL +:+ "?" +:+ RawQuery linkURL
  else cleanURL.

(** A recorded URL comes from a link whose host is an allowed domain. *)
Definition admitted (allowedDomains : list string) (u : string) : Prop :=
  exists linkURL, u = canonical linkURL /\ Host linkURL ∈ allowedDomains.

(** The invariant of the variables shared by the callbacks. *)
Record walker_ok (allowedDomains : list string) (maxURLs : Z) (st : Walker) : Prop := {
  ok_nodup : NoDup (urlList st);
  ok_found : forall u, default false (foundURLs st !! u) = true <-> u ∈ urlList st;
  ok_limit : slen (urlList st) <= Z.max 0 maxURLs;
  ok_hosts : Forall (admitted allowedDomains) (urlList st)
}.

Lemma initialWalker_ok (allowedDomains : list string) (maxURLs : Z) :
  walker_ok allowedDomains maxURLs initialWalker.
Proof.
  split; simpl.
  - constructor.
  - intros u. rewrite lookup_empty, elem_of_nil. simpl. split; [discriminate|tauto].
  - unfold slen. simpl. lia.
  - constructor.
Qed.

Lemma existsb_eqb_elem (h : string) (l : list string) :
  existsb (String.eqb h) l = true -> h ∈ l.
Proof.
  induction l as [|x l IH]; simpl; [discriminate|].
  rewrite orb_true_iff. intros [E|E].
  - apply String.eqb_eq in E. subst. left.
  - right. apply IH, E.
Qed.

Section Walk.
Context {W : Type} `{Net W} `{Site W}.

Lemma onLink_ok (allowedDomains : list string) (depth maxURLs : Z) (jobID : string)
    (l : LinkSeen) (st : Walker) :
  walker_ok allowedDomains maxURLs st ->
  walker_ok allowedDomains maxURLs (fst (onLink allowedDomains depth maxURLs jobID l st)).
Proof.
  intros Hok. unfold onLink.
  destruct (String.eqb (link l) "" || shouldSkipURL (link l)); [exact Hok|].
  destruct (absolute l) as [linkURL|e]; [|exact Hok].
  destruct (existsb (String.eqb (Host linkURL)) allowedDomains) eqn:Hallow; [|exact Hok].
  fold (canonical linkURL).
  destruct (negb (default false (foundURLs st !! canonical linkURL))
            && (slen (urlList st) <? maxURLs) && negb (stopped st)) eqn:Hc; [|exact Hok].
  apply andb_prop in Hc as [Hc _]. apply andb_prop in Hc as [Hnew Hlt].
  apply negb_true_iff in Hnew. apply Z.ltb_lt in Hlt.
  destruct Hok as [Hnd Hfound Hlim Hhosts].
  assert (Hfresh : canonical linkURL ∉ urlList st).
  { intros Hin. apply Hfound in Hin. congruence. }
  split; simpl.
  - apply NoDup_app. split; [exact Hnd|]. split; [|apply NoDup_singleton].
    intros u Hu. rewrite list_elem_of_singleton. intros ->. contradiction.
  - intros u. rewrite elem_of_app, list_elem_of_singleton.
    destruct (decide (u = canonical linkURL)) as [->|Hne].
    + rewrite lookup_insert_eq. simpl. tauto.
    + rewrite lookup_insert_ne by congruence. rewrite Hfound. tauto.
  - unfold slen in *. rewrite length_app. simpl. lia.
  - apply Forall_app. split; [exact Hhosts|]. constructor; [|constructor].
    exists linkURL. split; [reflexivity|]. apply existsb_eqb_elem, Hallow.
Qed.

Lemma onCallback_ok (allowedDomains : list string) (depth maxURLs : Z) (jobID : string)
    (cb : Callback) (st : Walker) :
  walker_ok allowedDomains maxURLs st ->
  walker_ok allowedDomains maxURLs (fst (onCallback allowedDomains depth maxURLs jobID cb st)).
Proof.
  intros Hok. destruct cb; simpl; try exact Hok.
  - destruct (stopped st); simpl; [exact Hok|]. destruct Hok. split; assumption.
  - apply onLink_ok, Hok.
Qed.

Lemma run_callbacks_ok (allowedDomains : list string) (depth maxURLs : Z) (jobID : string)
    (cbs : list Callback) (st : Walker) :
  walker_ok allowedDomains maxURLs st ->
  walker_ok allowedDomains maxURLs
    (fst (run_callbacks allowedDomains depth maxURLs jobID cbs st)).
Proof.
  revert st. induction cbs as [|cb cbs IH]; intros st Hok; simpl; [exact Hok|].
  pose proof (onCallback_ok allowedDomains depth maxURLs jobID cb st Hok) as H1.
  destruct (onCallback allowedDomains depth maxURLs jobID cb st) as [st1 t1].
  specialize (IH st1 H1).
  destruct (run_callbacks allowedDomains depth maxURLs jobID cbs st1) as [st2 t2].
  exact IH.
Qed.

End Walk.

(** A recorded URL is the rebuilt form of a link the collector reported
    in [cbs], whose parsed host is an allowed domain. *)
Definition recorded_from (allowedDomains : list string) (cbs : list Callback)
    (u : string) : Prop :=
  exists l linkURL,
    OnLink l ∈ cbs /\ absolute l = Ok linkURL
    /\ u = canonical linkURL /\ Host linkURL ∈ allowedDomains.

Section Links.
Context {W : Type} `{Net W} `{Site W}.

Lemma onLink_from (allowedDomains : list string) (depth maxURLs : Z) (jobID : string)
    (cbs : list Callback) (l : LinkSeen) (st : Walker) :
  OnLink l ∈ cbs ->
  Forall (recorded_from allowedDomains cbs) (urlList st) ->
  Forall (recorded_from allowedDomains cbs)
    (urlList (fst (onLink allowedDomains depth maxURLs jobID l st))).
Proof.
  intros Hin Hst. unfold onLink.
  destruct (String.eqb (link l) "" || shouldSkipURL (link l)); [exact Hst|].
  destruct (absolute l) as [linkURL|e] eqn:Ea; [|exact Hst].
  destruct (existsb (String.eqb (Host linkURL)) allowedDomains) eqn:Hallow; [|exact Hst].
  fold (canonical linkURL).
  destruct (negb (default false (foundURLs st !! canonical linkURL))
            && (slen (urlList st) <? maxURLs) && negb (stopped st)); [|exact Hst].
  simpl. apply Forall_app. split; [exact Hst|]. constructor; [|constructor].
  exists l, linkURL. split; [exact Hin|]. split; [exact Ea|].
  split; [reflexivity|]. apply existsb_eqb_elem, Hallow.
Qed.

Lemma run_callbacks_from (allowedDomains : list string) (depth maxURLs : Z)
    (jobID : string) (cbs : list Callback) :
  forall (rest : list Callback) (st : Walker),
    rest ⊆ cbs ->
    Forall (recorded_from allowedDomains cbs) (urlList st) ->
    Forall (recorded_from allowedDomains cbs)
      (urlList (fst (run_callbacks allowedDomains depth maxURLs jobID rest st))).
Proof.
  induction rest as [|cb rest IH]; intros st Hsub Hst; simpl; [exact Hst|].
  assert (H1 : Forall (recorded_from allowedDomains cbs)
                 (urlList (fst (onCallback allowedDomains depth maxURLs jobID cb st)))).
  { destruct cb; simpl; try exact Hst.
    - destruct (stopped st); exact Hst.
    - apply onLink_from; [apply Hsub; left|exact Hst]. }
  destruct (onCallback allowedDomains depth maxURLs jobID cb st) as [st1 t1].
  assert (Hrest : rest ⊆ cbs).
  { intros x Hx. apply Hsub. right. exact Hx. }
  specialize (IH st1 Hrest H1).
  destruct (run_callbacks allowedDomains depth maxURLs jobID rest st1) as [st2 t2].
  exact IH.
Qed.

End Links.

End CrawlerFacts.

(** ** Orchestrator: what the stages emit and return *)

Module OrchestratorFacts.
Import GoString Utils Crawler CrawlerFacts Run.

(** Every action of a computation satisfies [P], from any world. *)
Definition emits {W A} (P : Action -> Prop) (m : M W A) : Prop :=
  forall w, Forall P (trace m w).

(** The actions of the crawl up to the end of tier 1. *)
Definition stage1_action (a : Action) : Prop :=
  match a with
  | Probe _ | Publish _ => True
  | Call fn => fn = "CrawlWithSitemapsAndFallback"
  | _ => False
  end.

(** The actions of a crawl: none touches the job registry. *)
Definition crawl_action (a : Action) : Prop :=
  match a with
  | Probe _ | Publish _ | PublishAsync _ | Call _ => True
  | _ => False
  end.

Lemma stage1_crawl_action (a : Action) : stage1_action a -> crawl_action a.
Proof. destruct a; simpl; tauto. Qed.

Section Emits.
Context {W : Type}.

Lemma emits_ret {A} (P : Action -> Prop) (a : A) : emits P (mret a : M W A).
Proof. intros w. constructor. Qed.

Lemma emits_bind {A B} (P : Action -> Prop) (m : M W A) (k : A -> M W B) :
  emits P m -> (forall a, emits P (k a)) -> emits P (m ≫= k).
Proof.
  intros Hm Hk w. rewrite trace_bind. apply Forall_app. split; [apply Hm|apply Hk].
Qed.

Lemma emits_emit (P : Action -> Prop) (a : Action) : P a -> emits P (emit a : M W unit).
Proof. intros Ha w. rewrite trace_emit. constructor; [exact Ha|constructor]. Qed.

Lemma emits_ask {A} (P : Action -> Prop) (f : W -> A * W) : emits P (ask f).
Proof. intros w. rewrite trace_ask. constructor. Qed.

Lemma emits_ask_pub {A} (P : Action -> Prop) (f : W -> A * W * list CrawlEvent) :
  (forall e, P (Publish e)) -> emits P (ask_pub f).
Proof.
  intros HP w. rewrite trace_ask_pub. apply List.Forall_map.
  induction (snd (f w)); constructor; [apply HP|assumption].
Qed.

Lemma emits_for_each {A} (P : Action -> Prop) (f : A -> M W unit) (xs : list A) :
  (forall x, emits P (f x)) -> emits P (for_each f xs).
Proof.
  intros Hf. induction xs as [|x xs IH]; simpl; [apply emits_ret|].
  apply emits_bind; [apply Hf|intros _; exact IH].
Qed.

Lemma emits_map_each {A B} (P : Action -> Prop) (f : A -> M W B) (xs : list A) :
  (forall x, emits P (f x)) -> emits P (map_each f xs).
Proof.
  intros Hf. induction xs as [|x xs IH]; simpl; [apply emits_ret|].
  apply emits_bind; [apply Hf|intros b].
  apply emits_bind; [exact IH|intros bs; apply emits_ret].
Qed.

Lemma emits_impl {A} (P Q : Action -> Prop) (m : M W A) :
  (forall a, P a -> Q a) -> emits P m -> emits Q m.
Proof. intros HPQ Hm w. eapply Forall_impl; [apply Hm|exact HPQ]. Qed.

End Emits.

Section Stages.
Context {W : Type} `{Net W} `{Site W}.

Variable P : Action -> Prop.
Hypothesis P_probe : forall u, P (Probe u).
Hypothesis P_publish : forall e, P (Publish e).

Lemma CheckURLAccessibility_emits (u : string) : emits P (CheckURLAccessibility u).
Proof.
  unfold CheckURLAccessibility. destruct (url_Parse u); [|apply emits_ret].
  apply emits_bind; [apply emits_emit, P_probe|intros _].
  apply emits_bind; [apply emits_ask|intros [[code status]|e]]; [|apply emits_ret].
  repeat match goal with |- context [if ?c then _ else _] => destruct c end;
    apply emits_ret.
Qed.

Lemma try_fallbacks_emits (o : string) (info : URLFallback) (fs : list string) :
  emits P (try_fallbacks o info fs).
Proof.
  induction fs as [|f fs IH]; simpl; [apply emits_ret|].
  apply emits_bind; [apply CheckURLAccessibility_emits|intros [e|]];
    [exact IH|apply emits_ret].
Qed.

Lemma FindAccessibleURL_emits (o j : string) : emits P (FindAccessibleURL o j).
Proof.
  unfold FindAccessibleURL.
  apply emits_bind; [apply CheckURLAccessibility_emits|intros [e|]];
    [apply try_fallbacks_emits|apply emits_ret].
Qed.

Lemma publish_emits (e : CrawlEvent) : emits P (publish e : M W unit).
Proof. apply emits_emit, P_publish. Qed.

Lemma resolve_target_emits (t j a : string) (info : URLFallback) :
  emits P (resolve_target t j a info).
Proof.
  unfold resolve_target. destruct (negb (Success info)); [|apply emits_ret].
  apply emits_bind; [apply publish_emits|intros _].
  apply emits_bind; [apply emits_ask_pub, P_publish|intros rs].
  destruct (0 <? slen rs);
    (apply emits_bind; [apply publish_emits|intros _; apply emits_ret]).
Qed.

Lemma DiscoverSitemapsWithFallback_emits (b j : string) (rs : list string) :
  emits P (DiscoverSitemapsWithFallback b j rs).
Proof.
  unfold DiscoverSitemapsWithFallback. destruct (url_Parse b) as [parsed|e]; [|apply emits_ret].
  assert (Hcheck : forall j' c, emits P
            (ok ← ask (CheckSitemapExists c);
             if (ok : bool)
             then _ ← publish (event_url "sitemap_discovered" j' "sitemap" c); mret [c]
             else mret [])).
  { intros j' c. apply emits_bind; [apply emits_ask|intros [|]]; [|apply emits_ret].
    apply emits_bind; [apply publish_emits|intros _; apply emits_ret]. }
  destruct (0 <? slen rs).
  - apply emits_bind; [apply publish_emits|intros _].
    apply emits_bind; [|intros _; apply emits_ret].
    apply emits_for_each. intros x. apply publish_emits.
  - apply emits_bind; [apply publish_emits|intros _].
    apply emits_bind; [apply emits_map_each; intros c; apply Hcheck|intros found].
    apply emits_bind; [apply emits_ask|intros robots].
    apply emits_bind; [apply emits_map_each; intros c; apply Hcheck|intros found'].
    apply emits_ret.
Qed.

Lemma ParseSitemap_emits (fuel : nat) (u j : string) : emits P (ParseSitemap fuel u j).
Proof.
  revert u. induction fuel as [|fuel IH]; intros u; simpl; [apply emits_ret|].
  apply emits_bind; [apply publish_emits|intros _].
  apply emits_bind; [apply emits_ask|intros [body|e]]; [|apply emits_ret].
  match goal with
  | |- context [match ?x with Some _ => _ | None => _ end] => destruct x as [refs|]
  end.
  - apply emits_bind; [apply publish_emits|intros _].
    generalize (@nil string) as urls.
    induction refs as [|ref rest IHr]; intros urls; [apply emits_ret|].
    apply emits_bind; [apply IH|intros [[subURLs|e]|]];
      [apply IHr|apply IHr|apply emits_ret].
  - destruct (asSet body) as [locs|e]; [|apply emits_ret].
    apply emits_bind; [apply publish_emits|intros _; apply emits_ret].
Qed.

Lemma parse_each_emits (fuel : nat) (j : string) (us all : list string) :
  emits P (parse_each fuel j us all).
Proof.
  revert all. induction us as [|u us IH]; intros all; simpl; [apply emits_ret|].
  apply emits_bind; [apply ParseSitemap_emits|intros [[urls|e]|]];
    [apply IH| |apply emits_ret].
  apply emits_bind; [apply publish_emits|intros _; apply IH].
Qed.

Lemma CrawlWithSitemapsAndFallback_emits (fuel : nat) (t j : string) (rs : list string) :
  emits P (CrawlWithSitemapsAndFallback fuel t j rs).
Proof.
  unfold CrawlWithSitemapsAndFallback.
  apply emits_bind; [apply DiscoverSitemapsWithFallback_emits|intros us].
  destruct (slen us =? 0).
  - apply emits_bind; [apply publish_emits|intros _; apply emits_ret].
  - apply emits_bind; [apply parse_each_emits|intros [all|]]; [|apply emits_ret].
    apply emits_bind; [apply publish_emits|intros _; apply emits_ret].
Qed.

Hypothesis P_sitemaps : P (Call "CrawlWithSitemapsAndFallback").

Lemma sitemap_tier_emits (fuel : nat) (t j a : string) (info : URLFallback) :
  emits P (sitemap_tier fuel t j a info).
Proof.
  unfold sitemap_tier.
  apply emits_bind; [apply publish_emits|intros _].
  apply emits_bind;
    [destruct (negb (Success info)); [apply emits_ask_pub, P_publish|apply emits_ret]
    |intros rs].
  apply emits_bind; [apply emits_emit, P_sitemaps|intros _].
  apply emits_bind; [apply CrawlWithSitemapsAndFallback_emits|intros [[urls|e]|]];
    [apply emits_ret| |apply emits_ret].
  apply emits_bind; [apply publish_emits|intros _; apply emits_ret].
Qed.

Lemma first_stage_emits (fuel : nat) (t : string) (cfg : CrawlRequest) (j : string) :
  emits P (first_stage fuel t cfg j).
Proof.
  unfold first_stage.
  apply emits_bind; [apply FindAccessibleURL_emits|intros [a info]].
  apply emits_bind; [apply resolve_target_emits|intros [a'|]]; [|apply emits_ret].
  apply emits_bind;
    [destruct (negb _); [apply publish_emits|apply emits_ret]|intros _].
  apply emits_bind; [apply publish_emits|intros _].
  apply emits_bind;
    [destruct (enableSitemap cfg); [apply sitemap_tier_emits|apply emits_ret]
    |intros [all|]; apply emits_ret].
Qed.

Hypothesis P_async : forall e, P (PublishAsync e).
Hypothesis P_html : P (Call "CrawlWithHTML").

Lemma onCallback_async (ds : list string) (depth maxURLs : Z) (j : string)
    (cb : Callback) (st : Walker) :
  Forall P (snd (onCallback ds depth maxURLs j cb st)).
Proof.
  destruct cb; simpl.
  - destruct (stopped st); simpl; repeat constructor; apply P_async.
  - repeat constructor; apply P_async.
  - destruct (depth0 =? 0); repeat constructor; apply P_async.
  - repeat constructor; apply P_async.
  - unfold onLink.
    repeat match goal with
           | |- context [match ?x with Ok _ => _ | Err _ => _ end] => destruct x
           | |- context [if ?c then _ else _] => destruct c
           end; simpl; repeat constructor; apply P_async.
Qed.

Lemma run_callbacks_async (ds : list string) (depth maxURLs : Z) (j : string)
    (cbs : list Callback) (st : Walker) :
  Forall P (snd (run_callbacks ds depth maxURLs j cbs st)).
Proof.
  revert st. induction cbs as [|cb cbs IH]; intros st; simpl; [constructor|].
  pose proof (onCallback_async ds depth maxURLs j cb st) as H1.
  destruct (onCallback ds depth maxURLs j cb st) as [st1 t1].
  specialize (IH st1).
  destruct (run_callbacks ds depth maxURLs j cbs st1) as [st2 t2].
  simpl in *. apply Forall_app. split; assumption.
Qed.

Lemma crawlWebsiteWithEvents_emits (t : string) (depth workers : Z) (delay : string)
    (maxURLs : Z) (j : string) :
  emits P (crawlWebsiteWithEvents t depth workers delay maxURLs j).
Proof.
  unfold crawlWebsiteWithEvents.
  apply emits_bind; [apply FindAccessibleURL_emits|intros [a info]].
  destruct (negb (Success info)); [apply emits_ret|].
  destruct (url_Parse a) as [parsed|e]; [|apply emits_ret].
  apply emits_bind; [apply emits_ask|intros [[e|] cbs]]; [apply emits_ret|].
  pose proof (run_callbacks_async (allowedDomainsOf (Host parsed)) depth maxURLs j cbs
                initialWalker) as Ha.
  destruct (run_callbacks _ depth maxURLs j cbs initialWalker) as [st tr]. simpl in Ha.
  apply emits_bind; [|intros _; apply emits_ret].
  intros w. rewrite trace_for_each_emit. exact Ha.
Qed.

Lemma html_tier_emits (a j : string) (cfg : CrawlRequest) (all : list string) :
  emits P (html_tier a j cfg all).
Proof.
  unfold html_tier, CrawlWithHTML.
  apply emits_bind; [apply publish_emits|intros _].
  apply emits_bind; [apply emits_emit, P_html|intros _].
  apply emits_bind.
  - apply emits_bind; [apply crawlWebsiteWithEvents_emits|intros [r|e]; apply emits_ret].
  - intros [html|e];
      (apply emits_bind; [apply publish_emits|intros _; apply emits_ret]).
Qed.

Lemma apply_limit_emits (cfg : CrawlRequest) (j : string) (all : list string) :
  emits P (apply_limit cfg j all : M W (list string)).
Proof.
  unfold apply_limit. destruct (_ && _); [|apply emits_ret].
  apply emits_bind; [apply publish_emits|intros _; apply emits_ret].
Qed.

Lemma second_stage_emits (a : string) (cfg : CrawlRequest) (j : string) (all : list string) :
  emits P (second_stage a cfg j all).
Proof.
  unfold second_stage.
  apply emits_bind;
    [destruct (_ && _); [apply html_tier_emits|apply emits_ret]|intros all1].
  apply emits_bind; [apply apply_limit_emits|intros all2].
  apply emits_bind; [apply publish_emits|intros _; apply emits_ret].
Qed.

Lemma CrawlWebsiteWithTiers_emits (fuel : nat) (t : string) (cfg : CrawlRequest) (j : string) :
  emits P (CrawlWebsiteWithTiers fuel t cfg j).
Proof.
  unfold CrawlWebsiteWithTiers.
  apply emits_bind; [apply first_stage_emits; assumption|intros [e| |a all]];
    try apply emits_ret.
  apply emits_bind; [apply second_stage_emits|intros r; apply emits_ret].
Qed.

End Stages.

Section Values.
Context {W : Type} `{Net W} `{Site W}.

Lemma CrawlWithSitemapsAndFallback_NoDup (fuel : nat) (t j : string) (rs l : list string)
    (w : W) :
  value (CrawlWithSitemapsAndFallback fuel t j rs) w = Some (Ok l) -> NoDup l.
Proof.
  unfold CrawlWithSitemapsAndFallback. rewrite value_bind.
  destruct (slen _ =? 0).
  - rewrite value_bind, value_ret. intros [= <-]. constructor.
  - rewrite value_bind.
    destruct (value (parse_each _ _ _ _) _) as [all|]; [|discriminate].
    rewrite value_bind, value_ret. intros [= <-]. apply removeDuplicateURLs_NoDup.
Qed.

Lemma sitemap_tier_NoDup (fuel : nat) (t j a : string) (info : URLFallback)
    (l : list string) (w : W) :
  value (sitemap_tier fuel t j a info) w = Some l -> NoDup l.
Proof.
  unfold sitemap_tier. rewrite !value_bind.
  match goal with
  | |- context [value (CrawlWithSitemapsAndFallback ?f ?t ?j ?r) ?w'] =>
      pose proof (CrawlWithSitemapsAndFallback_NoDup f t j r) as Hn;
      destruct (value (CrawlWithSitemapsAndFallback f t j r) w') as [[urls|e]|] eqn:E
  end.
  - rewrite value_ret. intros [= <-]. simpl. eapply Hn, E.
  - rewrite value_bind, value_ret. intros [= <-]. constructor.
  - discriminate.
Qed.

Lemma first_stage_NoDup (fuel : nat) (t : string) (cfg : CrawlRequest) (j a : string)
    (all : list string) (w : W) :
  value (first_stage fuel t cfg j) w = Tier1 a all -> NoDup all.
Proof.
  unfold first_stage. rewrite value_bind.
  destruct (value (FindAccessibleURL t j) w) as [a0 info].
  rewrite value_bind.
  destruct (value (resolve_target _ _ _ _) _) as [a1|]; [|discriminate].
  rewrite !value_bind.
  destruct (enableSitemap cfg).
  - match goal with
    | |- context [value (sitemap_tier ?f ?t ?j ?a ?i) ?w'] =>
        pose proof (sitemap_tier_NoDup f t j a i) as Hn;
        destruct (value (sitemap_tier f t j a i) w') as [l|] eqn:E
    end; [|discriminate].
    rewrite value_ret. intros [= _ <-]. eapply Hn, E.
  - rewrite !value_ret. intros [= _ <-]. constructor.
Qed.

(** What the walker returns: the URLs recorded under the invariant, for
    the hosts allowed around the host of the URL it started from. *)
Lemma crawlWebsiteWithEvents_Ok (t : string) (depth workers : Z) (delay : string)
    (maxURLs : Z) (j : string) (res : CrawlResult) (w : W) :
  value (crawlWebsiteWithEvents t depth workers delay maxURLs j) w = Ok res ->
  exists parsed st,
    url_Parse (TargetURL res) = Ok parsed
    /\ walker_ok (allowedDomainsOf (Host parsed)) maxURLs st
    /\ URLs res = urlList st.
Proof.
  unfold crawlWebsiteWithEvents. rewrite value_bind.
  destruct (value (FindAccessibleURL t j) w) as [a info].
  destruct (negb (Success info)); [rewrite value_ret; discriminate|].
  destruct (url_Parse a) as [parsed|e] eqn:Ep; [|rewrite value_ret; discriminate].
  rewrite value_bind.
  destruct (value (ask (colly_run a)) _) as [[e|] cbs]; [rewrite value_ret; discriminate|].
  pose proof (run_callbacks_ok (allowedDomainsOf (Host parsed)) depth maxURLs j cbs
                initialWalker (initialWalker_ok _ _)) as Hok.
  destruct (run_callbacks _ depth maxURLs j cbs initialWalker) as [st tr]. simpl in Hok.
  rewrite value_bind, value_ret. intros [= <-]. simpl.
  exists parsed, st. auto.
Qed.

(** The callbacks the collector fired in a walk: those [colly_run]
    reports for the reachable URL, in the world the prober left. *)
Definition callbacks_of (targetURL jobID : string) (w : W) : list Callback :=
  snd (value (ask (colly_run (fst (value (FindAccessibleURL targetURL jobID) w))))
         (world (FindAccessibleURL targetURL jobID) w)).

(** Every URL of a walk was rebuilt from a link of that walk. *)
Lemma crawlWebsiteWithEvents_links (t : string) (depth workers : Z) (delay : string)
    (maxURLs : Z) (j : string) (res : CrawlResult) (w : W) :
  value (crawlWebsiteWithEvents t depth workers delay maxURLs j) w = Ok res ->
  exists parsed,
    url_Parse (TargetURL res) = Ok parsed
    /\ TargetURL res = fst (value (FindAccessibleURL t j) w)
    /\ Forall (recorded_from (allowedDomainsOf (Host parsed)) (callbacks_of t j w))
         (URLs res).
Proof.
  unfold callbacks_of, crawlWebsiteWithEvents. rewrite value_bind.
  destruct (value (FindAccessibleURL t j) w) as [a info]. simpl fst.
  destruct (negb (Success info)); [rewrite value_ret; discriminate|].
  destruct (url_Parse a) as [parsed|e] eqn:Ep; [|rewrite value_ret; discriminate].
  rewrite value_bind.
  destruct (value (ask (colly_run a)) _) as [[e|] cbs]; [rewrite value_ret; discriminate|].
  simpl snd.
  pose proof (run_callbacks_from (allowedDomainsOf (Host parsed)) depth maxURLs j cbs
                cbs initialWalker (fun x Hx => Hx)) as Hfrom.
  destruct (run_callbacks _ depth maxURLs j cbs initialWalker) as [st tr]. simpl in Hfrom.
  rewrite value_bind, value_ret. intros [= <-]. simpl.
  exists parsed. split; [exact Ep|]. split; [reflexivity|]. apply Hfrom. constructor.
Qed.

Lemma html_tier_value (a j : string) (cfg : CrawlRequest) (all : list string) (w : W) :
  value (html_tier a j cfg all) w = all
  \/ exists res,
       value (crawlWebsiteWithEvents a (Depth cfg) (Workers cfg) (Delay cfg)
                (MaxURLs cfg) j)
         (world (emit (Call "CrawlWithHTML"))
            (world (publish (event "tier_switch" j "html")) w)) = Ok res
       /\ value (html_tier a j cfg all) w = removeDuplicateURLs (all ++ URLs res).
Proof.
  unfold html_tier, CrawlWithHTML. rewrite !value_bind.
  match goal with
  | |- context [value (crawlWebsiteWithEvents ?a ?d ?k ?dl ?m ?j) ?w'] =>
      destruct (value (crawlWebsiteWithEvents a d k dl m j) w') as [res|e] eqn:E
  end.
  - right. exists res. rewrite value_ret, value_bind, value_ret. auto.
  - left. rewrite value_ret, value_bind, value_ret. reflexivity.
Qed.

Lemma html_tier_NoDup (a j : string) (cfg : CrawlRequest) (all : list string) (w : W) :
  NoDup all -> NoDup (value (html_tier a j cfg all) w).
Proof.
  intros Hn. destruct (html_tier_value a j cfg all w) as [->|(res & _ & ->)];
    [exact Hn|apply removeDuplicateURLs_NoDup].
Qed.

Lemma apply_limit_value (cfg : CrawlRequest) (j : string) (all : list string) (w : W) :
  value (apply_limit cfg j all) w
  = if (MaxURLs cfg >? 0) && (slen all >? MaxURLs cfg)
    then take (Z.to_nat (MaxURLs cfg)) all else all.
Proof.
  unfold apply_limit. destruct (_ && _); [rewrite value_bind|]; apply value_ret.
Qed.

Lemma apply_limit_NoDup (cfg : CrawlRequest) (j : string) (all : list string) (w : W) :
  NoDup all -> NoDup (value (apply_limit cfg j all) w).
Proof.
  intros Hn. rewrite apply_limit_value. destruct (_ && _); [|exact Hn].
  eapply sublist_NoDup; [exact Hn|apply sublist_take].
Qed.

Lemma apply_limit_bound (cfg : CrawlRequest) (j : string) (all : list string) (w : W) :
  0 < MaxURLs cfg -> slen (value (apply_limit cfg j all) w) <= MaxURLs cfg.
Proof.
  intros Hpos. rewrite apply_limit_value. unfold slen.
  destruct (Z.gtb_spec (MaxURLs cfg) 0); [|lia].
  destruct (Z.gtb_spec (Z.of_nat (length all)) (MaxURLs cfg)); simpl.
  - rewrite length_take. lia.
  - lia.
Qed.

Lemma second_stage_URLs (a : string) (cfg : CrawlRequest) (j : string)
    (all : list string) (w : W) :
  exists (all1 : list string) (w1 : W),
    (all1 = all \/ enableHTML cfg && shouldFallbackToHTML all cfg = true
                  /\ all1 = value (html_tier a j cfg all) w)
    /\ URLs (value (second_stage a cfg j all) w) = value (apply_limit cfg j all1) w1.
Proof.
  unfold second_stage. rewrite !value_bind, value_ret. simpl.
  eexists _, _. split; [|reflexivity].
  destruct (enableHTML cfg && shouldFallbackToHTML all cfg); [right; auto|left].
  apply value_ret.
Qed.

Lemma second_stage_NoDup (a : string) (cfg : CrawlRequest) (j : string)
    (all : list string) (w : W) :
  NoDup all -> NoDup (URLs (value (second_stage a cfg j all) w)).
Proof.
  intros Hn. destruct (second_stage_URLs a cfg j all w) as (all1 & w1 & Hall & ->).
  apply apply_limit_NoDup. destruct Hall as [->|[_ ->]]; [exact Hn|].
  apply html_tier_NoDup, Hn.
Qed.

Lemma second_stage_bound (a : string) (cfg : CrawlRequest) (j : string)
    (all : list string) (w : W) :
  0 < MaxURLs cfg -> slen (URLs (value (second_stage a cfg j all) w)) <= MaxURLs cfg.
Proof.
  intros Hpos. destruct (second_stage_URLs a cfg j all w) as (all1 & w1 & _ & ->).
  apply apply_limit_bound, Hpos.
Qed.

(** A crawl that returns a result went through both stages. *)
Lemma CrawlWebsiteWithTiers_Ok (fuel : nat) (t : string) (cfg : CrawlRequest) (j : string)
    (res : CrawlResult) (w : W) :
  value (CrawlWebsiteWithTiers fuel t cfg j) w = Some (Ok res) ->
  exists a all,
    value (first_stage fuel t cfg j) w = Tier1 a all
    /\ res = value (second_stage a cfg j all) (world (first_stage fuel t cfg j) w).
Proof.
  unfold CrawlWebsiteWithTiers. rewrite value_bind.
  destruct (value (first_stage fuel t cfg j) w) as [e| |a all];
    [rewrite value_ret; discriminate|rewrite value_ret; discriminate|].
  rewrite value_bind, value_ret. intros [= <-]. eauto.
Qed.

End Values.

End OrchestratorFacts.

(** ** Orchestrator: tiers, URL list and limit *)

Module OrchestratorTheorems.
Import GoString Utils Crawler CrawlerFacts OrchestratorFacts Handlers Run.
Import ProberTheorems.

Lemma allowedDomainsOf_toggle (host : string) :
  allowedDomainsOf host = [host; toggle_www host].
Proof. unfold allowedDomainsOf, toggle_www. destruct (HasPrefix host "www."); reflexivity. Qed.


Definition not_html_call (a : Action) : Prop := a <> Call "CrawlWithHTML".

Lemma stage1_not_html (a : Action) : stage1_action a -> not_html_call a.
Proof. destruct a; simpl; intros Ha E; try discriminate. injection E as ->. discriminate. Qed.

Section Tiers.
Context {W : Type} `{Net W} `{Site W}.



Lemma CrawlWebsiteWithTiers_trace (fuel : nat) (t : string) (cfg : CrawlRequest)
    (j : string) (w : W) :
  trace (CrawlWebsiteWithTiers fuel t cfg j) w
  = trace (first_stage fuel t cfg j) w
    ++ match value (first_stage fuel t cfg j) w with
       | Tier1 a all => trace (second_stage a cfg j all) (world (first_stage fuel t cfg j) w)
       | _ => []
       end.
Proof.
  unfold CrawlWebsiteWithTiers. rewrite trace_bind.
  destruct (value (first_stage fuel t cfg j) w); try reflexivity.
  rewrite trace_bind, trace_ret, app_nil_r. reflexivity.
Qed.

(** Probes and publications only. *)
Definition reach_action (a : Action) : Prop :=
  match a with
  | Probe _ | Publish _ => True
  | _ => False
  end.

Lemma resolve_target_None (t j a : string) (info : URLFallback) (w : W) :
  value (resolve_target t j a info) w = None ->
  exists pre,
    trace (resolve_target t j a info) w
    = pre ++ [Publish (event_error j "" (fbError info))]
    /\ Forall reach_action pre.
Proof.
  unfold resolve_target, publish. destruct (negb (Success info)); cbv iota;
    [|rewrite value_ret; discriminate].
  rewrite value_bind, trace_bind, trace_emit, world_emit.
  rewrite value_bind, trace_bind, trace_ask_pub.
  destruct (0 <? slen (value (ask_pub (ParseRobotsTxt t j)) w)).
  - rewrite value_bind, value_ret. discriminate.
  - intros _. rewrite trace_bind, trace_emit, trace_ret, app_nil_r.
    exists ([Publish (event "progress" j "sitemap")]
            ++ map Publish (snd (ParseRobotsTxt t j w))).
    split; [rewrite <- app_assoc; reflexivity|].
    apply Forall_app. split; [repeat constructor|].
    apply List.Forall_map.
    induction (snd (ParseRobotsTxt t j w)); constructor; [exact I|assumption].
Qed.

(** A crawl that finds no reachable URL ends by publishing the error
    event, having entered no tier. *)
Lemma first_stage_unreachable (fuel : nat) (t : string) (cfg : CrawlRequest) (j : string)
    (w : W) (err : string) :
  value (first_stage fuel t cfg j) w = Unreachable err ->
  exists pre,
    trace (first_stage fuel t cfg j) w = pre ++ [Publish (event_error j "" err)]
    /\ Forall reach_action pre.
Proof.
  unfold first_stage. rewrite value_bind, trace_bind.
  pose proof (FindAccessibleURL_emits reach_action (fun _ => I) t j w) as Hfind.
  destruct (value (FindAccessibleURL t j) w) as [a info].
  rewrite value_bind, trace_bind.
  pose proof (resolve_target_None t j a info (world (FindAccessibleURL t j) w)) as Hres.
  destruct (value (resolve_target t j a info) (world (FindAccessibleURL t j) w))
    as [a'|].
  - rewrite !value_bind.
    match goal with
    | |- context [match ?x with Some _ => _ | None => _ end] => destruct x
    end; rewrite value_ret; discriminate.
  - rewrite value_ret. intros [= <-].
    destruct (Hres eq_refl) as (pre & -> & Hpre).
    exists (trace (FindAccessibleURL t j) w ++ pre).
    split; [rewrite trace_ret, app_nil_r, app_assoc; reflexivity|].
    apply Forall_app. split; assumption.
Qed.

End Tiers.


(** C3, as stated, fails: the URL list of the crawl of
    [https://example.com] holds the page its sitemap lists on
    [elsewhere.org], a host that is neither [example.com] nor
    [www.example.com]. *)
Lemma sitemap_url_off_host :
  exists res seed page,
    fst (fst (SitemapSite.crawl 100)) = Some (Ok res)
    /\ Toy.url_Parse SitemapSite.seed = Ok seed
    /\ "https://elsewhere.org/page" ∈ URLs res
    /\ Toy.url_Parse "https://elsewhere.org/page" = Ok page
    /\ Host seed = "example.com"
    /\ toggle_www (Host seed) = "www.example.com"
    /\ Host page = "elsewhere.org".
Proof.
  eexists _, _, _. split; [vm_compute; reflexivity|].
  split; [vm_compute; reflexivity|].
  split; [simpl; left|].
  split; [vm_compute; reflexivity|].
  repeat split.
Qed.

(** C3, amended. The URL list of a crawl result contains no duplicate
    entries; each of its URLs was yielded by the sitemap tier, which keeps
    the [<loc>] entries as they are, or recorded by the HTML walker.
    Every URL the walker records is the string [scheme://host/path],
    with [?query] when there is one, rebuilt from a link the collector
    reported in that walk, and the host of that parsed link is the host
    of the URL the walker started from (the reachable variant of the
    seed) or that host with the [www.] prefix added or removed.  Where
    [url.Parse] reads back from the rebuilt string of each such link the
    host it was built with, every URL the walker records parses to one of
    those two hosts. *)
Theorem crawl_urls_unique_and_walker_hosts {W : Type} `{Net W} `{Site W} :
  (forall fuel targetURL crawlConfig jobID (w : W) res,
     value (CrawlWebsiteWithTiers fuel targetURL crawlConfig jobID) w = Some (Ok res) ->
     NoDup (URLs res)
     /\ exists actualURL sitemapURLs,
          value (first_stage fuel targetURL crawlConfig jobID) w
          = Tier1 actualURL sitemapURLs
          /\ forall u, u ∈ URLs res ->
               u ∈ sitemapURLs
               \/ exists (w' : W) walked,
                    value (crawlWebsiteWithEvents actualURL (Depth crawlConfig)
                             (Workers crawlConfig) (Delay crawlConfig)
                             (MaxURLs crawlConfig) jobID) w' = Ok walked
                    /\ u ∈ URLs walked)
  /\ (forall targetURL depth workers delayStr maxURLs jobID (w : W) walked,
       value (crawlWebsiteWithEvents targetURL depth workers delayStr maxURLs jobID) w
       = Ok walked ->
       NoDup (URLs walked)
       /\ exists start,
            url_Parse (TargetURL walked) = Ok start
            /\ (forall u, u ∈ URLs walked ->
                  exists l linkURL,
                    OnLink l ∈ callbacks_of targetURL jobID w
                    /\ absolute l = Ok linkURL
                    /\ u = canonical linkURL
                    /\ (Host linkURL = Host start
                        \/ Host linkURL = toggle_www (Host start)))
            /\ ((forall l linkURL,
                    OnLink l ∈ callbacks_of targetURL jobID w ->
                    absolute l = Ok linkURL ->
                    exists p, url_Parse (canonical linkURL) = Ok p
                              /\ Host p = Host linkURL) ->
                forall u, u ∈ URLs walked ->
                  exists p, url_Parse u = Ok p
                            /\ (Host p = Host start
                                \/ Host p = toggle_www (Host start)))).
Proof.
  split.
  - intros fuel t cfg j w res Hv.
    destruct (CrawlWebsiteWithTiers_Ok fuel t cfg j res w Hv) as (a & all & Hs & ->).
    pose proof (first_stage_NoDup fuel t cfg j a all w Hs) as Hn.
    split; [apply second_stage_NoDup, Hn|].
    exists a, all. split; [exact Hs|]. intros u Hu.
    destruct (second_stage_URLs a cfg j all (world (first_stage fuel t cfg j) w))
      as (all1 & w1 & Hall & Hurls).
    rewrite Hurls, apply_limit_value in Hu.
    assert (Hu1 : u ∈ all1).
    { destruct (_ && _); [eapply subseteq_take, Hu|exact Hu]. }
    destruct Hall as [->|[_ ->]]; [left; exact Hu1|].
    destruct (html_tier_value a j cfg all (world (first_stage fuel t cfg j) w))
      as [E|(walked & Hw & E)]; rewrite E in Hu1; [left; exact Hu1|].
    apply removeDuplicateURLs_elem, elem_of_app in Hu1 as [Hu1|Hu1]; [left; exact Hu1|].
    right. eauto.
  - intros t depth workers delay maxURLs j w walked Hv.
    destruct (crawlWebsiteWithEvents_Ok t depth workers delay maxURLs j walked w Hv)
      as (parsed & st & Hp & [Hnd _ _ _] & Hu).
    destruct (crawlWebsiteWithEvents_links t depth workers delay maxURLs j walked w Hv)
      as (parsed' & Hp' & _ & Hfrom).
    rewrite Hp in Hp'. injection Hp' as <-.
    rewrite Hu. split; [exact Hnd|]. rewrite <- Hu.
    exists parsed. split; [exact Hp|].
    rewrite Forall_forall in Hfrom.
    assert (Hlinks : forall u, u ∈ URLs walked ->
              exists l linkURL,
                OnLink l ∈ callbacks_of t j w /\ absolute l = Ok linkURL
                /\ u = canonical linkURL
                /\ (Host linkURL = Host parsed
                    \/ Host linkURL = toggle_www (Host parsed))).
    { intros u Hin. destruct (Hfrom u Hin) as (l & linkURL & Hl & Ha & -> & Hhost).
      exists l, linkURL. split; [exact Hl|]. split; [exact Ha|].
      split; [reflexivity|].
      rewrite allowedDomainsOf_toggle, !elem_of_cons, elem_of_nil in Hhost. tauto. }
    split; [exact Hlinks|].
    intros Hback u Hin.
    destruct (Hlinks u Hin) as (l & linkURL & Hl & Ha & -> & Hhost).
    destruct (Hback l linkURL Hl Ha) as (p & Hp' & Hh).
    exists p. split; [exact Hp'|]. rewrite Hh. exact Hhost.
Qed.

(** The crawl of the example site returns a duplicate-free list, and the
    page its walker records parses to the host of the seed. *)
Lemma crawl_urls_unique_witness :
  NoDup ["https://elsewhere.org/page"; "https://example.com/about"]
  /\ exists p,
       Toy.url_Parse "https://example.com/about" = Ok p
       /\ (Host p = "example.com" \/ Host p = "www.example.com").
Proof.
  split.
  - refine (proj1 (proj1 (@crawl_urls_unique_and_walker_hosts Z SitemapSite.net
                             SitemapSite.site)
                     2%nat SitemapSite.seed (applyDefaults (SitemapSite.body 100))
                     "docs-crawl" 0
                     {| rID := None; TargetURL := "https://example.com"; TotalURLs := 2;
                        Settings := {| sWorkers := 10; sDelay := "200ms"; sDepth := 1 |};
                        URLs := ["https://elsewhere.org/page";
                                 "https://example.com/about"] |}
                     _)).
    vm_compute. reflexivity.
  - destruct (proj2 (@crawl_urls_unique_and_walker_hosts Z SitemapSite.net
                       SitemapSite.site)
                SitemapSite.seed 1 10 "200ms" 1 "docs-crawl" 0
                {| rID := None; TargetURL := "https://example.com"; TotalURLs := 1;
                   Settings := {| sWorkers := 10; sDelay := "200ms"; sDepth := 1 |};
                   URLs := ["https://example.com/about"] |})
      as (_ & start & Hs & _ & Hhosts).
    + vm_compute. reflexivity.
    + vm_compute in Hs. injection Hs as <-.
      apply (Hhosts); [|simpl; left].
      intros l linkURL Hl Ha. vm_compute in Hl.
      apply elem_of_cons in Hl as [Hl|Hl]; [discriminate Hl|].
      apply elem_of_cons in Hl as [Hl|Hl]; [discriminate Hl|].
      apply elem_of_cons in Hl as [Hl|Hl]; [|inversion Hl].
      injection Hl as ->. vm_compute in Ha. injection Ha as <-.
      eexists. split; vm_compute; reflexivity.
Defined.

(** C4, as stated, fails: a request with [max_urls = -1] passes the clamp
    unchanged and its crawl returns one URL, more than [max_urls]. *)
Lemma negative_max_urls_unbounded :
  exists res,
    fst (fst (SitemapSite.crawl (-1))) = Some (Ok res)
    /\ MaxURLs (applyDefaults (SitemapSite.body (-1))) = -1
    /\ slen (URLs res) = 1.
Proof. eexists. split; [vm_compute; reflexivity|]. split; reflexivity. Qed.

Lemma applyDefaults_MaxURLs (req : CrawlRequest) :
  MaxURLs (applyDefaults req) <= 5000
  /\ MaxURLs (applyDefaults req) <> 0
  /\ (MaxURLs req = 0 -> MaxURLs (applyDefaults req) = 1000)
  /\ (MaxURLs req <> 0 -> MaxURLs (applyDefaults req) = Z.min (MaxURLs req) 5000).
Proof.
  unfold applyDefaults. simpl.
  destruct (Z.eqb_spec (MaxURLs req) 0);
    repeat match goal with |- context [?a >? ?b] => destruct (Z.gtb_spec a b) end; lia.
Qed.

(** C4, amended. After defaulting and clamping, [max_urls] is at most 5000
    and not zero (1000 when the field is omitted or zero, otherwise the
    smaller of the given value and 5000, so a negative value is kept); this
    is the value an accepted request carries; and the result of a crawl
    whose [max_urls] is positive holds at most [max_urls] URLs. *)
Theorem max_urls_cap {W : Type} `{Net W} `{Site W} `{Runtime W} :
  (forall req,
     MaxURLs (applyDefaults req) <= 5000
     /\ MaxURLs (applyDefaults req) <> 0
     /\ (MaxURLs req = 0 -> MaxURLs (applyDefaults req) = 1000)
     /\ (MaxURLs req <> 0 -> MaxURLs (applyDefaults req) = Z.min (MaxURLs req) 5000))
  /\ (forall req jobs (w : W) a,
       fst (value (HandleCrawl (Some req) jobs) w) = HTTPOk a ->
       request a = applyDefaults req /\ MaxURLs (request a) <= 5000)
  /\ (forall fuel targetURL crawlConfig jobID (w : W) res,
       value (CrawlWebsiteWithTiers fuel targetURL crawlConfig jobID) w = Some (Ok res) ->
       0 < MaxURLs crawlConfig ->
       slen (URLs res) <= MaxURLs crawlConfig).
Proof.
  split; [apply applyDefaults_MaxURLs|]. split.
  - intros req jobs w a. unfold HandleCrawl.
    destruct (String.eqb (Models.URL req) ""); [rewrite value_ret; discriminate|].
    assert (Hacc : forall x : Reply Accepted * gmap string JobStatus,
               (exists r jb, fst x = HTTPOk {| response := r; job := jb;
                                               request := applyDefaults req |}) ->
               fst x = HTTPOk a ->
               request a = applyDefaults req /\ MaxURLs (request a) <= 5000).
    { intros x (r & jb & Hj) Ha. rewrite Hj in Ha. injection Ha as <-. simpl.
      split; [reflexivity|apply applyDefaults_MaxURLs]. }
    destruct (negb (String.eqb (JobID (applyDefaults req)) "")).
    + destruct (negb (isValidJobID _)); [rewrite value_ret; discriminate|].
      case_bool_decide; [rewrite value_ret; discriminate|].
      apply Hacc. autorewrite with run. simpl. eexists _, _. reflexivity.
    + apply Hacc. autorewrite with run. simpl. eexists _, _. reflexivity.
  - intros fuel t cfg j w res Hv Hpos.
    destruct (CrawlWebsiteWithTiers_Ok fuel t cfg j res w Hv) as (a & all & _ & ->).
    apply second_stage_bound, Hpos.
Qed.

(** The crawl of the example site with [max_urls = 1] returns one URL. *)
Lemma max_urls_cap_witness :
  slen (URLs {| rID := None; TargetURL := "https://example.com"; TotalURLs := 1;
                Settings := {| sWorkers := 10; sDelay := "200ms"; sDepth := 1 |};
                URLs := ["https://elsewhere.org/page"] |}) <= 1.
Proof.
  refine (proj2 (proj2 (@max_urls_cap Z SitemapSite.net SitemapSite.site
                          SitemapSite.runtime))
            2%nat SitemapSite.seed (applyDefaults (SitemapSite.body 1)) "docs-crawl" 0
            _ _ _).
  - vm_compute. reflexivity.
  - vm_compute. reflexivity.
Defined.


End OrchestratorTheorems.

(** ** Terminal events and the job registry *)

Module BusFacts.
Import GoString Bus.

Section Facts.
Context `{Codec}.

Lemma go_func_execution (t : list Action) (e : CrawlEvent) (gs : list Goroutine)
    (obs : list Step) :
  execution t gs obs ->
  execution t (go_func OpenChannel e ++ gs) (publication e ++ obs).
Proof.
  intros Hx. unfold go_func, publication.
  destruct (PublishCrawlEvent OpenChannel e) as [m|]; [|exact Hx].
  apply (exec_publishes t [] m gs). exact Hx.
Qed.

Lemma eager_execution (t : list Action) : execution t [] (eager t).
Proof.
  induction t as [|a t IH]; [constructor|].
  change (eager (a :: t))
    with (Does a :: match a with
                    | Publish e => publication e
                    | PublishAsync e => Calls e :: publication e
                    | _ => []
                    end ++ eager t).
  apply (exec_does a t [] OpenChannel). cbn [app].
  destruct a; try exact IH.
  - cbn [started]. rewrite <- (app_nil_r (go_func OpenChannel e)).
    apply go_func_execution, IH.
  - cbn [started app].
    apply (exec_calls t [] e [] OpenChannel). cbn [app].
    apply go_func_execution, IH.
Qed.

Lemma drain_execution (gs : list Goroutine) : execution [] gs (drain gs).
Proof.
  induction gs as [|g gs IH]; [constructor|].
  destruct g as [e|m].
  - change (drain (WillCall e :: gs)) with (Calls e :: publication e ++ drain gs).
    apply (exec_calls [] [] e gs OpenChannel). cbn [app].
    apply go_func_execution, IH.
  - apply (exec_publishes [] [] m gs). exact IH.
Qed.

Lemma late_execution_from (t : list Action) :
  forall gs, execution t gs (map Does t ++ drain (gs ++ flat_map (started OpenChannel) t)).
Proof.
  induction t as [|a t IH]; intros gs.
  - simpl. rewrite app_nil_r. apply drain_execution.
  - simpl. apply (exec_does a t gs OpenChannel).
    rewrite app_assoc. apply IH.
Qed.

Lemma late_execution (t : list Action) : execution t [] (late t).
Proof. apply (late_execution_from t []). Qed.

Lemma silent_execution (t : list Action) :
  forall gs, execution t gs (silent t).
Proof.
  induction t as [|a t IH]; intros gs; [constructor|].
  apply (exec_does a t gs NilChannel), IH.
Qed.

Lemma eager_app (t1 t2 : list Action) : eager (t1 ++ t2) = eager t1 ++ eager t2.
Proof. apply flat_map_app. Qed.

Lemma drain_app (g1 g2 : list Goroutine) : drain (g1 ++ g2) = drain g1 ++ drain g2.
Proof. apply flat_map_app. Qed.

Lemma program_app (o1 o2 : list Step) : program (o1 ++ o2) = program o1 ++ program o2.
Proof. apply omap_app. Qed.

Lemma program_eager (t : list Action) : program (eager t) = t.
Proof.
  induction t as [|a t IH]; [reflexivity|].
  change (a :: t) with ([a] ++ t) at 1.
  rewrite eager_app, program_app, IH.
  destruct a; try reflexivity.
  - simpl. unfold publication.
    destruct (PublishCrawlEvent OpenChannel e); reflexivity.
  - simpl. unfold publication.
    destruct (PublishCrawlEvent OpenChannel e); reflexivity.
Qed.

Lemma program_Does (obs : list Step) (a : Action) : Does a ∈ obs -> a ∈ program obs.
Proof.
  intros Hin. apply list_elem_of_omap. exists (Does a). split; [exact Hin|reflexivity].
Qed.

(** An execution keeps the program order of the crawl. *)
Lemma execution_program (t : list Action) (gs : list Goroutine) (obs : list Step) :
  execution t gs obs -> program obs = t.
Proof.
  induction 1 as [gs|a t gs ch obs _ IH|t b e a ch obs _ IH|t b m a obs _ IH];
    simpl; [reflexivity|f_equal; exact IH|exact IH|exact IH].
Qed.

Lemma PublishCrawlEvent_open (channel : Channel) (e : CrawlEvent) (m : Publishing) :
  PublishCrawlEvent channel e = Some m -> PublishCrawlEvent OpenChannel e = Some m.
Proof. destruct channel; [discriminate|discriminate|tauto]. Qed.

Lemma go_func_elem (channel : Channel) (e : CrawlEvent) (g : Goroutine) :
  g ∈ go_func channel e ->
  exists m, g = WillPublish m /\ PublishCrawlEvent OpenChannel e = Some m.
Proof.
  unfold go_func. destruct (PublishCrawlEvent channel e) as [m|] eqn:E.
  - rewrite list_elem_of_singleton. intros ->. exists m.
    split; [reflexivity|]. eapply PublishCrawlEvent_open, E.
  - intros Hin. inversion Hin.
Qed.

(** A call of [PublishCrawlEvent] that can have led to handing [m] to the
    channel: one by the crawl, or one by a goroutine. *)
Definition called_for (m : Publishing) (s : Step) : Prop :=
  exists e, PublishCrawlEvent OpenChannel e = Some m
            /\ (s = Does (Publish e) \/ s = Calls e).

(** A goroutine that calls [PublishCrawlEvent] was started by the crawl. *)
Definition started_for (e : CrawlEvent) (s : Step) : Prop :=
  s = Does (PublishAsync e).

(** In every execution an event is handed to the channel only after the
    call of [PublishCrawlEvent] for it, and a goroutine makes that call
    only after the crawl started it. *)
Lemma execution_order (t : list Action) (gs : list Goroutine) (obs : list Step) :
  execution t gs obs ->
  (forall before m after, obs = before ++ ChannelPublish m :: after ->
     WillPublish m ∈ gs \/ Exists (called_for m) before)
  /\ (forall before e after, obs = before ++ Calls e :: after ->
        WillCall e ∈ gs \/ Exists (started_for e) before).
Proof.
  induction 1 as [gs|a t gs ch obs _ [IHp IHc]|t b e a ch obs _ [IHp IHc]
                  |t b m a obs _ [IHp IHc]].
  - split; intros [|x before] ? ? E; discriminate E.
  - split.
    + intros [|x before] m after E; [discriminate E|]. injection E as <- E.
      destruct (IHp before m after E) as [Hin|Hex]; [|right; right; exact Hex].
      apply elem_of_app in Hin as [Hin|Hin]; [left; exact Hin|].
      right. left. destruct a; try (inversion Hin; fail).
      * apply go_func_elem in Hin as (m' & [= <-] & Hm).
        exists e. split; [exact Hm|left; reflexivity].
      * cbn [started] in Hin. apply list_elem_of_singleton in Hin. discriminate Hin.
    + intros [|x before] e after E; [discriminate E|]. injection E as <- E.
      destruct (IHc before e after E) as [Hin|Hex]; [|right; right; exact Hex].
      apply elem_of_app in Hin as [Hin|Hin]; [left; exact Hin|].
      right. left. destruct a; try (inversion Hin; fail).
      * apply go_func_elem in Hin as (m' & Hd & _). discriminate Hd.
      * cbn [started] in Hin. apply list_elem_of_singleton in Hin.
        injection Hin as ->. reflexivity.
  - split.
    + intros [|x before] m after E; [discriminate E|]. injection E as <- E.
      destruct (IHp before m after E) as [Hin|Hex]; [|right; right; exact Hex].
      apply elem_of_app in Hin as [Hin|Hin].
      * right. left. apply go_func_elem in Hin as (m' & [= <-] & Hm).
        exists e. split; [exact Hm|right; reflexivity].
      * left. rewrite elem_of_app, elem_of_cons. rewrite elem_of_app in Hin. tauto.
    + intros [|x before] e' after E.
      * injection E as <- _. left. rewrite elem_of_app, elem_of_cons. tauto.
      * injection E as <- E.
        destruct (IHc before e' after E) as [Hin|Hex]; [|right; right; exact Hex].
        apply elem_of_app in Hin as [Hin|Hin].
        -- apply go_func_elem in Hin as (m' & Hd & _). discriminate Hd.
        -- left. rewrite elem_of_app, elem_of_cons. rewrite elem_of_app in Hin. tauto.
  - split.
    + intros [|x before] m' after E.
      * injection E as <- _. left. rewrite elem_of_app, elem_of_cons. tauto.
      * injection E as <- E.
        destruct (IHp before m' after E) as [Hin|Hex]; [|right; right; exact Hex].
        left. rewrite elem_of_app, elem_of_cons. rewrite elem_of_app in Hin. tauto.
    + intros [|x before] e after E; [discriminate E|]. injection E as <- E.
      destruct (IHc before e after E) as [Hin|Hex]; [|right; right; exact Hex].
      left. rewrite elem_of_app, elem_of_cons. rewrite elem_of_app in Hin. tauto.
Qed.

End Facts.

End BusFacts.

Module LifecycleTheorems.
Import GoString Utils Crawler CrawlerFacts OrchestratorFacts OrchestratorTheorems Handlers Run.
Import Bus BusFacts.

Definition terminal_status (j : JobStatus) : bool :=
  String.eqb (Status j) "completed" || String.eqb (Status j) "failed".

(** A message that carries a terminal event, by its routing key. *)
Definition terminal_message (m : Publishing) : bool :=
  HasSuffix (routingKey m) ".completed" || HasSuffix (routingKey m) ".error".

(** The invariant as the specification words it, checked along an
    execution: whenever a terminal event is handed to the bus, the
    terminal status has already been written to the job record in memory
    ([inMemory]) and to the store ([inStore]). *)
Fixpoint spec_published_after_update (inMemory inStore : bool) (obs : list Step) : bool :=
  match obs with
  | [] => true
  | Does (MemWrite j) :: rest =>
      spec_published_after_update (inMemory || terminal_status j) inStore rest
  | Does (StoreUpdate j) :: rest =>
      spec_published_after_update inMemory (inStore || terminal_status j) rest
  | ChannelPublish m :: rest =>
      (negb (terminal_message m) || (inMemory && inStore))
      && spec_published_after_update inMemory inStore rest
  | _ :: rest => spec_published_after_update inMemory inStore rest
  end.

(** A step that leaves the job registry as it is. *)
Definition unwritten (s : Step) : Prop :=
  match s with
  | Does (MemWrite _) | Does (StoreInsert _) | Does (StoreUpdate _) => False
  | _ => True
  end.

(** C1, as stated, fails: the job of the example site completes, and in
    the execution in which every publishing goroutine runs as soon as it
    is started its [completed] event is handed to the bus while neither
    the job record in memory nor the store shows the terminal status; the
    store write comes later. *)
Lemma completed_published_before_update :
  exists j obs before m after,
    fst (fst SitemapSite.background) = Some j
    /\ Status j = "completed"
    /\ @execution Toy.codec (snd SitemapSite.background) [] obs
    /\ spec_published_after_update false false obs = false
    /\ obs = before ++ ChannelPublish m :: after
    /\ routingKey m = "crawler.docs-crawl.completed"
    /\ Forall unwritten before
    /\ Does (StoreUpdate j) ∈ after.
Proof.
  eexists _, (@eager Toy.codec (snd SitemapSite.background)).
  exists (removelast (@eager Toy.codec SitemapSite.crawl_trace)).
  eexists _, _.
  split; [vm_compute; reflexivity|].
  split; [reflexivity|].
  split; [apply eager_execution|].
  split; [vm_compute; reflexivity|].
  split; [vm_compute; reflexivity|].
  split; [reflexivity|].
  split; [vm_compute; repeat constructor|].
  vm_compute. repeat first [apply list_elem_of_here | apply list_elem_of_further].
Qed.

Section Bus.
Context `{Codec}.

Lemma eager_unwritten (pre : list Action) :
  Forall crawl_action pre -> Forall unwritten (eager pre).
Proof.
  induction 1 as [|a pre Ha _ IH]; [constructor|].
  change (a :: pre) with ([a] ++ pre). rewrite eager_app.
  apply Forall_app. split; [|exact IH].
  destruct a; try contradiction; simpl; unfold publication;
    try destruct (PublishCrawlEvent OpenChannel e); repeat constructor.
Qed.

(** The terminal event can reach the bus before the registry is
    written. *)
Lemma eager_terminal (pre mem : list Action) (e : CrawlEvent) (job' : JobStatus)
    (m : Publishing) :
  Forall crawl_action pre ->
  PublishCrawlEvent OpenChannel e = Some m ->
  exists before after,
    eager (pre ++ [Publish e; Lock] ++ mem ++ [StoreUpdate job'; Unlock])
    = before ++ ChannelPublish m :: after
    /\ Forall unwritten before
    /\ Does (StoreUpdate job') ∈ after.
Proof.
  intros Hpre Hm.
  exists (eager pre ++ [Does (Publish e)]),
         (eager (Lock :: mem ++ [StoreUpdate job'; Unlock])).
  split.
  - rewrite eager_app. change ([Publish e; Lock] ++ ?l) with ([Publish e] ++ Lock :: l).
    rewrite eager_app. simpl (eager [Publish e]). unfold publication. rewrite Hm.
    rewrite <- !app_assoc. reflexivity.
  - split.
    + apply Forall_app. split; [apply eager_unwritten, Hpre|repeat constructor].
    + change (Lock :: mem ++ ?l) with ((Lock :: mem) ++ l). rewrite eager_app.
      apply elem_of_app. right. simpl. left.
Qed.

(** The terminal event can reach the bus after the goroutine's last
    action. *)
Lemma late_terminal (pre rest : list Action) (e : CrawlEvent) (m : Publishing) :
  PublishCrawlEvent OpenChannel e = Some m ->
  exists more after,
    late (pre ++ Publish e :: rest)
    = (map Does (pre ++ Publish e :: rest) ++ more) ++ ChannelPublish m :: after.
Proof.
  intros Hm. unfold late.
  exists (drain (flat_map (started OpenChannel) pre)),
         (drain (flat_map (started OpenChannel) rest)).
  rewrite flat_map_app. cbn [flat_map started]. unfold go_func. rewrite Hm.
  rewrite drain_app. cbn [app]. rewrite <- !app_assoc. reflexivity.
Qed.

End Bus.

Section Ends.
Context {W : Type} `{Net W} `{Site W}.

Lemma second_stage_ends (a : string) (cfg : CrawlRequest) (j : string)
    (all : list string) (w : W) :
  exists pre,
    trace (second_stage a cfg j all) w
    = pre ++ [Publish (event_total "completed" j ""
                         (slen (URLs (value (second_stage a cfg j all) w))))].
Proof.
  unfold second_stage, publish.
  rewrite !trace_bind, !value_bind, trace_emit, trace_ret, value_ret, app_nil_r.
  simpl URLs. eexists. rewrite app_assoc. reflexivity.
Qed.

(** A crawl that returns ends by publishing its terminal event. *)
Lemma CrawlWebsiteWithTiers_ends (fuel : nat) (t : string) (cfg : CrawlRequest)
    (j : string) (w : W) (outcome : result CrawlResult) :
  value (CrawlWebsiteWithTiers fuel t cfg j) w = Some outcome ->
  exists pre e,
    trace (CrawlWebsiteWithTiers fuel t cfg j) w = pre ++ [Publish e]
    /\ Forall crawl_action pre
    /\ match outcome with
       | Ok res => e = event_total "completed" j "" (slen (URLs res))
       | Err _ => exists err, e = event_error j "" err
       end.
Proof.
  intros Hv.
  pose proof (CrawlWebsiteWithTiers_emits crawl_action (fun _ => I) (fun _ => I) I
                (fun _ => I) I fuel t cfg j w) as Hall.
  rewrite CrawlWebsiteWithTiers_trace in *.
  revert Hv. unfold CrawlWebsiteWithTiers. rewrite value_bind.
  destruct (value (first_stage fuel t cfg j) w) as [err| |a all] eqn:Es.
  - rewrite value_ret. intros [= <-].
    destruct (first_stage_unreachable fuel t cfg j w err Es) as (pre & Ht & _).
    rewrite Ht, app_nil_r in *. apply Forall_app in Hall as [Hpre _].
    exists pre, (event_error j "" err). eauto.
  - rewrite value_ret. discriminate.
  - rewrite value_bind, value_ret. intros [= <-].
    destruct (second_stage_ends a cfg j all (world (first_stage fuel t cfg j) w))
      as (pre & Ht).
    rewrite Ht, app_assoc in *. apply Forall_app in Hall as [Hpre _].
    eexists _, _. split; [reflexivity|]. split; [exact Hpre|reflexivity].
Qed.

End Ends.

Section Goroutine.
Context {W : Type} `{Net W} `{Site W} `{Runtime W}.

(** The actions of the goroutine of a job that ends, in program order. *)
Lemma crawl_goroutine_trace (fuel : nat) (req : CrawlRequest) (jobID : string)
    (job job' : JobStatus) (w : W) :
  value (crawl_goroutine fuel req jobID job) w = Some job' ->
  exists pre e mem,
    trace (crawl_goroutine fuel req jobID job) w
    = pre ++ [Publish e; Lock] ++ mem ++ [StoreUpdate job'; Unlock]
    /\ Forall crawl_action pre
    /\ ((Type_ e = "completed" /\ Status job' = "completed"
         /\ exists j1 j2 e2,
              mem = [MemWrite j1; MemWrite j2; Publish e2; MemWrite job']
              /\ Status j1 = "completed" /\ Status j2 = "completed"
              /\ Type_ e2 = "completed")
        \/ (Type_ e = "error" /\ Status job' = "failed"
            /\ exists j1 j2,
                 mem = [MemWrite j1; MemWrite j2; MemWrite job']
                 /\ Status j1 = "failed" /\ Status j2 = "failed")).
Proof.
  unfold crawl_goroutine, publish.
  rewrite value_bind, trace_bind, trace_emit, world_emit, value_bind, trace_bind.
  pose proof (CrawlWebsiteWithTiers_ends fuel (Models.URL req) req jobID w) as Hend.
  destruct (value (CrawlWebsiteWithTiers fuel (Models.URL req) req jobID) w)
    as [outcome|]; [|rewrite value_ret; discriminate].
  destruct (Hend outcome eq_refl) as (pre & e & -> & Hpre & He). clear Hend.
  generalize (world (CrawlWebsiteWithTiers fuel (Models.URL req) req jobID) w) as w1.
  intros w1. destruct outcome as [res|msg].
  - autorewrite with run. intros [= <-]. rewrite <- ?app_assoc. cbn [app].
    exists (Publish (event "progress" jobID "") :: pre), e. eexists [_; _; _; _].
    split; [cbn [app]; reflexivity|].
    split; [constructor; [exact I|exact Hpre]|].
    left. subst e. split; [reflexivity|]. split; [reflexivity|].
    eexists _, _, _. split; [reflexivity|]. repeat split.
  - autorewrite with run. intros [= <-]. rewrite <- ?app_assoc. cbn [app].
    exists (Publish (event "progress" jobID "") :: pre), e. eexists [_; _; _].
    split; [cbn [app]; reflexivity|].
    split; [constructor; [exact I|exact Hpre]|].
    right. destruct He as [err ->]. split; [reflexivity|]. split; [reflexivity|].
    eexists _, _. split; [reflexivity|]. repeat split.
Qed.

End Goroutine.

(** C1, amended. The goroutine of a crawl job that reaches a terminal
    state calls [PublishCrawlEvent] with the terminal event ([completed]
    or [error]) before it touches the job registry: the in-memory status
    mutation and the store write follow that call under the mutex; on
    success the handler makes a second call with a [completed] event
    after the status and the result are written in memory and before the
    store write, and on failure it makes no call after the update.  A
    call of [PublishCrawlEvent] only starts a goroutine that hands the
    event to the bus, or does nothing when there is no open channel or
    the event does not marshal.  So in every execution the actions of
    the goroutine keep their program order and an event reaches the bus
    only after the call made for it, and nothing else is fixed: when the
    terminal event marshals and the channel is open there is an
    execution in which it reaches the bus before any write to the
    registry, and one in which it reaches the bus after the goroutine's
    last action, hence after the update; and there is an execution in
    which nothing reaches the bus. *)
Theorem terminal_event_precedes_update {W : Type} `{Net W} `{Site W} `{Runtime W}
    `{Codec} (fuel : nat) (req : CrawlRequest) (jobID : string) (job job' : JobStatus)
    (w : W) :
  value (crawl_goroutine fuel req jobID job) w = Some job' ->
  exists pre e mem,
    trace (crawl_goroutine fuel req jobID job) w
    = pre ++ [Publish e; Lock] ++ mem ++ [StoreUpdate job'; Unlock]
    /\ Forall crawl_action pre
    /\ ((Type_ e = "completed" /\ Status job' = "completed"
         /\ exists j1 j2 e2,
              mem = [MemWrite j1; MemWrite j2; Publish e2; MemWrite job']
              /\ Status j1 = "completed" /\ Status j2 = "completed"
              /\ Type_ e2 = "completed")
        \/ (Type_ e = "error" /\ Status job' = "failed"
            /\ exists j1 j2,
                 mem = [MemWrite j1; MemWrite j2; MemWrite job']
                 /\ Status j1 = "failed" /\ Status j2 = "failed"))
    /\ (forall obs,
          execution (trace (crawl_goroutine fuel req jobID job) w) [] obs ->
          program obs = trace (crawl_goroutine fuel req jobID job) w
          /\ forall before m after,
               obs = before ++ ChannelPublish m :: after ->
               Exists (called_for m) before)
    /\ (forall m, PublishCrawlEvent OpenChannel e = Some m ->
          (exists before after,
             execution (trace (crawl_goroutine fuel req jobID job) w) []
               (before ++ ChannelPublish m :: after)
             /\ Forall unwritten before
             /\ Does (StoreUpdate job') ∈ after)
          /\ (exists more after,
                execution (trace (crawl_goroutine fuel req jobID job) w) []
                  ((map Does (trace (crawl_goroutine fuel req jobID job) w) ++ more)
                   ++ ChannelPublish m :: after)))
    /\ execution (trace (crawl_goroutine fuel req jobID job) w) []
         (map Does (trace (crawl_goroutine fuel req jobID job) w)).
Proof.
  intros Hv.
  destruct (crawl_goroutine_trace fuel req jobID job job' w Hv)
    as (pre & e & mem & Ht & Hpre & Hcases).
  exists pre, e, mem.
  split; [exact Ht|]. split; [exact Hpre|]. split; [exact Hcases|].
  split.
  { intros obs Hx. split; [eapply execution_program, Hx|].
    intros before m after E.
    destruct (proj1 (execution_order _ _ _ Hx) before m after E) as [Hin|Hex];
      [inversion Hin|exact Hex]. }
  split.
  { intros m Hm. split.
    - destruct (eager_terminal pre mem e job' m Hpre Hm) as (before & after & E & Hb & Ha).
      exists before, after. rewrite <- E, Ht. split; [apply eager_execution|].
      split; assumption.
    - destruct (late_terminal pre (Lock :: mem ++ [StoreUpdate job'; Unlock]) e m Hm)
        as (more & after & E).
      exists more, after. rewrite Ht.
      change ([Publish e; Lock] ++ ?l) with (Publish e :: Lock :: l).
      rewrite <- E. apply late_execution. }
  apply silent_execution.
Qed.

(** The job of the example site: the call with the [completed] event
    precedes the store write, and the goroutine can run to its end with
    nothing handed to the bus. *)
Lemma terminal_event_precedes_update_witness :
  exists pre e mem job',
    snd SitemapSite.background
    = pre ++ [Publish e; Lock] ++ mem ++ [StoreUpdate job'; Unlock]
    /\ Type_ e = "completed" /\ Status job' = "completed"
    /\ @execution Toy.codec (snd SitemapSite.background) []
         (map Does (snd SitemapSite.background)).
Proof.
  destruct (@terminal_event_precedes_update Z SitemapSite.net SitemapSite.site
              SitemapSite.runtime Toy.codec 2%nat (applyDefaults (SitemapSite.body 100))
              "docs-crawl" SitemapSite.job
              (withUpdatedAt
                 (withResult (withStatus SitemapSite.job "completed")
                    {| rID := Some "65f1a2b3c4d5e6f708192a3b";
                       TargetURL := "https://example.com"; TotalURLs := 2;
                       Settings := {| sWorkers := 10; sDelay := "200ms"; sDepth := 1 |};
                       URLs := ["https://elsewhere.org/page";
                                "https://example.com/about"] |}) 2) 2)
    as (pre & e & mem & Ht & _ & [(He & Hs & _)|(_ & Hs & _)] & _ & _ & Hsilent).
  - vm_compute. reflexivity.
  - exists pre, e, mem. eexists. split; [exact Ht|]. split; [exact He|].
    split; [exact Hs|exact Hsilent].
  - discriminate Hs.
Defined.

End LifecycleTheorems.

(** ** Start-up recovery *)

Module RecoveryTheorems.
Import Database.

Section Loop.
Variable clock : nat -> Z.

(** The ids in the map after the loop are those before it and those of
    the recovered jobs, under either reading of the loop variable. *)
Lemma recover_loop_ids (sem : LoopVar) (jobs : list JobStatus) :
  forall (i : nat) (m : Memory) (id : string),
    is_Some (ActiveJobs (recover_loop sem clock i jobs m) !! id)
    <-> is_Some (ActiveJobs m !! id) \/ id ∈ map jID jobs.
Proof.
  induction jobs as [|v rest IH]; intros i m id; simpl.
  - rewrite elem_of_nil. tauto.
  - rewrite IH. simpl. rewrite elem_of_cons.
    destruct (decide (jID v = id)) as [->|Hne].
    + rewrite lookup_insert_eq. split; [auto|]. intros _. left. eauto.
    + rewrite lookup_insert_ne by exact Hne. split; [tauto|].
      intros [?|[?|?]]; [tauto|congruence|tauto].
Qed.

(** With a fresh variable per iteration, the rest of the loop leaves the
    entries of other ids and the records of earlier iterations alone. *)
Lemma recover_loop_frame (jobs : list JobStatus) :
  forall (i : nat) (m : Memory),
    (forall id, id ∉ map jID jobs ->
       ActiveJobs (recover_loop PerIteration clock i jobs m) !! id = ActiveJobs m !! id)
    /\ (forall a, (a < i)%nat ->
          heap (recover_loop PerIteration clock i jobs m) !! a = heap m !! a).
Proof.
  induction jobs as [|v rest IH]; intros i m; simpl; [split; reflexivity|].
  destruct (IH (S i) {| heap := <[i := markFailed v (clock i)]> (heap m);
                        ActiveJobs := <[jID v := i]> (ActiveJobs m);
                        spawned := spawned m ++ [i] |}) as [Hids Hheap].
  split.
  - intros id Hid. rewrite not_elem_of_cons in Hid. destruct Hid as [Hne Hid].
    rewrite Hids by exact Hid. simpl. apply lookup_insert_ne. congruence.
  - intros a Ha. rewrite Hheap by lia. simpl. apply lookup_insert_ne. lia.
Qed.

(** With a fresh variable per iteration, every recovered job is found
    under its id, marked failed at the time of its iteration. *)
Lemma recover_loop_per_iteration (jobs : list JobStatus) :
  forall (i k : nat) (m : Memory) (j : JobStatus),
    NoDup (map jID jobs) ->
    jobs !! k = Some j ->
    lookup_job (recover_loop PerIteration clock i jobs m) (jID j)
    = Some (markFailed j (clock (i + k))).
Proof.
  induction jobs as [|v rest IH]; intros i k m j Hnd Hk; [discriminate|].
  apply NoDup_cons in Hnd as [Hfresh Hnd]. destruct k as [|k]; simpl in Hk.
  - injection Hk as ->. simpl. unfold lookup_job.
    destruct (recover_loop_frame rest (S i)
                {| heap := <[i := markFailed j (clock i)]> (heap m);
                   ActiveJobs := <[jID j := i]> (ActiveJobs m);
                   spawned := spawned m ++ [i] |}) as [Hids Hheap].
    rewrite Hids by exact Hfresh. simpl. rewrite lookup_insert_eq. simpl.
    rewrite Hheap by lia. simpl. rewrite lookup_insert_eq, Nat.add_0_r. reflexivity.
  - simpl. rewrite (IH (S i) k _ j Hnd Hk). f_equal. f_equal. f_equal. lia.
Qed.

End Loop.

(** Under the per-iteration reading of the loop variable (Go 1.22 and
    later) recovery does what the specification says: the map holds
    exactly the ids of the running records, each mapped to its record
    marked failed with the recovery error and a fresh [updated_at]. *)
Lemma recovery_per_iteration (clock : nat -> Z) (docs : list JobStatus) :
  NoDup (map jID (find_running docs)) ->
  let m := LoadActiveJobsFromMongoDB PerIteration clock (Some docs) true emptyMemory in
  (forall id, is_Some (ActiveJobs m !! id) <-> id ∈ map jID (find_running docs))
  /\ (forall k j, find_running docs !! k = Some j ->
        lookup_job m (jID j) = Some (markFailed j (clock k)))
  /\ (forall j, j ∈ find_running docs -> Status j = "running").
Proof.
  intros Hnd m. subst m. simpl. split; [|split].
  - intros id. rewrite recover_loop_ids. simpl. rewrite lookup_empty.
    split; [intros [[? ?]|?]; [discriminate|assumption]|auto].
  - intros k j Hk. apply (recover_loop_per_iteration clock _ 0 k _ j Hnd Hk).
  - intros j Hj. unfold find_running in Hj. apply list_elem_of_filter in Hj. tauto.
Qed.

(** Two jobs left running by the previous process. *)
Definition jobA : JobStatus :=
  {| jID := "job-a"; Status := "running"; Progress := "Starting crawl...";
     Result := None; jError := ""; CreatedAt := 100; UpdatedAt := 100; Request := None |}.

Definition jobB : JobStatus :=
  {| jID := "job-b"; Status := "running"; Progress := "Starting crawl...";
     Result := None; jError := ""; CreatedAt := 200; UpdatedAt := 200; Request := None |}.

Definition restart_clock (i : nat) : Z := 1000 + Z.of_nat i.

(** C9 fails on the code under the per-loop reading of the loop variable
    (Go up to 1.21): with two running records in the store, both ids are
    in the map, but both entries point to the one loop variable, which
    holds the record of the last job; the record of the first job is not
    the one found under its id, and the updates started with that pointer
    leave the first job [running] in the store. *)
Lemma recovery_aliases_loop_variable :
  let docs := [jobA; jobB] in
  let m := LoadActiveJobsFromMongoDB PerLoop restart_clock (Some docs) true emptyMemory in
  ActiveJobs m !! "job-a" = Some 0%nat
  /\ ActiveJobs m !! "job-b" = Some 0%nat
  /\ lookup_job m "job-a" = Some (markFailed jobB 1001)
  /\ lookup_job m "job-b" = Some (markFailed jobB 1001)
  /\ store_after m docs = [jobA; markFailed jobB 1001].
Proof. vm_compute. repeat split. Qed.

End RecoveryTheorems.
(** ** Go strings: prefixes and slices *)

Module StringFacts.
Import GoString.

Lemma prefix_app (p s : string) : String.prefix p (p +:+ s) = true.
Proof.
  induction p as [|c p IH]; simpl; [destruct s; reflexivity|].
  destruct (ascii_dec c c); [exact IH|contradiction].
Qed.

Lemma substring_all (s : string) : String.substring 0 (String.length s) s = s.
Proof. induction s as [|c s IH]; simpl; [reflexivity|]. rewrite IH. reflexivity. Qed.

Lemma slice_from_app (p s : string) : slice_from (String.length p) (p +:+ s) = s.
Proof.
  unfold slice_from. induction p as [|c p IH]; simpl.
  - rewrite Nat.sub_0_r. apply substring_all.
  - exact IH.
Qed.

Lemma prefix_split (p s : string) :
  String.prefix p s = true -> s = p +:+ slice_from (String.length p) s.
Proof.
  unfold slice_from. revert s. induction p as [|c p IH]; intros s; simpl.
  - intros _. rewrite Nat.sub_0_r, substring_all. reflexivity.
  - destruct s as [|d s]; simpl; [discriminate|].
    destruct (ascii_dec c d) as [E|]; [subst d|discriminate].
    intros Hp. change (String c s = String c (p +:+
      String.substring (String.length p) (String.length s - String.length p) s)).
    f_equal. apply IH, Hp.
Qed.

Lemma HasPrefix_app (p s : string) : HasPrefix (p +:+ s) p = true.
Proof. apply prefix_app. Qed.

Lemma Contains_app_r (s t sub : string) :
  Stealth.Contains t sub = true -> Stealth.Contains (s +:+ t) sub = true.
Proof.
  intros Ht. induction s as [|c s IH]; [exact Ht|].
  change (String c s +:+ t) with (String c (s +:+ t)).
  cbn [Stealth.Contains]. rewrite IH. apply orb_true_r.
Qed.

End StringFacts.

(** ** API-key middleware *)

Module MiddlewareTheorems.
Import GoString Middleware StringFacts.

(** The requests the middleware lets through unchecked. *)
Definition bypasses (r : Request) : Prop :=
  Method r = "OPTIONS" \/ Path r = "/" \/ Path r = "/health"
  \/ HasPrefix (Path r) "/notforhumans/" = true
  \/ HasPrefix (Path r) "/ws/" = true.

Lemma bypasses_spec (r : Request) :
  String.eqb (Method r) "OPTIONS" || String.eqb (Path r) "/"
  || String.eqb (Path r) "/health"
  || HasPrefix (Path r) "/notforhumans/"
  || HasPrefix (Path r) "/ws/" = true <-> bypasses r.
Proof.
  unfold bypasses. rewrite !orb_true_iff, !String.eqb_eq. tauto.
Qed.

Lemma getAPIKey_nonempty (env : string) : getAPIKey env <> "".
Proof.
  unfold getAPIKey. destruct (String.eqb_spec env ""); simpl; [discriminate|assumption].
Qed.

Lemma TrimPrefix_app (p s : string) : TrimPrefix (p +:+ s) p = s.
Proof. unfold TrimPrefix. rewrite HasPrefix_app. apply slice_from_app. Qed.

(** X1. Whatever the environment sets as [API_KEY], a request passes the
    middleware when it carries the configured key in the [X-API-Key]
    header, or, with no [X-API-Key] header, in the [Authorization] header
    after [Bearer ], or bare in the [Authorization] header (provided the
    key itself does not start with [Bearer ]). *)
Theorem api_key_accepted_forms {A : Type} (env : string) (next : Request -> A)
    (r : Request) :
  let API_KEY := getAPIKey env in
  XAPIKey r = API_KEY
  \/ (XAPIKey r = "" /\ Authorization r = "Bearer " +:+ API_KEY)
  \/ (XAPIKey r = "" /\ Authorization r = API_KEY /\ HasPrefix API_KEY "Bearer " = false) ->
  APIKeyMiddleware API_KEY next r = Next (next r).
Proof.
  intros API_KEY Hforms. pose proof (getAPIKey_nonempty env) as Hne.
  fold API_KEY in Hne. clearbody API_KEY.
  unfold APIKeyMiddleware, IsValidAPIKey.
  destruct (_ || _ || _ || _ || _); [reflexivity|].
  destruct Hforms as [Hx|[[Hx Ha]|(Hx & Ha & Hb)]].
  - rewrite Hx. destruct (String.eqb_spec API_KEY ""); [contradiction|].
    rewrite String.eqb_refl. reflexivity.
  - rewrite Hx, Ha. cbn [String.eqb]. rewrite HasPrefix_app, TrimPrefix_app.
    rewrite String.eqb_refl. reflexivity.
  - rewrite Hx, Ha, Hb. cbn [String.eqb]. rewrite String.eqb_refl. reflexivity.
Qed.

(** A POST /crawl with [Authorization: Bearer s3cret] passes when the
    environment sets [API_KEY=s3cret]. *)
Lemma api_key_accepted_forms_witness :
  APIKeyMiddleware "s3cret" (fun r => Path r)
    {| Method := "POST"; Path := "/crawl"; XAPIKey := "";
       Authorization := "Bearer s3cret" |}
  = Next "/crawl".
Proof.
  apply (api_key_accepted_forms "s3cret" (fun r => Path r)
           {| Method := "POST"; Path := "/crawl"; XAPIKey := "";
              Authorization := "Bearer s3cret" |}).
  right. left. split; reflexivity.
Defined.

(** X2. A request that carries neither header reaches the next handler
    exactly when it is one the middleware lets through unchecked (method
    OPTIONS, path [/] or [/health], or a path below [/notforhumans/] or
    [/ws/]); otherwise it is answered 401, whatever the environment sets
    as [API_KEY].  A non-empty [X-API-Key] that is wrong is answered 401
    on such a route even when [Authorization] carries the right key. *)
Theorem missing_or_wrong_key_rejected {A : Type} (env : string) (next : Request -> A)
    (r : Request) :
  let API_KEY := getAPIKey env in
  (XAPIKey r = "" -> Authorization r = "" ->
   (APIKeyMiddleware API_KEY next r = Next (next r) <-> bypasses r)
   /\ (~ bypasses r -> APIKeyMiddleware API_KEY next r = Answered 401 unauthorizedBody))
  /\ (XAPIKey r <> "" -> XAPIKey r <> API_KEY -> ~ bypasses r ->
      APIKeyMiddleware API_KEY next r = Answered 401 unauthorizedBody).
Proof.
  intros API_KEY. pose proof (getAPIKey_nonempty env) as Hne. fold API_KEY in Hne.
  pose proof (bypasses_spec r) as Hb.
  unfold APIKeyMiddleware, IsValidAPIKey.
  destruct (_ || _ || _ || _ || _).
  - split.
    + intros _ _. split; [split; [intros _; apply Hb; reflexivity|reflexivity]|].
      intros Hn. exfalso. apply Hn, Hb. reflexivity.
    + intros _ _ Hn. exfalso. apply Hn, Hb. reflexivity.
  - assert (Hnb : ~ bypasses r) by (intros H; apply Hb in H; discriminate).
    split.
    + intros Hx Ha. rewrite Hx, Ha. clearbody API_KEY.
      destruct API_KEY as [|c k]; [contradiction|]. cbn.
      split; [|reflexivity]. split; [discriminate|contradiction].
    + intros Hx Hk _.
      destruct (String.eqb_spec (XAPIKey r) "") as [|_]; [contradiction|].
      destruct (String.eqb_spec (XAPIKey r) API_KEY) as [|_]; [contradiction|].
      reflexivity.
Qed.

End MiddlewareTheorems.

(** ** POST /crawl and job polling *)

Module HandlerFacts.
Import GoString Utils Crawler Handlers OrchestratorFacts Run.

Section Facts.
Context {W : Type} `{Utils.Net W} `{Site W} `{Runtime W}.

(** The job record [HandleCrawl] creates for [req] under [jobID]. *)
Definition new_job (req : CrawlRequest) (jobID : string) (created updated : Z) : JobStatus :=
  {| jID := jobID; Status := "running"; Progress := "Starting crawl...";
     Result := None; jError := ""; CreatedAt := created; UpdatedAt := updated;
     Request := Some (applyDefaults req) |}.

Definition accepted (req : CrawlRequest) (jobID : string) (created updated : Z) : Accepted :=
  {| response := {| respJobID := jobID; respStatus := "accepted";
                    respMessage := "Crawl job started successfully" |};
     job := new_job req jobID created updated;
     request := applyDefaults req |}.

Lemma applyDefaults_JobID' (req : CrawlRequest) : JobID (applyDefaults req) = JobID req.
Proof. reflexivity. Qed.

(** An accepted request: where its id comes from and what it leaves. *)
Lemma HandleCrawl_accept (body : option CrawlRequest) (jobs : gmap string JobStatus)
    (w : W) (a : Accepted) :
  fst (value (HandleCrawl body jobs) w) = HTTPOk a ->
  exists req jobID created updated,
    body = Some req
    /\ Models.URL req <> ""
    /\ (JobID req <> "" /\ jobID = JobID req /\ isValidJobID jobID = true
        /\ jobs !! jobID = None
        \/ JobID req = "" /\ jobID = fst (NewObjectID w))
    /\ a = accepted req jobID created updated
    /\ snd (value (HandleCrawl body jobs) w) = <[jobID := job a]> jobs
    /\ trace (HandleCrawl body jobs) w = [StoreInsert (job a); Lock; MemWrite (job a); Unlock].
Proof.
  unfold HandleCrawl. destruct body as [req|]; [|rewrite value_ret; discriminate].
  destruct (String.eqb_spec (Models.URL req) "") as [|Hurl];
    [rewrite value_ret; discriminate|].
  rewrite applyDefaults_JobID'.
  destruct (String.eqb_spec (JobID req) "") as [Hid|Hid]; simpl negb; cbv iota.
  - autorewrite with run. simpl. intros [= <-].
    eexists req, _, _, _. split; [reflexivity|]. split; [exact Hurl|].
    split; [right; split; [exact Hid|reflexivity]|].
    split; [reflexivity|]. split; reflexivity.
  - destruct (isValidJobID (JobID req)) eqn:Hv; simpl negb; cbv iota;
      [|rewrite value_ret; discriminate].
    case_bool_decide as Hin; [rewrite value_ret; discriminate|].
    autorewrite with run. simpl. intros [= <-].
    eexists req, _, _, _. split; [reflexivity|]. split; [exact Hurl|].
    split.
    { left. split; [exact Hid|]. split; [reflexivity|]. split; [exact Hv|].
      destruct (jobs !! JobID req) eqn:E; [|reflexivity].
      exfalso. apply Hin. eauto. }
    split; [reflexivity|]. split; reflexivity.
Qed.

(** A refused request changes nothing. *)
Lemma HandleCrawl_refuse (body : option CrawlRequest) (jobs : gmap string JobStatus)
    (w : W) (code : Z) (msg : string) :
  fst (value (HandleCrawl body jobs) w) = HTTPError code msg ->
  HandleCrawl body jobs w = (HTTPError code msg, jobs, w, [])
  /\ (code = 400 \/ code = 409).
Proof.
  unfold HandleCrawl. destruct body as [req|].
  2:{ rewrite value_ret. intros [= <- <-]. split; [reflexivity|auto]. }
  destruct (String.eqb (Models.URL req) "").
  { rewrite value_ret. intros [= <- <-]. split; [reflexivity|auto]. }
  destruct (negb (String.eqb (JobID (applyDefaults req)) "")).
  - destruct (negb (isValidJobID _)).
    { rewrite value_ret. intros [= <- <-]. split; [reflexivity|auto]. }
    case_bool_decide.
    { rewrite value_ret. intros [= <- <-]. split; [reflexivity|auto]. }
    autorewrite with run. simpl. discriminate.
  - autorewrite with run. simpl. discriminate.
Qed.

(** A request naming an id that is in the map is refused with 409. *)
Lemma HandleCrawl_conflict (req : CrawlRequest) (jobs : gmap string JobStatus) (w : W) :
  Models.URL req <> "" -> isValidJobID (JobID req) = true -> JobID req <> "" ->
  is_Some (jobs !! JobID req) ->
  HandleCrawl (Some req) jobs w = (HTTPError 409 jobExistsMessage, jobs, w, []).
Proof.
  intros Hurl Hv Hid Hin. unfold HandleCrawl.
  destruct (String.eqb_spec (Models.URL req) ""); [contradiction|].
  rewrite applyDefaults_JobID'.
  destruct (String.eqb_spec (JobID req) ""); [contradiction|]. simpl negb. cbv iota.
  rewrite Hv. simpl negb. cbv iota.
  case_bool_decide; [reflexivity|contradiction].
Qed.

Lemma second_stage_TotalURLs (a : string) (cfg : CrawlRequest) (j : string)
    (all : list string) (w : W) :
  TotalURLs (value (second_stage a cfg j all) w)
  = slen (URLs (value (second_stage a cfg j all) w)).
Proof. unfold second_stage. rewrite !value_bind, value_ret. reflexivity. Qed.

Lemma CrawlWebsiteWithTiers_Err (fuel : nat) (t : string) (cfg : CrawlRequest)
    (j e : string) (w : W) :
  value (CrawlWebsiteWithTiers fuel t cfg j) w = Some (Err e) ->
  exists err, e = "URL and all fallbacks are inaccessible: " +:+ err.
Proof.
  unfold CrawlWebsiteWithTiers. rewrite value_bind.
  destruct (value (first_stage fuel t cfg j) w) as [err| |a all].
  - rewrite value_ret. intros [= <-]. eauto.
  - rewrite value_ret. discriminate.
  - rewrite value_bind, value_ret. discriminate.
Qed.

End Facts.

End HandlerFacts.

Module HandlerTheorems.
Import GoString Utils Crawler Handlers Jobs OrchestratorFacts HandlerFacts Run.

Ltac branches :=
  repeat match goal with
         | |- context [?a >? ?b] => destruct (Z.gtb_spec a b)
         | |- context [?a =? ?b] => destruct (Z.eqb_spec a b)
         | |- context [String.eqb ?a ?b] => destruct (String.eqb_spec a b)
         | H : context [?a >? ?b] |- _ => destruct (Z.gtb_spec a b)
         | H : context [?a =? ?b] |- _ => destruct (Z.eqb_spec a b)
         end.

(** X3. The defaults of [HandleCrawl] are stable: applying them twice gives
    what applying them once gives; afterwards depth, workers and headless
    timeout are not zero and the delay is not empty; the URL, the job id
    and the tier flags are those of the request. *)
Theorem applyDefaults_stable (req : CrawlRequest) :
  applyDefaults (applyDefaults req) = applyDefaults req
  /\ Depth (applyDefaults req) <> 0
  /\ Workers (applyDefaults req) <> 0
  /\ Delay (applyDefaults req) <> ""
  /\ HeadlessTimeout (applyDefaults req) <> 0
  /\ Models.URL (applyDefaults req) = Models.URL req
  /\ JobID (applyDefaults req) = JobID req
  /\ EnableSitemap (applyDefaults req) = EnableSitemap req
  /\ EnableHTML (applyDefaults req) = EnableHTML req
  /\ EnableHeadless (applyDefaults req) = EnableHeadless req.
Proof.
  split.
  - destruct req as [u j d k dl m es eh el ht wj]. unfold applyDefaults. simpl.
    f_equal; branches; try reflexivity; try lia; try congruence.
  - unfold applyDefaults. simpl.
    repeat split; branches; try lia; try congruence.
Qed.

(** X4. A request [HandleCrawl] refuses is answered 400 or 409 and leaves
    nothing behind: the map of active jobs is unchanged, nothing is
    written to the store, no clock or id is drawn. *)
Theorem refused_crawl_creates_no_job {W : Type} `{Runtime W}
    (body : option CrawlRequest) (jobs : gmap string JobStatus) (w : W)
    (code : Z) (msg : string) :
  fst (value (HandleCrawl body jobs) w) = HTTPError code msg ->
  (code = 400 \/ code = 409)
  /\ snd (value (HandleCrawl body jobs) w) = jobs
  /\ world (HandleCrawl body jobs) w = w
  /\ trace (HandleCrawl body jobs) w = [].
Proof.
  intros Hr. destruct (HandleCrawl_refuse body jobs w code msg Hr) as [E Hc].
  unfold value, world, trace. rewrite E. auto.
Qed.

(** A body that is not JSON is answered 400 and leaves the registry as
    it was. *)
Lemma refused_crawl_creates_no_job_witness :
  snd (fst (fst Scenarios.undecodable_reply)) = Scenarios.registered.
Proof.
  refine (proj1 (proj2 (@refused_crawl_creates_no_job Z SitemapSite.runtime None
                          Scenarios.registered 2 400 "Invalid JSON" _))).
  reflexivity.
Defined.

(** X5. An accepted request is registered under the id of the response:
    the record is [running], without result or error, handed once to the
    store and written once to memory; every other entry of the map is
    untouched;
    and a poll of that id returns the record from memory without
    consulting the store. *)
Theorem accepted_job_is_polled {W : Type} `{Runtime W}
    (body : option CrawlRequest) (jobs : gmap string JobStatus) (w : W) (a : Accepted)
    (GetJobFromMongoDB : string -> result JobStatus) :
  fst (value (HandleCrawl body jobs) w) = HTTPOk a ->
  let jobs' := snd (value (HandleCrawl body jobs) w) in
  let id := respJobID (response a) in
  jID (job a) = id
  /\ Status (job a) = "running"
  /\ Result (job a) = None
  /\ jError (job a) = ""
  /\ Request (job a) = Some (request a)
  /\ HandleJobStatus id jobs' GetJobFromMongoDB = HTTPOk (job a)
  /\ (forall other, other <> id ->
        HandleJobStatus other jobs' GetJobFromMongoDB
        = HandleJobStatus other jobs GetJobFromMongoDB)
  /\ trace (HandleCrawl body jobs) w = [StoreInsert (job a); Lock; MemWrite (job a); Unlock].
Proof.
  intros Ha jobs' id.
  destruct (HandleCrawl_accept body jobs w a Ha)
    as (req & jobID & created & updated & -> & Hurl & Hid & -> & Hjobs & Htr).
  subst jobs' id. rewrite Hjobs. simpl.
  repeat split; try assumption.
  - unfold HandleJobStatus. rewrite lookup_insert_eq. reflexivity.
  - intros other Hne. unfold HandleJobStatus.
    rewrite lookup_insert_ne by congruence. reflexivity.
Qed.

(** The request for the example site is registered as [running]. *)
Lemma accepted_job_is_polled_witness :
  Status (new_job (SitemapSite.body 100) "docs-crawl" 0 1) = "running".
Proof.
  refine (proj1 (proj2 (@accepted_job_is_polled Z SitemapSite.runtime
                          (Some (SitemapSite.body 100)) ∅ 0
                          (accepted (SitemapSite.body 100) "docs-crawl" 0 1)
                          (fun _ => Err "mongo: no documents in result") _))).
  vm_compute. reflexivity.
Defined.

(** X6. Once a request with a custom job id has been accepted, every
    further request with that job id (and a URL) is refused with 409 for
    as long as the id is in the map, and changes nothing. *)
Theorem duplicate_job_id_conflict {W : Type} `{Runtime W}
    (req req' : CrawlRequest) (jobs : gmap string JobStatus) (w w' : W) (a : Accepted) :
  fst (value (HandleCrawl (Some req) jobs) w) = HTTPOk a ->
  JobID req <> "" -> JobID req' = JobID req -> Models.URL req' <> "" ->
  HandleCrawl (Some req') (snd (value (HandleCrawl (Some req) jobs) w)) w'
  = (HTTPError 409 jobExistsMessage, snd (value (HandleCrawl (Some req) jobs) w), w', []).
Proof.
  intros Ha Hid Hsame Hurl.
  destruct (HandleCrawl_accept (Some req) jobs w a Ha)
    as (req0 & jobID & created & updated & [= <-] & _ & Hfrom & -> & Hjobs & _).
  destruct Hfrom as [(_ & -> & Hv & _)|[Hempty _]]; [|contradiction].
  rewrite Hjobs. apply HandleCrawl_conflict.
  - exact Hurl.
  - rewrite Hsame. exact Hv.
  - rewrite Hsame. exact Hid.
  - rewrite Hsame, lookup_insert_eq. eauto.
Qed.

(** A second request for [docs-crawl] is refused. *)
Lemma duplicate_job_id_conflict_witness :
  Scenarios.second_reply = (HTTPError 409 jobExistsMessage, Scenarios.registered, 2, []).
Proof.
  refine (@duplicate_job_id_conflict Z SitemapSite.runtime (SitemapSite.body 100)
            (SitemapSite.body 5) ∅ 0 2
            (accepted (SitemapSite.body 100) "docs-crawl" 0 1) _ _ _ _).
  - vm_compute. reflexivity.
  - discriminate.
  - reflexivity.
  - discriminate.
Defined.

(** X7. A request with a URL and without a job id is always accepted:
    the id the generator returns is neither validated nor checked against
    the registry, so a record already registered under that id is
    replaced by the new one. *)
Theorem generated_id_always_accepted {W : Type} `{Runtime W}
    (req : CrawlRequest) (jobs : gmap string JobStatus) (w : W) :
  Models.URL req <> "" -> JobID req = "" ->
  exists a,
    fst (value (HandleCrawl (Some req) jobs) w) = HTTPOk a
    /\ respJobID (response a) = fst (NewObjectID w)
    /\ snd (value (HandleCrawl (Some req) jobs) w) !! fst (NewObjectID w) = Some (job a).
Proof.
  intros Hurl Hid. unfold HandleCrawl.
  destruct (String.eqb_spec (Models.URL req) ""); [contradiction|].
  rewrite applyDefaults_JobID', Hid. simpl negb. cbv iota.
  autorewrite with run. simpl. eexists. split; [reflexivity|].
  split; [reflexivity|]. apply lookup_insert_eq.
Qed.

(** The generator returns the id of a registered job; the request is
    accepted under it. *)
Lemma generated_id_always_accepted_witness :
  exists a,
    fst (fst (fst Scenarios.anonymous_reply)) = HTTPOk a
    /\ respJobID (response a) = "65f1a2b3c4d5e6f708192a3b"
    /\ is_Some (Scenarios.taken !! "65f1a2b3c4d5e6f708192a3b").
Proof.
  destruct (@generated_id_always_accepted Z SitemapSite.runtime Scenarios.anonymous
              Scenarios.taken 0) as (a & Ha & Hid & _).
  - discriminate.
  - reflexivity.
  - exists a. split; [exact Ha|]. split; [exact Hid|].
    unfold Scenarios.taken. rewrite lookup_singleton_eq. eauto.
Defined.

Lemma ends_with_app (suffix t1 t2 : list Action) :
  (exists pre, t2 = pre ++ suffix) -> exists pre, t1 ++ t2 = pre ++ suffix.
Proof. intros [pre ->]. exists (t1 ++ pre). apply app_assoc. Qed.

(** X8. The record the crawl goroutine leaves: id, progress text, creation
    time and request are those of the record it was given; it is either
    [completed], with a result that has an id and whose total is the
    length of its URL list, or [failed], with the reachability error and
    no new result; and the last writes of the run put that same record in
    memory and in the store. *)
Theorem goroutine_final_record {W : Type} `{Utils.Net W} `{Site W} `{Runtime W}
    (fuel : nat) (req : CrawlRequest) (jobID : string) (job final : JobStatus) (w : W) :
  value (crawl_goroutine fuel req jobID job) w = Some final ->
  jID final = jID job /\ Progress final = Progress job
  /\ CreatedAt final = CreatedAt job /\ Request final = Request job
  /\ ((Status final = "completed" /\ jError final = jError job
       /\ exists r, Result final = Some r /\ is_Some (rID r)
                    /\ TotalURLs r = slen (URLs r))
      \/ (Status final = "failed" /\ Result final = Result job
          /\ exists err,
               jError final = "URL and all fallbacks are inaccessible: " +:+ err))
  /\ exists pre,
       trace (crawl_goroutine fuel req jobID job) w
       = pre ++ [MemWrite final; StoreUpdate final; Unlock].
Proof.
  unfold crawl_goroutine. rewrite value_bind, value_bind, trace_bind, trace_bind.
  set (w0 := world (publish (event "progress" jobID "")) w).
  destruct (value (CrawlWebsiteWithTiers fuel (Models.URL req) req jobID) w0)
    as [[res|e]|] eqn:Hc; [| |rewrite value_ret; discriminate].
  - destruct (CrawlWebsiteWithTiers_Ok fuel _ req jobID res w0 Hc) as (a0 & all & _ & Hres).
    generalize (world (CrawlWebsiteWithTiers fuel (Models.URL req) req jobID) w0) as w1.
    intros w1. autorewrite with run. intros [= <-]. cbn [app].
    split; [reflexivity|]. split; [reflexivity|]. split; [reflexivity|].
    split; [reflexivity|]. split.
    + left. split; [reflexivity|]. split; [reflexivity|].
      eexists. split; [reflexivity|]. split; [simpl; eauto|].
      simpl. rewrite Hres. apply second_stage_TotalURLs.
    + do 2 apply ends_with_app. exists [Lock; MemWrite (withStatus job "completed");
        MemWrite (withResult (withStatus job "completed")
                    (withResultID res (fst (NewObjectID w1))));
        Publish (event_total "completed" jobID "" (slen (URLs res)))].
      reflexivity.
  - destruct (CrawlWebsiteWithTiers_Err fuel _ req jobID e w0 Hc) as [err ->].
    generalize (world (CrawlWebsiteWithTiers fuel (Models.URL req) req jobID) w0) as w1.
    intros w1. autorewrite with run. intros [= <-]. cbn [app].
    split; [reflexivity|]. split; [reflexivity|]. split; [reflexivity|].
    split; [reflexivity|]. split.
    + right. split; [reflexivity|]. split; [reflexivity|]. eauto.
    + do 2 apply ends_with_app. eexists [Lock; MemWrite _; MemWrite _].
      reflexivity.
Qed.

(** The goroutine of the example job keeps the id and the progress text
    of the record it was given. *)
Lemma goroutine_final_record_witness :
  jID Scenarios.final_job = "docs-crawl"
  /\ Progress Scenarios.final_job = "Starting crawl...".
Proof.
  destruct (@goroutine_final_record Z SitemapSite.net SitemapSite.site
              SitemapSite.runtime 2 (applyDefaults (SitemapSite.body 100))
              "docs-crawl" SitemapSite.job Scenarios.final_job 2) as (H1 & H2 & _).
  - vm_compute. reflexivity.
  - split; assumption.
Defined.

End HandlerTheorems.

(** ** Reachability prober: the requests it makes *)

Module ProbeTheorems.
Import GoString Utils Run ProberTheorems.

Section Facts.
Context {W : Type} `{Net W}.

Lemma CheckURLAccessibility_trace (c : string) (w : W) :
  trace (CheckURLAccessibility c) w
  = match url_Parse c with Ok _ => [Probe c] | Err _ => [] end.
Proof.
  unfold CheckURLAccessibility. destruct (url_Parse c); [|reflexivity].
  rewrite !trace_bind, trace_emit, trace_ask.
  destruct (value (ask (http_Do c)) _) as [[code status]|e]; [|reflexivity].
  destruct (_ && _); [reflexivity|]. destruct (code =? 403); reflexivity.
Qed.

Lemma CheckURLAccessibility_sublist (c : string) (w : W) :
  trace (CheckURLAccessibility c) w `sublist_of` [Probe c].
Proof.
  rewrite CheckURLAccessibility_trace. destruct (url_Parse c); [reflexivity|].
  apply sublist_nil_l.
Qed.

Lemma CheckURLAccessibility_unparsed (c e : string) (w : W) :
  url_Parse c = Err e -> CheckURLAccessibility c w = (Some e, w, []).
Proof. intros E. unfold CheckURLAccessibility. rewrite E. reflexivity. Qed.

Lemma try_fallbacks_sublist (o : string) (info : URLFallback) (fs : list string) (w : W) :
  trace (try_fallbacks o info fs) w `sublist_of` map Probe fs.
Proof.
  revert w. induction fs as [|c rest IH]; intros w; simpl; [reflexivity|].
  rewrite trace_bind.
  change (Probe c :: map Probe rest) with ([Probe c] ++ map Probe rest).
  apply sublist_app; [apply CheckURLAccessibility_sublist|].
  destruct (value (CheckURLAccessibility c) w); [apply IH|].
  rewrite trace_ret. apply sublist_nil_l.
Qed.

Lemma try_fallbacks_error (o : string) (info : URLFallback) (fs : list string) (w : W) :
  fbError (snd (value (try_fallbacks o info fs) w)) = fbError info.
Proof.
  revert w. induction fs as [|c rest IH]; intros w; simpl; [reflexivity|].
  rewrite value_bind. destruct (value (CheckURLAccessibility c) w); [apply IH|].
  reflexivity.
Qed.

Lemma GenerateFallbackURLs_length (o : string) :
  (length (GenerateFallbackURLs o) <= 3)%nat.
Proof.
  unfold GenerateFallbackURLs. destruct (url_Parse o) as [u|]; [|simpl; lia].
  destruct (HasPrefix (Host u) "www."); destruct (String.eqb (Scheme u) "http");
    simpl; lia.
Qed.

End Facts.

(** X9. The prober calls [client.Do] only for its candidates, in the
    order of the candidate list and for none of them twice, so it makes
    at most four such calls ([Probe] is one call of [client.Do]; within
    it the client follows up to five redirects, which are requests of the
    client and not of the prober, and are not counted here); a URL that
    does not parse is answered without any call; and when no candidate is
    reachable the error reported is the one of the original URL, not of
    the fallback tried last. *)
Theorem FindAccessibleURL_requests {W : Type} `{Net W}
    (originalURL jobID : string) (w : W) :
  let m := FindAccessibleURL originalURL jobID in
  trace m w `sublist_of` map Probe (originalURL :: GenerateFallbackURLs originalURL)
  /\ (length (trace m w) <= 4)%nat
  /\ (forall e, url_Parse originalURL = Err e ->
        m w = (originalURL,
               {| OriginalURL := originalURL; FallbackURL := originalURL;
                  Success := false; fbError := e |}, w, []))
  /\ (Success (snd (value m w)) = false ->
      value (CheckURLAccessibility originalURL) w = Some (fbError (snd (value m w)))).
Proof.
  intros m.
  assert (Hsub : trace m w `sublist_of`
                 map Probe (originalURL :: GenerateFallbackURLs originalURL)).
  { subst m. unfold FindAccessibleURL. rewrite trace_bind.
    change (map Probe (originalURL :: ?l)) with ([Probe originalURL] ++ map Probe l).
    apply sublist_app; [apply CheckURLAccessibility_sublist|].
    destruct (value (CheckURLAccessibility originalURL) w);
      [apply try_fallbacks_sublist|].
    rewrite trace_ret. apply sublist_nil_l. }
  split; [exact Hsub|]. split.
  { apply sublist_length in Hsub. rewrite length_map in Hsub. simpl in Hsub.
    pose proof (GenerateFallbackURLs_length originalURL). lia. }
  split.
  - intros e E. subst m. unfold FindAccessibleURL, mbind, M_bind, bind.
    rewrite (CheckURLAccessibility_unparsed _ _ _ E).
    unfold GenerateFallbackURLs. rewrite E. reflexivity.
  - subst m. unfold FindAccessibleURL. rewrite value_bind.
    destruct (value (CheckURLAccessibility originalURL) w) as [e|] eqn:E.
    + intros _. rewrite try_fallbacks_error. reflexivity.
    + rewrite value_ret. discriminate.
Qed.

End ProbeTheorems.

(** ** Deduplication and the hosts of the walker *)

Module DedupFacts.
Import GoString Utils Crawler CrawlerFacts StringFacts.

Definition tracks (seen : gmap string bool) (unique : list string) : Prop :=
  forall u, default false (seen !! u) = true <-> u ∈ unique.

Lemma tracks_empty : tracks ∅ [].
Proof. intros u. rewrite lookup_empty, elem_of_nil. simpl. split; [discriminate|tauto]. Qed.

Lemma tracks_insert (seen : gmap string bool) (unique : list string) (url : string) :
  tracks seen unique -> tracks (<[url := true]> seen) (unique ++ [url]).
Proof.
  intros Hs u. rewrite elem_of_app, list_elem_of_singleton.
  destruct (decide (u = url)) as [->|Hne].
  - rewrite lookup_insert_eq. simpl. tauto.
  - rewrite lookup_insert_ne by congruence. rewrite (Hs u). tauto.
Qed.

(** The loop appends to [unique], in order, the URLs it has not seen. *)
Lemma removeDuplicateURLs_loop_appends (urls : list string) :
  forall (seen : gmap string bool) (unique : list string),
    tracks seen unique ->
    exists new,
      removeDuplicateURLs_loop seen unique urls = unique ++ new
      /\ new `sublist_of` urls
      /\ (NoDup urls -> (forall u, u ∈ urls -> u ∉ unique) -> new = urls).
Proof.
  induction urls as [|url rest IH]; intros seen unique Hs; simpl.
  - exists []. rewrite app_nil_r. auto.
  - destruct (default false (seen !! url)) eqn:E; simpl negb; cbv iota.
    + destruct (IH seen unique Hs) as (new & -> & Hsub & _).
      exists new. split; [reflexivity|]. split; [apply sublist_cons, Hsub|].
      intros _ Hd. exfalso. apply (Hd url); [left|]. apply Hs, E.
    + destruct (IH _ _ (tracks_insert seen unique url Hs)) as (new & -> & Hsub & Hid).
      exists (url :: new). rewrite <- app_assoc. split; [reflexivity|].
      split; [apply sublist_skip, Hsub|].
      intros Hnd Hd. apply NoDup_cons in Hnd as [Hurl Hnd]. f_equal.
      apply Hid; [exact Hnd|]. intros u Hu.
      rewrite elem_of_app, list_elem_of_singleton. intros [Hin| ->].
      * apply (Hd u); [right; exact Hu|exact Hin].
      * contradiction.
Qed.

(** The loop over [urls ++ more] is the loop over [more] started from
    where the loop over [urls] ended. *)
Lemma removeDuplicateURLs_loop_app (urls more : list string) :
  forall (seen : gmap string bool) (unique : list string),
    tracks seen unique ->
    exists seen',
      tracks seen' (removeDuplicateURLs_loop seen unique urls)
      /\ removeDuplicateURLs_loop seen unique (urls ++ more)
         = removeDuplicateURLs_loop seen' (removeDuplicateURLs_loop seen unique urls) more.
Proof.
  induction urls as [|url rest IH]; intros seen unique Hs; simpl.
  - exists seen. auto.
  - destruct (negb (default false (seen !! url))).
    + apply IH, tracks_insert, Hs.
    + apply IH, Hs.
Qed.

Lemma removeDuplicateURLs_sublist (urls : list string) :
  removeDuplicateURLs urls `sublist_of` urls.
Proof.
  destruct (removeDuplicateURLs_loop_appends urls ∅ [] tracks_empty) as (new & E & Hs & _).
  unfold removeDuplicateURLs. rewrite E. exact Hs.
Qed.

Lemma removeDuplicateURLs_id (urls : list string) :
  NoDup urls -> removeDuplicateURLs urls = urls.
Proof.
  intros Hn.
  destruct (removeDuplicateURLs_loop_appends urls ∅ [] tracks_empty) as (new & E & _ & Hid).
  unfold removeDuplicateURLs. rewrite E. simpl. apply Hid; [exact Hn|].
  intros u _. apply not_elem_of_nil.
Qed.

(** Merging new URLs into a duplicate-free list keeps the list as a
    prefix. *)
Lemma removeDuplicateURLs_merge (all new : list string) :
  NoDup all ->
  exists extra,
    removeDuplicateURLs (all ++ new) = all ++ extra
    /\ extra `sublist_of` new
    /\ (forall u, u ∈ extra -> u ∉ all).
Proof.
  intros Hn.
  destruct (removeDuplicateURLs_loop_app all new ∅ [] tracks_empty) as (seen' & Ht & E).
  fold (removeDuplicateURLs all) in Ht, E. rewrite (removeDuplicateURLs_id all Hn) in Ht, E.
  destruct (removeDuplicateURLs_loop_appends new seen' all Ht) as (extra & E' & Hs & _).
  exists extra. unfold removeDuplicateURLs at 1. rewrite E, E'.
  split; [reflexivity|]. split; [exact Hs|].
  pose proof (removeDuplicateURLs_NoDup (all ++ new)) as Hnd.
  unfold removeDuplicateURLs in Hnd. rewrite E, E' in Hnd.
  apply NoDup_app in Hnd as (_ & Hd & _). intros u Hu Ha. apply (Hd u Ha Hu).
Qed.

Lemma filter_absent_twice (unique : list string) (url : string) (l : list string) :
  url ∈ unique ->
  filter (fun u => u ∉ unique) (filter (fun u => u <> url) l)
  = filter (fun u => u ∉ unique) l.
Proof.
  intros Hin. rewrite list_filter_filter. apply list_filter_iff.
  intros u. split; [tauto|]. intros Hu. split; [exact Hu|].
  intros ->. contradiction.
Qed.

(** The loop started with [unique] appends the first occurrences of
    [urls] that [unique] does not hold. *)
Lemma removeDuplicateURLs_loop_filter (urls : list string) :
  forall (seen : gmap string bool) (unique : list string),
    tracks seen unique ->
    removeDuplicateURLs_loop seen unique urls
    = unique ++ filter (fun u => u ∉ unique) (removeDuplicateURLs urls).
Proof.
  induction urls as [|url rest IH]; intros seen unique Hs.
  - simpl. rewrite app_nil_r. reflexivity.
  - unfold removeDuplicateURLs. simpl removeDuplicateURLs_loop at 2.
    rewrite lookup_empty. simpl negb. cbv iota.
    rewrite (IH _ [url] (tracks_insert ∅ [] url tracks_empty)).
    simpl removeDuplicateURLs_loop.
    destruct (default false (seen !! url)) eqn:E; simpl negb; cbv iota.
    + assert (Hin : url ∈ unique) by (apply Hs, E).
      rewrite (IH seen unique Hs). f_equal. cbn [app].
      rewrite filter_cons_False by (intros Hn; apply Hn, Hin).
      rewrite <- (filter_absent_twice unique url _ Hin). f_equal.
      apply list_filter_iff. intros u. rewrite list_elem_of_singleton. tauto.
    + assert (Hout : url ∉ unique).
      { intros Hin. apply Hs in Hin. congruence. }
      rewrite (IH _ _ (tracks_insert seen unique url Hs)).
      rewrite <- app_assoc. f_equal. cbn [app].
      rewrite filter_cons_True by exact Hout. f_equal.
      rewrite list_filter_filter. apply list_filter_iff.
      intros u. rewrite elem_of_app, !list_elem_of_singleton. tauto.
Qed.

Lemma removeDuplicateURLs_cons (url : string) (rest : list string) :
  removeDuplicateURLs (url :: rest)
  = url :: filter (fun u => u <> url) (removeDuplicateURLs rest).
Proof.
  unfold removeDuplicateURLs at 1. simpl. rewrite lookup_empty. simpl.
  rewrite (removeDuplicateURLs_loop_filter rest _ [url]
             (tracks_insert ∅ [] url tracks_empty)).
  cbn [app]. f_equal. apply list_filter_iff.
  intros u. rewrite list_elem_of_singleton. tauto.
Qed.

Lemma removeDuplicateURLs_app (urls more : list string) :
  removeDuplicateURLs (urls ++ more)
  = removeDuplicateURLs urls
    ++ filter (fun u => u ∉ removeDuplicateURLs urls) (removeDuplicateURLs more).
Proof.
  destruct (removeDuplicateURLs_loop_app urls more ∅ [] tracks_empty) as (seen' & Ht & E).
  unfold removeDuplicateURLs at 1. rewrite E.
  apply removeDuplicateURLs_loop_filter, Ht.
Qed.

(** A URL that occurred before is dropped where it occurs again. *)
Lemma removeDuplicateURLs_repeat (pre post : list string) (u : string) :
  u ∈ pre ->
  removeDuplicateURLs (pre ++ u :: post) = removeDuplicateURLs (pre ++ post).
Proof.
  intros Hin. rewrite !removeDuplicateURLs_app, removeDuplicateURLs_cons. f_equal.
  assert (Hu : u ∈ removeDuplicateURLs pre) by (apply removeDuplicateURLs_elem, Hin).
  rewrite filter_cons_False by (intros Hn; apply Hn, Hu).
  apply filter_absent_twice, Hu.
Qed.

(** The first occurrence of a URL stays, right after what the URLs before
    it leave. *)
Lemma removeDuplicateURLs_first (pre post : list string) (u : string) :
  u ∉ pre ->
  removeDuplicateURLs (pre ++ u :: post)
  = removeDuplicateURLs pre
    ++ u :: filter (fun v => v ∉ removeDuplicateURLs pre ++ [u]) (removeDuplicateURLs post).
Proof.
  intros Hout. rewrite removeDuplicateURLs_app, removeDuplicateURLs_cons. f_equal.
  assert (Hu : u ∉ removeDuplicateURLs pre).
  { intros Hin. apply Hout, removeDuplicateURLs_elem, Hin. }
  rewrite filter_cons_True by exact Hu. f_equal.
  rewrite list_filter_filter. apply list_filter_iff.
  intros v. rewrite elem_of_app, list_elem_of_singleton. tauto.
Qed.

End DedupFacts.

Module DedupTheorems.
Import GoString Utils Crawler CrawlerFacts DedupFacts StringFacts ProberTheorems.

(** X10. [removeDuplicateURLs] keeps the first occurrence of every URL and
    the order of the input: its result has no duplicates, holds exactly
    the URLs of the input, is a subsequence of it, and is the input
    itself when that has no duplicates (so running it twice changes
    nothing).  Which occurrence stays is fixed: a URL not met before
    stays where it is, right after what the URLs before it leave, and
    only URLs other than those follow it; a URL met before is dropped
    where it occurs again; so the head of the input heads the result and
    the rest is the result of the tail without that URL. *)
Theorem removeDuplicateURLs_first_occurrences (urls : list string) :
  NoDup (removeDuplicateURLs urls)
  /\ (forall u, u ∈ removeDuplicateURLs urls <-> u ∈ urls)
  /\ removeDuplicateURLs urls `sublist_of` urls
  /\ (NoDup urls -> removeDuplicateURLs urls = urls)
  /\ removeDuplicateURLs (removeDuplicateURLs urls) = removeDuplicateURLs urls
  /\ (forall pre u post, urls = pre ++ u :: post -> u ∉ pre ->
      removeDuplicateURLs urls
      = removeDuplicateURLs pre
        ++ u :: filter (fun v => v ∉ removeDuplicateURLs pre ++ [u])
                  (removeDuplicateURLs post))
  /\ (forall pre u post, urls = pre ++ u :: post -> u ∈ pre ->
      removeDuplicateURLs urls = removeDuplicateURLs (pre ++ post))
  /\ (forall u rest, urls = u :: rest ->
      removeDuplicateURLs urls
      = u :: filter (fun v => v <> u) (removeDuplicateURLs rest)).
Proof.
  split; [apply removeDuplicateURLs_NoDup|].
  split; [apply removeDuplicateURLs_elem|].
  split; [apply removeDuplicateURLs_sublist|].
  split; [apply removeDuplicateURLs_id|].
  split; [apply removeDuplicateURLs_id, removeDuplicateURLs_NoDup|].
  split; [intros pre u post -> Hu; apply removeDuplicateURLs_first, Hu|].
  split; [intros pre u post -> Hu; apply removeDuplicateURLs_repeat, Hu|].
  intros u rest ->. apply removeDuplicateURLs_cons.
Qed.

Lemma toggle_www_involutive (host : string) :
  HasPrefix host "www.www." = false -> toggle_www (toggle_www host) = host.
Proof.
  intros Hww. unfold toggle_www at 2.
  destruct (HasPrefix host "www.") eqn:Hw.
  - pose proof (prefix_split "www." host Hw) as E.
    change (String.length "www.") with 4%nat in E.
    set (t := slice_from 4 host) in *.
    assert (Ht : HasPrefix t "www." = false).
    { rewrite E in Hww. exact Hww. }
    unfold toggle_www. rewrite Ht. symmetry. exact E.
  - unfold toggle_www. rewrite (HasPrefix_app "www." host).
    apply (slice_from_app "www." host).
Qed.

(** X11. The walker admits the same hosts whether it starts from a host
    or from its [www.] sibling, provided the host does not begin with
    [www.www.]: the allowed domains of the one are those of the other. *)
Theorem allowedDomains_symmetric (host : string) :
  HasPrefix host "www.www." = false ->
  forall h, h ∈ allowedDomainsOf (toggle_www host) <-> h ∈ allowedDomainsOf host.
Proof.
  intros Hww h.
  assert (Ha : forall x, allowedDomainsOf x = [x; toggle_www x]).
  { intros x. unfold allowedDomainsOf, toggle_www.
    destruct (HasPrefix x "www."); reflexivity. }
  rewrite !Ha, (toggle_www_involutive host Hww), !elem_of_cons, !elem_of_nil. tauto.
Qed.

(** The hosts admitted from [www.example.com] are those admitted from
    [example.com]. *)
Lemma allowedDomains_symmetric_witness :
  "example.com" ∈ allowedDomainsOf (toggle_www "www.example.com")
  <-> "example.com" ∈ allowedDomainsOf "www.example.com".
Proof.
  apply (allowedDomains_symmetric "www.example.com"). reflexivity.
Defined.

End DedupTheorems.

(** ** The HTML walker: limit, stop flag and announcements *)

Module WalkerFacts.
Import GoString Utils Crawler CrawlerFacts Run.

(** The [url_discovered] events of a trace: URL and running total. *)
Definition discovered (t : list Action) : list (string * Z) :=
  omap (fun a => match a with
                 | PublishAsync e =>
                     if String.eqb (Type_ e) "url_discovered"
                     then Some (evURL e, Total e) else None
                 | _ => None
                 end) t.

(** The page counts announced by the [progress] events of a trace. *)
Definition page_counts (t : list Action) : list Z :=
  omap (fun a => match a with
                 | PublishAsync e => if PageCount e =? 0 then None else Some (PageCount e)
                 | _ => None
                 end) t.

(** [us] numbered from [n + 1] on. *)
Fixpoint number (n : Z) (us : list string) : list (string * Z) :=
  match us with
  | [] => []
  | u :: rest => (u, n + 1) :: number (n + 1) rest
  end.

Lemma discovered_app (t1 t2 : list Action) :
  discovered (t1 ++ t2) = discovered t1 ++ discovered t2.
Proof. apply omap_app. Qed.

Lemma page_counts_app (t1 t2 : list Action) :
  page_counts (t1 ++ t2) = page_counts t1 ++ page_counts t2.
Proof. apply omap_app. Qed.

(** The stop flag is set exactly when the limit is positive and reached. *)
Definition stop_inv (maxURLs : Z) (st : Walker) : Prop :=
  stopped st = true <-> 0 < maxURLs /\ slen (urlList st) = maxURLs.

Section Walk.
Context {W : Type} `{Net W} `{Site W}.

(** What the link callback does: nothing to the shared variables, or it
    records one new URL, silently when that URL reaches the limit. *)
Lemma onLink_cases (ds : list string) (depth maxURLs : Z) (j : string)
    (l : LinkSeen) (st : Walker) :
  let r := onLink ds depth maxURLs j l st in
  (fst r = st /\ discovered (snd r) = [] /\ page_counts (snd r) = [])
  \/ exists c,
       stopped st = false /\ slen (urlList st) < maxURLs
       /\ urlList (fst r) = urlList st ++ [c]
       /\ pagesCrawled (fst r) = pagesCrawled st
       /\ page_counts (snd r) = []
       /\ (slen (urlList st) + 1 >= maxURLs /\ stopped (fst r) = true
           /\ discovered (snd r) = []
           \/ slen (urlList st) + 1 < maxURLs /\ stopped (fst r) = false
              /\ discovered (snd r) = [(c, slen (urlList st) + 1)]).
Proof.
  unfold onLink.
  destruct (String.eqb (link l) "" || shouldSkipURL (link l)).
  { left. destruct (String.eqb (link l) ""); auto. }
  destruct (absolute l) as [linkURL|e]; [|left; auto].
  destruct (existsb (String.eqb (Host linkURL)) ds); [|left; auto].
  fold (canonical linkURL).
  destruct (negb (default false (foundURLs st !! canonical linkURL))
            && (slen (urlList st) <? maxURLs) && negb (stopped st)) eqn:Hc;
    [|left; auto].
  apply andb_prop in Hc as [Hc Hs]. apply andb_prop in Hc as [_ Hlt].
  apply negb_true_iff in Hs. apply Z.ltb_lt in Hlt.
  right. exists (canonical linkURL).
  assert (Hlen : slen (urlList st ++ [canonical linkURL]) = slen (urlList st) + 1).
  { unfold slen. rewrite length_app. simpl. lia. }
  rewrite Hlen.
  destruct (Z.geb_spec (slen (urlList st) + 1) maxURLs) as [Hge|Hnge]; simpl.
  - split; [assumption|]. split; [assumption|]. do 3 (split; [reflexivity|]).
    left. split; [lia|]. split; reflexivity.
  - split; [assumption|]. split; [assumption|]. do 3 (split; [reflexivity|]).
    right. split; [lia|]. split; [exact Hs|reflexivity].
Qed.

(** Once the flag is set no callback changes the shared variables,
    announces a URL or counts a page. *)
Lemma onCallback_stopped (ds : list string) (depth maxURLs : Z) (j : string)
    (cb : Callback) (st : Walker) :
  stopped st = true ->
  fst (onCallback ds depth maxURLs j cb st) = st
  /\ discovered (snd (onCallback ds depth maxURLs j cb st)) = []
  /\ page_counts (snd (onCallback ds depth maxURLs j cb st)) = [].
Proof.
  intros Hs. destruct cb; simpl.
  - rewrite Hs. auto.
  - auto.
  - destruct (depth0 =? 0); auto.
  - auto.
  - destruct (onLink_cases ds depth maxURLs j l st) as [Hsame|(c & Hns & _)];
      [exact Hsame|congruence].
Qed.

Lemma run_callbacks_stopped (ds : list string) (depth maxURLs : Z) (j : string)
    (cbs : list Callback) (st : Walker) :
  stopped st = true ->
  fst (run_callbacks ds depth maxURLs j cbs st) = st
  /\ discovered (snd (run_callbacks ds depth maxURLs j cbs st)) = []
  /\ page_counts (snd (run_callbacks ds depth maxURLs j cbs st)) = [].
Proof.
  intros Hs. induction cbs as [|cb cbs IH]; simpl; [auto|].
  destruct (onCallback_stopped ds depth maxURLs j cb st Hs) as (E1 & D1 & P1).
  destruct (onCallback ds depth maxURLs j cb st) as [st1 t1]. simpl in *. subst st1.
  destruct (run_callbacks ds depth maxURLs j cbs st) as [st2 t2]. simpl in *.
  destruct IH as (-> & D2 & P2).
  rewrite discovered_app, page_counts_app, D1, D2, P1, P2. auto.
Qed.

Lemma onCallback_stop_inv (ds : list string) (depth maxURLs : Z) (j : string)
    (cb : Callback) (st : Walker) :
  stop_inv maxURLs st -> stop_inv maxURLs (fst (onCallback ds depth maxURLs j cb st)).
Proof.
  intros Hinv. destruct cb; simpl; try exact Hinv.
  - destruct (stopped st) eqn:E; [exact Hinv|].
    unfold stop_inv in *. simpl. rewrite E in Hinv. exact Hinv.
  - destruct (onLink_cases ds depth maxURLs j l st)
      as [(-> & _)|(c & Hns & Hlt & Hl & _ & _ & Hcase)]; [exact Hinv|].
    unfold stop_inv. rewrite Hl.
    assert (Hlen : slen (urlList st ++ [c]) = slen (urlList st) + 1).
    { unfold slen. rewrite length_app. simpl. lia. }
    rewrite Hlen. assert (0 <= slen (urlList st)) by (unfold slen; lia).
    destruct Hcase as [(Hge & -> & _)|(Hl2 & -> & _)].
    + split; [intros _; lia|reflexivity].
    + split; [discriminate|lia].
Qed.

Lemma run_callbacks_stop_inv (ds : list string) (depth maxURLs : Z) (j : string)
    (cbs : list Callback) (st : Walker) :
  stop_inv maxURLs st -> stop_inv maxURLs (fst (run_callbacks ds depth maxURLs j cbs st)).
Proof.
  revert st. induction cbs as [|cb cbs IH]; intros st Hinv; simpl; [exact Hinv|].
  pose proof (onCallback_stop_inv ds depth maxURLs j cb st Hinv) as H1.
  destruct (onCallback ds depth maxURLs j cb st) as [st1 t1].
  specialize (IH st1 H1).
  destruct (run_callbacks ds depth maxURLs j cbs st1) as [st2 t2]. exact IH.
Qed.

(** What one callback does to a walker that has not stopped. *)
Lemma onCallback_cases (ds : list string) (depth maxURLs : Z) (j : string)
    (cb : Callback) (st : Walker) :
  stopped st = false ->
  let r := onCallback ds depth maxURLs j cb st in
  (urlList (fst r) = urlList st /\ stopped (fst r) = false /\ discovered (snd r) = [])
  \/ exists c,
       urlList (fst r) = urlList st ++ [c]
       /\ (stopped (fst r) = true /\ discovered (snd r) = []
           \/ stopped (fst r) = false
              /\ discovered (snd r) = [(c, slen (urlList st) + 1)]).
Proof.
  intros Hs. destruct cb; simpl.
  - rewrite Hs. simpl. left. auto.
  - left. auto.
  - left. destruct (depth0 =? 0); auto.
  - left. auto.
  - destruct (onLink_cases ds depth maxURLs j l st)
      as [(-> & D & _)|(c & _ & _ & Hl & _ & _ & Hcase)]; [left; auto|].
    right. exists c. split; [exact Hl|].
    destruct Hcase as [(_ & ? & ?)|(_ & ? & ?)]; auto.
Qed.

(** The URLs recorded by a run are those announced, numbered in order,
    followed by the one that reached the limit, if any. *)
Lemma run_callbacks_discovered (ds : list string) (depth maxURLs : Z) (j : string)
    (cbs : list Callback) :
  forall st, stopped st = false ->
    let r := run_callbacks ds depth maxURLs j cbs st in
    exists new extra,
      urlList (fst r) = urlList st ++ new ++ extra
      /\ discovered (snd r) = number (slen (urlList st)) new
      /\ (stopped (fst r) = false /\ extra = []
          \/ stopped (fst r) = true /\ length extra = 1%nat).
Proof.
  induction cbs as [|cb cbs IH]; intros st Hs; simpl.
  { exists [], []. rewrite app_nil_r. auto. }
  pose proof (onCallback_cases ds depth maxURLs j cb st Hs) as Hcb.
  pose proof (run_callbacks_stopped ds depth maxURLs j cbs) as Hfrozen.
  destruct (onCallback ds depth maxURLs j cb st) as [st1 t1]. simpl in Hcb.
  specialize (IH st1). specialize (Hfrozen st1).
  destruct (run_callbacks ds depth maxURLs j cbs st1) as [st2 t2]. simpl in *.
  rewrite discovered_app.
  destruct Hcb as [(Hl & Hs1 & D1)|(c & Hl & [(Hs1 & D1)|(Hs1 & D1)])].
  - destruct (IH Hs1) as (new & extra & Hl2 & D2 & Hst).
    exists new, extra. rewrite Hl2, Hl, D1, D2, Hl. auto.
  - destruct (Hfrozen Hs1) as (-> & D2 & _).
    exists [], [c]. rewrite Hl, D1, D2, Hs1. simpl. auto.
  - destruct (IH Hs1) as (new & extra & Hl2 & D2 & Hst).
    exists (c :: new), extra. rewrite Hl2, Hl, D1, D2, <- app_assoc. simpl.
    split; [reflexivity|]. split; [|exact Hst].
    do 2 f_equal. rewrite Hl. unfold slen. rewrite length_app. simpl. lia.
Qed.

(** A walk that returns: the collector ran from the reachable URL and its
    callbacks produced the result and, after the probes, the trace. *)
Lemma crawlWebsiteWithEvents_run (t : string) (depth workers : Z) (delay : string)
    (maxURLs : Z) (j : string) (res : CrawlResult) (w : W) :
  value (crawlWebsiteWithEvents t depth workers delay maxURLs j) w = Ok res ->
  exists parsed cbs,
    url_Parse (TargetURL res) = Ok parsed
    /\ let r := run_callbacks (allowedDomainsOf (Host parsed)) depth maxURLs j cbs
                  initialWalker in
       URLs res = urlList (fst r)
       /\ TotalURLs res = slen (URLs res)
       /\ trace (crawlWebsiteWithEvents t depth workers delay maxURLs j) w
          = trace (FindAccessibleURL t j) w ++ snd r.
Proof.
  unfold crawlWebsiteWithEvents. rewrite value_bind, trace_bind.
  destruct (value (FindAccessibleURL t j) w) as [a info].
  destruct (negb (Success info)); [rewrite value_ret; discriminate|].
  destruct (url_Parse a) as [parsed|e] eqn:Ep; [|rewrite value_ret; discriminate].
  rewrite value_bind, trace_bind, trace_ask.
  destruct (value (ask (colly_run a)) _) as [[e|] cbs]; [rewrite value_ret; discriminate|].
  intros Hv. exists parsed, cbs. revert Hv.
  destruct (run_callbacks _ depth maxURLs j cbs initialWalker) as [st tr].
  rewrite value_bind, value_ret, trace_bind, trace_for_each_emit, trace_ret, app_nil_r.
  intros [= <-]. simpl. auto.
Qed.

End Walk.

End WalkerFacts.

Module WalkerTheorems.
Import GoString Utils Crawler CrawlerFacts WalkerFacts Run.

(** X12. A walk that returns holds at most [max(0, maxURLs)] URLs, so none
    when [maxURLs] is zero or negative, and its [TotalURLs] is the length
    of its URL list. *)
Theorem walker_result_within_limit {W : Type} `{Net W} `{Site W}
    (targetURL : string) (depth workers : Z) (delayStr : string) (maxURLs : Z)
    (jobID : string) (res : CrawlResult) (w : W) :
  value (crawlWebsiteWithEvents targetURL depth workers delayStr maxURLs jobID) w = Ok res ->
  TotalURLs res = slen (URLs res)
  /\ slen (URLs res) <= Z.max 0 maxURLs
  /\ (maxURLs <= 0 -> URLs res = []).
Proof.
  intros Hv.
  destruct (crawlWebsiteWithEvents_run _ _ _ _ _ _ _ _ Hv) as (parsed & cbs & _ & Hu & Ht & _).
  pose proof (run_callbacks_ok (allowedDomainsOf (Host parsed)) depth maxURLs jobID cbs
                initialWalker (initialWalker_ok _ _)) as [_ _ Hlim _].
  rewrite <- Hu in Hlim. split; [exact Ht|]. split; [exact Hlim|].
  intros Hneg. destruct (URLs res) as [|u us]; [reflexivity|].
  unfold slen in Hlim. simpl in Hlim. lia.
Qed.

(** The walk of the example site with a limit of one URL records one. *)
Lemma walker_result_within_limit_witness :
  exists res, fst (fst Scenarios.walk) = Ok res /\ slen (URLs res) <= Z.max 0 1.
Proof.
  eexists. split; [vm_compute; reflexivity|].
  refine (proj1 (proj2 (@walker_result_within_limit Z SitemapSite.net SitemapSite.site
                          SitemapSite.seed 1 10 "200ms" 1 "docs-crawl" _ 0 _))).
  vm_compute. reflexivity.
Defined.

(** X13. Run from the initial state, the callbacks set the stop flag
    exactly when [maxURLs] is positive and that many URLs are recorded;
    and once the flag is set, no further callback records or announces a
    URL or counts a page. *)
Theorem walker_stops_at_limit {W : Type} `{Net W} `{Site W}
    (allowedDomains : list string) (depth maxURLs : Z) (jobID : string)
    (before after : list Callback) :
  let st := fst (run_callbacks allowedDomains depth maxURLs jobID before initialWalker) in
  let r := run_callbacks allowedDomains depth maxURLs jobID after st in
  (stopped st = true <-> 0 < maxURLs /\ slen (urlList st) = maxURLs)
  /\ (stopped st = true ->
      fst r = st /\ discovered (snd r) = [] /\ page_counts (snd r) = []).
Proof.
  intros st r. split.
  - apply (run_callbacks_stop_inv allowedDomains depth maxURLs jobID before initialWalker).
    unfold stop_inv. simpl. split; [discriminate|]. unfold slen. simpl. lia.
  - apply run_callbacks_stopped.
Qed.

(** X14. The URLs a run of the callbacks records are, in order, the URLs
    of the [url_discovered] events it issues (in the order of the [go]
    statements), whose totals count 1, 2, 3, ...,
    followed, when the run stopped at the limit, by one more URL: the one
    that reached the limit is recorded without being announced. *)
Theorem walker_announces_all_but_last {W : Type} `{Net W} `{Site W}
    (allowedDomains : list string) (depth maxURLs : Z) (jobID : string)
    (cbs : list Callback) :
  let r := run_callbacks allowedDomains depth maxURLs jobID cbs initialWalker in
  exists announced extra,
    urlList (fst r) = announced ++ extra
    /\ discovered (snd r) = number 0 announced
    /\ (stopped (fst r) = false /\ extra = []
        \/ stopped (fst r) = true /\ length extra = 1%nat).
Proof.
  intros r.
  destruct (run_callbacks_discovered allowedDomains depth maxURLs jobID cbs initialWalker
              eq_refl) as (new & extra & Hl & D & Hst).
  exists new, extra. auto.
Qed.

End WalkerTheorems.

(** ** Sitemap discovery and parsing *)

Module SitemapFacts.
Import GoString Utils Crawler CrawlerFacts OrchestratorFacts Run.

(** The sitemaps announced by the [sitemap_discovered] events of a
    trace. *)
Definition announced (t : list Action) : list string :=
  omap (fun a => match a with
                 | Publish e =>
                     if String.eqb (Type_ e) "sitemap_discovered"
                     then Some (evURL e) else None
                 | _ => None
                 end) t.

Lemma announced_app (t1 t2 : list Action) :
  announced (t1 ++ t2) = announced t1 ++ announced t2.
Proof. apply omap_app. Qed.

(** What the sub-sitemaps of an index yield together: [None] when one of
    them did not return, else the URLs of those that parsed, in order. *)
Fixpoint gather (subs : list (option (result (list string)))) : option (list string) :=
  match subs with
  | [] => Some []
  | None :: _ => None
  | Some (Err _) :: rest => gather rest
  | Some (Ok urls) :: rest => app urls <$> gather rest
  end.

Section Facts.
Context {W : Type} `{Net W} `{Site W}.

(** The existence check of one candidate in [DiscoverSitemapsWithFallback]. *)
Definition check (jobID candidate : string) : M W (list string) :=
  ok ← ask (CheckSitemapExists candidate);
  if (ok : bool) then
    _ ← publish (event_url "sitemap_discovered" jobID "sitemap" candidate);
    mret [candidate]
  else mret [].

Lemma check_announced (j c : string) (w : W) :
  announced (trace (check j c) w) = value (check j c) w
  /\ value (check j c) w `sublist_of` [c].
Proof.
  unfold check. rewrite trace_bind, value_bind, trace_ask.
  destruct (value (ask (CheckSitemapExists c)) w).
  - rewrite trace_bind, value_bind, trace_ret, value_ret. split; reflexivity.
  - rewrite trace_ret, value_ret. split; [reflexivity|apply sublist_nil_l].
Qed.

Lemma map_each_check_announced (j : string) (cs : list string) (w : W) :
  announced (trace (map_each (check j) cs) w) = concat (value (map_each (check j) cs) w)
  /\ concat (value (map_each (check j) cs) w) `sublist_of` cs.
Proof.
  revert w. induction cs as [|c cs IH]; intros w; simpl; [split; reflexivity|].
  rewrite !trace_bind, !value_bind, trace_ret, value_ret, app_nil_r, announced_app.
  destruct (check_announced j c w) as [-> Hs].
  destruct (IH (world (check j c) w)) as [-> Hs']. simpl.
  split; [reflexivity|]. change (c :: cs) with ([c] ++ cs). apply sublist_app; assumption.
Qed.

(** The candidates that pass [CheckSitemapExists], asked in order, each
    in the world the check before it left. *)
Fixpoint existing (cs : list string) (w : W) : list string * W :=
  match cs with
  | [] => ([], w)
  | c :: rest =>
      let '(ok, w1) := CheckSitemapExists c w in
      let '(found, w2) := existing rest w1 in
      (if ok then c :: found else found, w2)
  end.

Lemma check_run (j c : string) (w : W) :
  value (check j c) w = (if fst (CheckSitemapExists c w) then [c] else [])
  /\ world (check j c) w = snd (CheckSitemapExists c w).
Proof.
  unfold check. rewrite value_bind, world_bind, value_ask, world_ask.
  destruct (CheckSitemapExists c w) as [[|] w1]; split; reflexivity.
Qed.

Lemma map_each_check_existing (j : string) (cs : list string) (w : W) :
  concat (value (map_each (check j) cs) w) = fst (existing cs w)
  /\ world (map_each (check j) cs) w = snd (existing cs w).
Proof.
  revert w. induction cs as [|c cs IH]; intros w; simpl; [split; reflexivity|].
  rewrite !value_bind, !world_bind, value_ret, world_ret.
  destruct (check_run j c w) as [-> ->].
  destruct (CheckSitemapExists c w) as [ok w1]. simpl fst. simpl snd.
  destruct (IH w1) as [E1 E2].
  destruct (existing cs w1) as [found w2]. simpl in E1, E2.
  simpl concat. rewrite E1, E2. destruct ok; split; reflexivity.
Qed.

(** Every member of [existing] had its check answered with [true]. *)
Lemma existing_checked (cs : list string) :
  forall (w : W) (u : string),
    u ∈ fst (existing cs w) ->
    u ∈ cs /\ exists w0, fst (CheckSitemapExists u w0) = true.
Proof.
  induction cs as [|c cs IH]; intros w u; simpl; [intros Hu; inversion Hu|].
  destruct (CheckSitemapExists c w) as [ok w1] eqn:E.
  specialize (IH w1 u). destruct (existing cs w1) as [found w2]. simpl in *.
  destruct ok.
  - rewrite !elem_of_cons. intros [->|Hu].
    + split; [left; reflexivity|]. exists w. rewrite E. reflexivity.
    + destruct (IH Hu) as [Hin Hw]. split; [right; exact Hin|exact Hw].
  - intros Hu. destruct (IH Hu) as [Hin Hw]. split; [right; exact Hin|exact Hw].
Qed.

Lemma trace_publish (e : CrawlEvent) (w : W) : trace (publish e) w = [Publish e].
Proof. reflexivity. Qed.

Lemma world_publish (e : CrawlEvent) (w : W) : world (publish e) w = w.
Proof. reflexivity. Qed.

Lemma for_each_announce (j : string) (rs : list string) (w : W) :
  let m := for_each (fun sitemapURL =>
                       publish (event_url "sitemap_discovered" j "sitemap" sitemapURL)
                       : M W unit) rs in
  announced (trace m w) = rs /\ world m w = w.
Proof.
  revert w. induction rs as [|r rs IH]; intros w; simpl; [split; reflexivity|].
  rewrite trace_bind, world_bind, trace_publish, world_publish.
  destruct (IH w) as [E1 E2]. simpl in E1, E2. rewrite E2. simpl. rewrite E1.
  split; reflexivity.
Qed.

(** The loop of [ParseSitemap] over the sitemaps of an index. *)
Definition each (fuel : nat) (jobID : string)
  : list string -> list string -> M W (option (result (list string))) :=
  fix each (refs : list string) (urls : list string) :=
    match refs with
    | [] => mret (Some (Ok urls))
    | ref :: rest =>
        sub ← ParseSitemap fuel ref jobID;
        match sub with
        | None => mret None
        | Some (Err _) => each rest urls
        | Some (Ok subURLs) => each rest (urls ++ subURLs)
        end
    end.

Lemma each_gather (fuel : nat) (j : string) (refs : list string) :
  forall (urls : list string) (w : W),
    value (each fuel j refs urls) w
    = (fun l => Ok (urls ++ l))
      <$> gather (value (map_each (fun ref => ParseSitemap fuel ref j) refs) w).
Proof.
  induction refs as [|ref rest IH]; intros urls w; simpl.
  - rewrite app_nil_r. reflexivity.
  - rewrite !value_bind.
    destruct (value (ParseSitemap fuel ref j) w) as [[sub|e]|]; simpl.
    + rewrite IH.
      destruct (gather _) as [l|]; simpl; [|reflexivity].
      rewrite app_assoc. reflexivity.
    + rewrite IH. reflexivity.
    + reflexivity.
Qed.

(** An index that names at least one sitemap is parsed by parsing those
    sitemaps in order. *)
Lemma ParseSitemap_index (fuel : nat) (u j : string) (w : W)
    (body : SitemapBody) (refs : list string) :
  fst (fetch_sitemap u w) = Ok body -> asIndex body = Ok refs -> refs <> [] ->
  value (ParseSitemap (S fuel) u j) w
  = value (each fuel j refs []) (snd (fetch_sitemap u w)).
Proof.
  intros Hf Hi Hne. cbn [ParseSitemap].
  rewrite value_bind, world_publish, value_bind, value_ask, world_ask, Hf, Hi.
  destruct refs as [|r refs]; [contradiction|].
  change (0 <? slen (r :: refs)) with (0 <? Z.of_nat (S (length refs))).
  destruct (Z.ltb_spec 0 (Z.of_nat (S (length refs)))); [|lia].
  rewrite value_bind, world_publish. reflexivity.
Qed.

Lemma ParseSitemap_nonempty (fuel : nat) (j : string) :
  forall (u : string) (w : W) (urls : list string),
    value (ParseSitemap fuel u j) w = Some (Ok urls) -> Forall (fun x => x <> "") urls.
Proof.
  induction fuel as [|fuel IH]; intros u w urls; simpl; [rewrite value_ret; discriminate|].
  rewrite !value_bind.
  destruct (value (ask (fetch_sitemap u)) _) as [body|e]; [|rewrite value_ret; discriminate].
  match goal with
  | |- context [match ?x with Some _ => _ | None => _ end] => destruct x as [refs|]
  end.
  - rewrite value_bind.
    match goal with |- value _ ?w' = _ -> _ => generalize w' end.
    assert (Hacc : Forall (fun x : string => x <> "") []) by constructor.
    revert Hacc. generalize (@nil string) as acc.
    induction refs as [|ref rest IHr]; intros acc Hacc w'.
    + rewrite value_ret. intros [= <-]. exact Hacc.
    + rewrite value_bind.
      destruct (value (ParseSitemap fuel ref j) w') as [[sub|e]|] eqn:E.
      * apply IHr, Forall_app. split; [exact Hacc|]. eapply IH, E.
      * apply IHr, Hacc.
      * rewrite value_ret. discriminate.
  - destruct (asSet body) as [locs|e]; [|rewrite value_ret; discriminate].
    rewrite value_bind, value_ret. intros [= <-].
    apply Forall_forall. intros x Hx. apply list_elem_of_filter in Hx. tauto.
Qed.

Lemma parse_each_nonempty (fuel : nat) (j : string) (us : list string) :
  forall (all : list string) (w : W) (urls : list string),
    Forall (fun x => x <> "") all ->
    value (parse_each fuel j us all) w = Some urls -> Forall (fun x => x <> "") urls.
Proof.
  induction us as [|u us IH]; intros all w urls Hall; simpl.
  - rewrite value_ret. intros [= <-]. exact Hall.
  - rewrite value_bind.
    destruct (value (ParseSitemap fuel u j) w) as [[sub|e]|] eqn:E.
    + apply IH, Forall_app. split; [exact Hall|]. eapply ParseSitemap_nonempty, E.
    + rewrite value_bind. apply IH, Hall.
    + rewrite value_ret. discriminate.
Qed.

End Facts.

End SitemapFacts.

Module SitemapTheorems.
Import GoString Utils Crawler CrawlerFacts OrchestratorFacts SitemapFacts Run.

(** X15. A sitemap index that names at least one sitemap yields the URLs
    of the sitemaps it names, concatenated in the order of the index;
    a sitemap that cannot be fetched or parsed is skipped, and the index
    itself never fails. *)
Theorem sitemap_index_concatenates {W : Type} `{Site W}
    (fuel : nat) (sitemapURL jobID : string) (w : W)
    (body : SitemapBody) (refs : list string) :
  fst (fetch_sitemap sitemapURL w) = Ok body -> asIndex body = Ok refs -> refs <> [] ->
  value (ParseSitemap (S fuel) sitemapURL jobID) w
  = Ok <$> gather (value (map_each (fun ref => ParseSitemap fuel ref jobID) refs)
                     (snd (fetch_sitemap sitemapURL w))).
Proof.
  intros Hf Hi Hne.
  rewrite (ParseSitemap_index fuel sitemapURL jobID w body refs Hf Hi Hne).
  pose proof (each_gather fuel jobID refs [] (snd (fetch_sitemap sitemapURL w))) as E.
  rewrite E. destruct (gather _); reflexivity.
Qed.

(** The index of the example site yields the pages of its first and third
    sitemap. *)
Lemma sitemap_index_concatenates_witness :
  fst (fst IndexSite.parsed)
  = Some (Ok ["https://example.com/a"; "https://example.com/b";
              "https://example.com/c"; "https://example.com/a"]).
Proof.
  change (fst (fst IndexSite.parsed))
    with (value (@ParseSitemap unit IndexSite.site 2 IndexSite.index "job") tt).
  rewrite (@sitemap_index_concatenates unit IndexSite.site 1
             IndexSite.index "job" tt
             {| asIndex := Ok [IndexSite.posts; IndexSite.gone; IndexSite.pages];
                asSet := Err "expected element type <urlset> but have <sitemapindex>" |}
             [IndexSite.posts; IndexSite.gone; IndexSite.pages]).
  - vm_compute. reflexivity.
  - vm_compute. reflexivity.
  - reflexivity.
  - discriminate.
Defined.

(** X16. The sitemap tier never reports an error: sitemaps that fail are
    skipped and a site without sitemaps yields the empty list.  The list
    it returns has no duplicates and no empty URL. *)
Theorem sitemap_crawl_never_fails {W : Type} `{Net W} `{Site W}
    (fuel : nat) (targetURL jobID : string) (robotsSitemaps : list string) (w : W) :
  let r := value (CrawlWithSitemapsAndFallback fuel targetURL jobID robotsSitemaps) w in
  (forall e, r <> Some (Err e))
  /\ (forall urls, r = Some (Ok urls) -> NoDup urls /\ Forall (fun u => u <> "") urls).
Proof.
  intros r. subst r. unfold CrawlWithSitemapsAndFallback. rewrite value_bind.
  destruct (slen _ =? 0).
  - rewrite value_bind, value_ret. split; [discriminate|].
    intros urls [= <-]. split; constructor.
  - rewrite value_bind.
    match goal with
    | |- context [value (parse_each ?f ?j ?us ?a) ?w'] =>
        pose proof (parse_each_nonempty f j us a w') as Hne;
        destruct (value (parse_each f j us a) w') as [all|]
    end.
    + rewrite value_bind, value_ret. split; [discriminate|].
      intros urls [= <-]. split; [apply removeDuplicateURLs_NoDup|].
      assert (Hall : Forall (fun x : string => x <> "") all)
        by (apply Hne; [constructor|reflexivity]).
      clear Hne. rename Hall into Hne.
      rewrite Forall_forall in Hne. apply Forall_forall. intros u Hu.
      apply Hne, (proj1 (removeDuplicateURLs_elem all u)), Hu.
    + rewrite value_ret. split; [discriminate|discriminate].
Qed.

(** The four locations [DiscoverSitemapsWithFallback] tries. *)
Definition candidates (parsed : URL) : list string :=
  [Scheme parsed +:+ "://" +:+ Host parsed +:+ "/sitemap.xml";
   Scheme parsed +:+ "://" +:+ Host parsed +:+ "/sitemap_index.xml";
   Scheme parsed +:+ "://" +:+ Host parsed +:+ "/sitemaps.xml";
   Scheme parsed +:+ "://" +:+ Host parsed +:+ "/sitemap/sitemap.xml"].

(** X17. The sitemaps [DiscoverSitemapsWithFallback] returns are exactly
    those it passes to [PublishCrawlEvent] in [sitemap_discovered]
    events, in order.  Given sitemaps from robots.txt it returns them as
    they are without any request.  Otherwise it asks [CheckSitemapExists]
    for each of its four candidate locations in order, then reads
    robots.txt and asks [CheckSitemapExists] for each sitemap listed
    there, and returns exactly the locations for which the check answered
    true, candidates first, in the order asked ([existing]); so every
    sitemap it returns passed the check.  For a base URL that does not
    parse it returns nothing and does nothing. *)
Theorem discovered_sitemaps_are_announced {W : Type} `{Net W} `{Site W}
    (baseURL jobID : string) (robotsSitemaps : list string) (w : W) :
  let m := DiscoverSitemapsWithFallback baseURL jobID robotsSitemaps in
  announced (trace m w) = value m w
  /\ (forall parsed, url_Parse baseURL = Ok parsed -> robotsSitemaps <> [] ->
        value m w = robotsSitemaps /\ world m w = w)
  /\ (forall parsed, url_Parse baseURL = Ok parsed -> robotsSitemaps = [] ->
        let found := existing (candidates parsed) w in
        let robots := ExtractSitemapsFromRobots
                        (Scheme parsed +:+ "://" +:+ Host parsed +:+ "/robots.txt")
                        (snd found) in
        let listed := existing (fst robots) (snd robots) in
        value m w = fst found ++ fst listed
        /\ world m w = snd listed
        /\ fst found `sublist_of` candidates parsed
        /\ fst listed `sublist_of` fst robots
        /\ (forall u, u ∈ value m w ->
             exists w0, fst (CheckSitemapExists u w0) = true))
  /\ (forall e, url_Parse baseURL = Err e -> m w = ([], w, [])).
Proof.
  intros m. subst m. unfold DiscoverSitemapsWithFallback.
  destruct (url_Parse baseURL) as [parsed|e].
  2:{ split; [reflexivity|]. split; [discriminate|]. split; [discriminate|].
      intros e' _. reflexivity. }
  fold (check jobID). fold (candidates parsed).
  destruct robotsSitemaps as [|r rs].
  - change (0 <? slen []) with false. cbv iota.
    rewrite !trace_bind, !value_bind, !world_bind, trace_publish, world_publish,
      trace_ask, trace_ret, value_ret, world_ret, app_nil_r, value_ask, world_ask.
    rewrite !announced_app. simpl (announced [_]). cbn [app].
    destruct (map_each_check_announced jobID (candidates parsed) w) as [E1 S1].
    destruct (map_each_check_existing jobID (candidates parsed) w) as [F1 W1].
    rewrite W1 in *.
    set (robots := ExtractSitemapsFromRobots
                     (Scheme parsed +:+ "://" +:+ Host parsed +:+ "/robots.txt")
                     (snd (existing (candidates parsed) w))) in *.
    destruct (map_each_check_announced jobID (fst robots) (snd robots)) as [E2 S2].
    destruct (map_each_check_existing jobID (fst robots) (snd robots)) as [F2 W2].
    rewrite E1, E2. split; [reflexivity|]. split; [intros _ _ Hne; contradiction|].
    split; [|discriminate].
    intros p [= <-] _. cbv zeta. fold robots. rewrite <- F1, <- F2, W2.
    split; [reflexivity|]. split; [reflexivity|].
    split; [exact S1|]. split; [exact S2|].
    intros u. rewrite F1, F2, elem_of_app.
    intros [Hu|Hu]; eapply existing_checked, Hu.
  - assert (Hpos : (0 <? slen (r :: rs)) = true).
    { apply Z.ltb_lt. unfold slen. simpl length. lia. }
    rewrite Hpos.
    rewrite !trace_bind, !value_bind, !world_bind, trace_publish, world_publish,
      trace_ret, value_ret, world_ret, app_nil_r, announced_app.
    destruct (for_each_announce jobID (r :: rs) w) as [Ea Ew]. simpl in Ea, Ew.
    simpl (announced [_]). cbn [app].
    split; [exact Ea|]. split; [intros _ _ _; split; [reflexivity|exact Ew]|].
    split; [discriminate|discriminate].
Qed.

End SitemapTheorems.

(** ** Orchestrator: order of the result and the tiers that run *)

Module TierFacts.
Import GoString Utils Crawler CrawlerFacts OrchestratorFacts DedupFacts Run.

(** Neither tier function is entered. *)
Definition no_call (a : Action) : Prop := forall fn, a <> Call fn.

Section Facts.
Context {W : Type} `{Net W} `{Site W}.

Lemma second_stage_TargetURL (a : string) (cfg : CrawlRequest) (j : string)
    (all : list string) (w : W) :
  TargetURL (value (second_stage a cfg j all) w) = a.
Proof. unfold second_stage. rewrite !value_bind, value_ret. reflexivity. Qed.

(** The HTML tier appends to the URLs it is given. *)
Lemma html_tier_appends (a j : string) (cfg : CrawlRequest) (all : list string) (w : W) :
  NoDup all ->
  exists extra,
    value (html_tier a j cfg all) w = all ++ extra
    /\ (forall u, u ∈ extra -> u ∉ all).
Proof.
  intros Hn. destruct (html_tier_value a j cfg all w) as [->|(res & _ & ->)].
  - exists []. rewrite app_nil_r. split; [reflexivity|]. intros u Hu.
    apply elem_of_nil in Hu. contradiction.
  - destruct (removeDuplicateURLs_merge all (URLs res) Hn) as (extra & E & _ & Hd).
    exists extra. auto.
Qed.

(** Without the sitemap tier the first stage enters no tier function,
    returns, and hands on an empty list. *)
Lemma first_stage_without_sitemap (fuel : nat) (t : string) (cfg : CrawlRequest)
    (j : string) (w : W) :
  enableSitemap cfg = false ->
  Forall no_call (trace (first_stage fuel t cfg j) w)
  /\ match value (first_stage fuel t cfg j) w with
     | Unreachable _ => True
     | Diverged => False
     | Tier1 _ all => all = []
     end.
Proof.
  intros Hes. split.
  - revert w. change (emits no_call (first_stage fuel t cfg j)).
    assert (Pp : forall u, no_call (Probe u)) by (intros u fn; discriminate).
    assert (Pe : forall e, no_call (Publish e)) by (intros e fn; discriminate).
    unfold first_stage. rewrite Hes.
    apply emits_bind; [apply FindAccessibleURL_emits; assumption|intros [a info]].
    apply emits_bind; [apply resolve_target_emits; assumption|intros [a'|]];
      [|apply emits_ret].
    apply emits_bind;
      [destruct (negb _); [apply publish_emits; assumption|apply emits_ret]|intros _].
    apply emits_bind; [apply publish_emits; assumption|intros _].
    apply emits_bind; [apply emits_ret|intros [all|]; apply emits_ret].
  - unfold first_stage. rewrite Hes, value_bind.
    destruct (value (FindAccessibleURL t j) w) as [a info].
    rewrite value_bind.
    destruct (value (resolve_target _ _ _ _) _) as [a1|]; [|rewrite value_ret; exact I].
    rewrite !value_bind, !value_ret. reflexivity.
Qed.

(** Without the HTML tier the second stage enters no tier function and
    returns the list it is given, cut to the limit. *)
Lemma second_stage_without_html (a : string) (cfg : CrawlRequest) (j : string)
    (all : list string) (w : W) :
  enableHTML cfg = false ->
  Forall no_call (trace (second_stage a cfg j all) w)
  /\ URLs (value (second_stage a cfg j all) w) = value (apply_limit cfg j all) w.
Proof.
  intros Heh. split.
  - revert w. change (emits no_call (second_stage a cfg j all)).
    assert (Pe : forall e, no_call (Publish e)) by (intros e fn; discriminate).
    unfold second_stage. rewrite Heh. cbn [andb].
    apply emits_bind; [apply emits_ret|intros all1].
    apply emits_bind; [apply apply_limit_emits; assumption|intros all2].
    apply emits_bind; [apply publish_emits; assumption|intros _; apply emits_ret].
  - unfold second_stage. rewrite Heh. cbn [andb].
    rewrite !value_bind, !value_ret, world_ret. reflexivity.
Qed.

End Facts.

End TierFacts.

Module TierTheorems.
Import GoString Utils Crawler CrawlerFacts OrchestratorFacts DedupFacts TierFacts Run.
Import OrchestratorTheorems.

(** X18. In the result of a crawl the sitemap URLs come first, in the
    order the sitemap tier yielded them; what the HTML tier adds follows
    and repeats none of them; the limit cuts the list from the end, so
    HTML-discovered URLs are dropped before any sitemap URL.  Without the
    HTML tier nothing is added.  [TargetURL] is the URL the crawl resolved
    and [TotalURLs] the length of the list. *)
Theorem sitemap_urls_come_first {W : Type} `{Net W} `{Site W}
    (fuel : nat) (targetURL : string) (crawlConfig : CrawlRequest) (jobID : string)
    (w : W) (res : CrawlResult) :
  value (CrawlWebsiteWithTiers fuel targetURL crawlConfig jobID) w = Some (Ok res) ->
  exists actualURL sitemapURLs extra n,
    value (first_stage fuel targetURL crawlConfig jobID) w = Tier1 actualURL sitemapURLs
    /\ URLs res = take n (sitemapURLs ++ extra)
    /\ (forall u, u ∈ extra -> u ∉ sitemapURLs)
    /\ (enableHTML crawlConfig && shouldFallbackToHTML sitemapURLs crawlConfig = false ->
        extra = [])
    /\ TargetURL res = actualURL
    /\ TotalURLs res = slen (URLs res).
Proof.
  intros Hv.
  destruct (CrawlWebsiteWithTiers_Ok fuel targetURL crawlConfig jobID res w Hv)
    as (a & all & Hs & ->).
  pose proof (first_stage_NoDup fuel targetURL crawlConfig jobID a all w Hs) as Hn.
  set (w1 := world (first_stage fuel targetURL crawlConfig jobID) w).
  destruct (second_stage_URLs a crawlConfig jobID all w1) as (all1 & w2 & Hall & Hurls).
  assert (Hextra : exists extra,
             all1 = all ++ extra /\ (forall u, u ∈ extra -> u ∉ all)
             /\ (enableHTML crawlConfig && shouldFallbackToHTML all crawlConfig = false ->
                 extra = [])).
  { destruct Hall as [->|[Hc ->]].
    - exists []. rewrite app_nil_r. split; [reflexivity|]. split; [|reflexivity].
      intros u Hu. apply elem_of_nil in Hu. contradiction.
    - destruct (html_tier_appends a jobID crawlConfig all w1 Hn) as (extra & E & Hd).
      exists extra. split; [exact E|]. split; [exact Hd|]. rewrite Hc. discriminate. }
  destruct Hextra as (extra & -> & Hd & Hnone).
  exists a, all, extra.
  exists (if (MaxURLs crawlConfig >? 0) && (slen (all ++ extra) >? MaxURLs crawlConfig)
          then Z.to_nat (MaxURLs crawlConfig) else length (all ++ extra)).
  split; [exact Hs|]. split.
  { rewrite Hurls, apply_limit_value.
    destruct ((MaxURLs crawlConfig >? 0) && (slen (all ++ extra) >? MaxURLs crawlConfig));
      [reflexivity|].
    rewrite firstn_all. reflexivity. }
  split; [exact Hd|]. split; [exact Hnone|].
  split; [apply second_stage_TargetURL|apply HandlerFacts.second_stage_TotalURLs].
Qed.

(** In the crawl of the example site the page of the sitemap comes before
    the page the walker found. *)
Lemma sitemap_urls_come_first_witness :
  exists res extra n,
    fst (fst (SitemapSite.crawl 100)) = Some (Ok res)
    /\ URLs res = take n (["https://elsewhere.org/page"] ++ extra).
Proof.
  destruct (@sitemap_urls_come_first Z SitemapSite.net SitemapSite.site 2 SitemapSite.seed
              (Handlers.applyDefaults (SitemapSite.body 100)) "docs-crawl" 0
              {| rID := None; TargetURL := "https://example.com"; TotalURLs := 2;
                 Settings := {| sWorkers := 10; sDelay := "200ms"; sDepth := 1 |};
                 URLs := ["https://elsewhere.org/page"; "https://example.com/about"] |})
    as (a & all & extra & n & Hs & Hu & _).
  - vm_compute. reflexivity.
  - assert (Hall : all = ["https://elsewhere.org/page"]).
    { revert Hs. vm_compute. intros [= _ <-]. reflexivity. }
    subst all. eexists _, extra, n. split; [vm_compute; reflexivity|exact Hu].
Defined.

(** X19. A request that enables only the headless tier crawls nothing:
    no tier function is entered, the crawl returns (it cannot run into
    the sitemap recursion), and a crawl that finds its URL reachable
    completes with an empty URL list. *)
Theorem headless_only_crawls_nothing {W : Type} `{Net W} `{Site W}
    (fuel : nat) (targetURL : string) (crawlConfig : CrawlRequest) (jobID : string)
    (w : W) :
  EnableSitemap crawlConfig = false -> EnableHTML crawlConfig = false ->
  EnableHeadless crawlConfig = true ->
  let run := CrawlWebsiteWithTiers fuel targetURL crawlConfig jobID in
  (forall fn, Call fn ∉ trace run w)
  /\ value run w <> None
  /\ (forall res, value run w = Some (Ok res) -> URLs res = [] /\ TotalURLs res = 0).
Proof.
  intros Hs Hh Hl run.
  assert (Hes : enableSitemap crawlConfig = false).
  { unfold enableSitemap. rewrite Hs, Hh, Hl. reflexivity. }
  assert (Heh : enableHTML crawlConfig = false).
  { unfold enableHTML. rewrite Hs, Hh, Hl. reflexivity. }
  destruct (first_stage_without_sitemap fuel targetURL crawlConfig jobID w Hes)
    as [Ht1 Hv1].
  subst run. split; [|split].
  - intros fn Hin. rewrite CrawlWebsiteWithTiers_trace, elem_of_app in Hin.
    destruct Hin as [Hin|Hin].
    + rewrite Forall_forall in Ht1. apply (Ht1 _ Hin fn). reflexivity.
    + destruct (value (first_stage fuel targetURL crawlConfig jobID) w) as [e| |a all];
        try (apply elem_of_nil in Hin; contradiction).
      destruct (second_stage_without_html a crawlConfig jobID all
                  (world (first_stage fuel targetURL crawlConfig jobID) w) Heh) as [Ht2 _].
      rewrite Forall_forall in Ht2. apply (Ht2 _ Hin fn). reflexivity.
  - unfold CrawlWebsiteWithTiers. rewrite value_bind.
    destruct (value (first_stage fuel targetURL crawlConfig jobID) w) as [e| |a all];
      [rewrite value_ret; discriminate|contradiction|].
    rewrite value_bind, value_ret. discriminate.
  - intros res Hv.
    destruct (CrawlWebsiteWithTiers_Ok fuel targetURL crawlConfig jobID res w Hv)
      as (a & all & Hst & ->).
    rewrite Hst in Hv1. subst all.
    rewrite HandlerFacts.second_stage_TotalURLs.
    destruct (second_stage_without_html a crawlConfig jobID []
                (world (first_stage fuel targetURL crawlConfig jobID) w) Heh) as [_ ->].
    rewrite apply_limit_value.
    assert (E : (MaxURLs crawlConfig >? 0) && (slen (@nil string) >? MaxURLs crawlConfig)
                = false).
    { unfold slen. simpl length.
      destruct (Z.gtb_spec (MaxURLs crawlConfig) 0);
        destruct (Z.gtb_spec (Z.of_nat 0) (MaxURLs crawlConfig)); simpl; try reflexivity.
      lia. }
    rewrite E. split; reflexivity.
Qed.

(** On the example site a request with only [enable_headless] enters no
    tier. *)
Lemma headless_only_crawls_nothing_witness :
  Call "CrawlWithSitemapsAndFallback" ∉ snd Scenarios.headless_crawl
  /\ Call "CrawlWithHTML" ∉ snd Scenarios.headless_crawl.
Proof.
  pose proof (proj1 (@headless_only_crawls_nothing Z SitemapSite.net SitemapSite.site 2
                       SitemapSite.seed (Handlers.applyDefaults Scenarios.headless_only)
                       "docs-crawl" 0 eq_refl eq_refl eq_refl)) as Hno.
  split; apply Hno.
Defined.

End TierTheorems.

(** ** Content batches *)

Module BatchTheorems.
Import GoString Crawler Pool Handlers ReducedFacts.

Lemma store_results_spec (got : list (nat * ContentResponse)) :
  forall acc : list ContentResponse,
    let rs := fold_left (fun acc ir => <[fst ir := snd ir]> acc) got acc in
    length rs = length acc
    /\ forall i r, rs !! i = Some r -> acc !! i = Some r \/ (i, r) ∈ got.
Proof.
  induction got as [|[k x] got IH]; intros acc; simpl.
  - auto.
  - destruct (IH (<[k := x]> acc)) as [Hl Hs]. simpl in Hl, Hs.
    rewrite Hl, length_insert. split; [reflexivity|].
    intros i r Hr. destruct (Hs i r Hr) as [Hi|Hi]; [|right; right; exact Hi].
    destruct (decide (i = k)) as [->|Hne].
    + destruct (acc !! k) eqn:E.
      * rewrite list_lookup_insert_eq in Hi by (eapply lookup_lt_Some, E).
        injection Hi as ->. right. left.
      * rewrite list_insert_ge in Hi by (apply lookup_ge_None, E). left. congruence.
    + rewrite list_lookup_insert_ne in Hi by congruence. left. exact Hi.
Qed.

Lemma filter_split_length (P : ContentResponse -> Prop) `{forall r, Decision (P r)}
    (l : list ContentResponse) :
  slen (filter P l) + slen (filter (fun r => ~ P r) l) = slen l.
Proof.
  unfold slen. induction l as [|x l IH]; [reflexivity|].
  rewrite !filter_cons. destruct (decide (P x)); destruct (decide (~ P x));
    simpl length; try contradiction; lia.
Qed.

(** X20. A batch that returns a result slice returns one entry per URL,
    by position.  Without an error, entry [i] is the response for URL
    [i]; after the batch deadline, every entry is either a response that
    was collected for that position or still the zero response. *)
Theorem batch_results_by_position (processURL : string -> ContentResponse)
    (run : NormalRun) (wp : WorkerPool) (urls : list string)
    (results : list ContentResponse) (err : option string) :
  ProcessContentURLs processURL run wp urls = (Some results, err) ->
  length results = length urls
  /\ (err = None -> results = map processURL urls)
  /\ (err <> None ->
      err = Some "processing timeout"
      /\ exists collected,
           run = DeadlineHit collected
           /\ forall i r, results !! i = Some r ->
                r = zeroResponse \/ (i, r) ∈ collected).
Proof.
  unfold ProcessContentURLs.
  destruct (negb (CanAcceptWork wp (Z.of_nat (length urls)))).
  - destruct (Z.ltb_spec (Z.quot (maxWorkers wp) 4) 1); [discriminate|].
    rewrite processWithReducedConcurrency_value by assumption.
    intros [= <- <-]. rewrite length_map. split; [reflexivity|].
    split; [reflexivity|]. intros Hne. contradiction.
  - destruct run as [|got|]; [discriminate| |].
    + intros [= <- <-].
      destruct (store_results_spec got (replicate (length urls) zeroResponse)) as [Hl Hs].
      simpl in Hl, Hs. fold (store_results (length urls) got) in Hl, Hs.
      rewrite Hl, length_replicate. split; [reflexivity|]. split; [discriminate|].
      intros _. split; [reflexivity|]. exists got. split; [reflexivity|].
      intros i r Hr. destruct (Hs i r Hr) as [Hz|Hin]; [|right; exact Hin].
      left. apply lookup_replicate in Hz as [-> _]. reflexivity.
    + intros [= <- <-]. rewrite length_map. split; [reflexivity|].
      split; [reflexivity|]. intros Hne. contradiction.
Qed.

(** With every job busy in a pool of eight workers, a batch of thirty URLs
    is processed with reduced concurrency. *)
Lemma batch_results_by_position_witness :
  length (map (fun u => Stealth.emptyResponse u) (replicate 30 "https://example.com"))
  = length (replicate 30 "https://example.com").
Proof.
  apply (batch_results_by_position (fun u => Stealth.emptyResponse u) AllCollected
           {| maxWorkers := 8; activeJobs := 8 |} (replicate 30 "https://example.com")
           _ None).
  reflexivity.
Defined.

(** X21. A 200 reply of POST /content covers the URLs of the request, by
    position: [urls] when it is not empty, else the single [url]; its
    total is their number, and its success and failure counts add up to
    the total.  A batch that hits a timeout is answered 500 and its
    partial results are dropped. *)
Theorem content_reply_counts (body : option ContentRequest)
    (processURL : string -> ContentResponse) (run : NormalRun) (wp : WorkerPool) :
  let reply := HandleGetContent body (ProcessContentURLs processURL run wp) in
  (forall resp, reply = HTTPOk resp ->
     exists req,
       body = Some req
       /\ let urls := if 0 <? slen (qURLs req) then qURLs req else [qURL req] in
          Results resp = map processURL urls
          /\ bTotal resp = slen urls
          /\ bSuccess resp + bFailed resp = bTotal resp
          /\ bSuccess resp = slen (filter (fun r => cError r = "") (Results resp)))
  /\ (forall code msg, reply = HTTPError code msg ->
        code = 400 \/ code = 503
        \/ code = 500 /\ (msg = "job submission timeout" \/ msg = "processing timeout")).
Proof.
  intros reply. subst reply. unfold HandleGetContent.
  destruct body as [req|]; [|split; [discriminate|intros ? ? [= <- _]; auto]].
  destruct (0 <? slen (qURLs req)) eqn:Hn.
  - set (urls := qURLs req).
    destruct (ProcessContentURLs processURL run wp urls) as [results err] eqn:Ep.
    revert Ep. unfold ProcessContentURLs.
    destruct (negb (CanAcceptWork wp (Z.of_nat (length urls)))).
    + destruct (Z.ltb_spec (Z.quot (maxWorkers wp) 4) 1).
      * intros [= <- <-]. simpl. split; [discriminate|]. intros ? ? [= <- _]. auto.
      * rewrite processWithReducedConcurrency_value by assumption.
        intros [= <- <-]. simpl. split; [|discriminate].
        intros resp [= <-]. exists req. split; [reflexivity|]. rewrite Hn. simpl.
        split; [reflexivity|]. split; [unfold slen; reflexivity|].
        split; [|reflexivity].
        rewrite (filter_split_length (fun r => cError r = "")).
        unfold slen. rewrite length_map. reflexivity.
    + destruct run as [|got|].
      * intros [= <- <-]. simpl. split; [discriminate|]. intros ? ? [= <- <-]. auto.
      * intros [= <- <-]. simpl. split; [discriminate|]. intros ? ? [= <- <-]. auto.
      * intros [= <- <-]. simpl. split; [|discriminate].
        intros resp [= <-]. exists req. split; [reflexivity|]. rewrite Hn. simpl.
        split; [reflexivity|]. split; [unfold slen; reflexivity|].
        split; [|reflexivity].
        rewrite (filter_split_length (fun r => cError r = "")).
        unfold slen. rewrite length_map. reflexivity.
  - destruct (negb (String.eqb (qURL req) ""));
      [|split; [discriminate|intros ? ? [= <- _]; auto]].
    set (urls := [qURL req]).
    destruct (ProcessContentURLs processURL run wp urls) as [results err] eqn:Ep.
    revert Ep. unfold ProcessContentURLs.
    destruct (negb (CanAcceptWork wp (Z.of_nat (length urls)))).
    + destruct (Z.ltb_spec (Z.quot (maxWorkers wp) 4) 1).
      * intros [= <- <-]. simpl. split; [discriminate|]. intros ? ? [= <- _]. auto.
      * rewrite processWithReducedConcurrency_value by assumption.
        intros [= <- <-]. simpl. split; [|discriminate].
        intros resp [= <-]. exists req. split; [reflexivity|]. rewrite Hn. simpl.
        split; [reflexivity|]. split; [unfold slen; reflexivity|].
        split; [|reflexivity].
        rewrite (filter_split_length (fun r => cError r = "")).
        unfold slen. reflexivity.
    + destruct run as [|got|].
      * intros [= <- <-]. simpl. split; [discriminate|]. intros ? ? [= <- <-]. auto.
      * intros [= <- <-]. simpl. split; [discriminate|]. intros ? ? [= <- <-]. auto.
      * intros [= <- <-]. simpl. split; [|discriminate].
        intros resp [= <-]. exists req. split; [reflexivity|]. rewrite Hn. simpl.
        split; [reflexivity|]. split; [unfold slen; reflexivity|].
        split; [|reflexivity].
        rewrite (filter_split_length (fun r => cError r = "")).
        unfold slen. reflexivity.
Qed.

End BatchTheorems.

(** ** Browser pool *)

Module BrowserPoolFacts.
Import GoString Crawler BrowserPool.

(** The browsers of a pool, and whether one is handed out. *)
Definition browsers (bp : BrowserPool) : list nat := map browser (instances bp).

Definition leased (bp : BrowserPool) (b : nat) : bool :=
  existsb (fun i => Nat.eqb (browser i) b && inUse i) (instances bp).

(** [createBrowser] returns a browser that is not in the pool. *)
Definition fresh (created : result nat) (bp : BrowserPool) : Prop :=
  match created with
  | Ok b => b ∉ browsers bp
  | Err _ => True
  end.

Lemma take_idle_Some (l l' : list BrowserInstance) (b : nat) :
  take_idle l = Some (b, l') ->
  exists l1 l2,
    l = l1 ++ {| browser := b; inUse := false |} :: l2
    /\ l' = l1 ++ {| browser := b; inUse := true |} :: l2
    /\ Forall (fun i => inUse i = true) l1.
Proof.
  revert l'. induction l as [|i l IH]; intros l'; simpl; [discriminate|].
  destruct i as [bi [|]]; simpl.
  - destruct (take_idle l) as [[b0 r]|]; [|discriminate].
    intros [= -> <-]. destruct (IH r eq_refl) as (l1 & l2 & -> & -> & Hall).
    exists ({| browser := bi; inUse := true |} :: l1), l2.
    split; [reflexivity|]. split; [reflexivity|]. constructor; [reflexivity|exact Hall].
  - intros [= <- <-]. exists [], l. split; [reflexivity|]. split; [reflexivity|constructor].
Qed.

Lemma take_idle_None (l : list BrowserInstance) :
  take_idle l = None <-> Forall (fun i => inUse i = true) l.
Proof.
  induction l as [|i l IH]; simpl; [split; [constructor|reflexivity]|].
  destruct i as [bi [|]]; simpl.
  - destruct (take_idle l) as [[b0 r]|].
    + split; [discriminate|]. intros Hall. apply Forall_cons in Hall as [_ Hall].
      apply IH in Hall. discriminate.
    + split; [|reflexivity]. intros _. constructor; [reflexivity|]. apply IH. reflexivity.
  - split; [discriminate|]. intros Hall. apply Forall_cons in Hall as [Hi _]. discriminate.
Qed.

Lemma mark_idle_browsers (b : nat) (l : list BrowserInstance) :
  map browser (mark_idle b l) = map browser l.
Proof.
  induction l as [|i l IH]; simpl; [reflexivity|].
  destruct (Nat.eqb (browser i) b); simpl; [reflexivity|]. rewrite IH. reflexivity.
Qed.

Lemma mark_idle_length (b : nat) (l : list BrowserInstance) :
  length (mark_idle b l) = length l.
Proof.
  rewrite <- (length_map browser (mark_idle b l)), mark_idle_browsers, length_map.
  reflexivity.
Qed.

Lemma mark_idle_absent (b : nat) (l : list BrowserInstance) :
  b ∉ map browser l -> mark_idle b l = l.
Proof.
  induction l as [|i l IH]; simpl; [reflexivity|]. intros Hn.
  apply not_elem_of_cons in Hn as [Hne Hn].
  destruct (Nat.eqb_spec (browser i) b); [congruence|]. rewrite IH by exact Hn. reflexivity.
Qed.

Lemma mark_idle_idle (b : nat) (l : list BrowserInstance) :
  b ∈ map browser l -> exists i, i ∈ mark_idle b l /\ inUse i = false.
Proof.
  induction l as [|i l IH]; simpl; [intros Hin; apply elem_of_nil in Hin; contradiction|].
  intros Hin. destruct (Nat.eqb_spec (browser i) b) as [E|Hne].
  - eexists. split; [left|reflexivity].
  - apply elem_of_cons in Hin as [Hin|Hin]; [congruence|].
    destruct (IH Hin) as (i' & Hi & Hidle). exists i'. split; [right; exact Hi|exact Hidle].
Qed.

Lemma mark_idle_twice (b : nat) (l : list BrowserInstance) :
  mark_idle b (mark_idle b l) = mark_idle b l.
Proof.
  induction l as [|i l IH]; simpl; [reflexivity|].
  destruct (Nat.eqb_spec (browser i) b) as [E|Hne]; simpl.
  - rewrite E, Nat.eqb_refl. reflexivity.
  - destruct (Nat.eqb_spec (browser i) b); [contradiction|]. rewrite IH. reflexivity.
Qed.

Lemma leased_app (l1 l2 : list BrowserInstance) (m : Z) (b : nat) :
  leased {| instances := l1 ++ l2; maxSize := m |} b
  = leased {| instances := l1; maxSize := m |} b
    || leased {| instances := l2; maxSize := m |} b.
Proof. unfold leased. simpl. apply existsb_app. Qed.

Lemma leased_absent (l : list BrowserInstance) (m : Z) (b : nat) :
  b ∉ map browser l -> leased {| instances := l; maxSize := m |} b = false.
Proof.
  unfold leased. simpl. induction l as [|i l IH]; simpl; [reflexivity|]. intros Hn.
  apply not_elem_of_cons in Hn as [Hne Hn].
  destruct (Nat.eqb_spec (browser i) b); [congruence|]. simpl. apply IH, Hn.
Qed.

Lemma leased_cons (i : BrowserInstance) (l : list BrowserInstance) (m : Z) (b : nat) :
  leased {| instances := i :: l; maxSize := m |} b
  = Nat.eqb (browser i) b && inUse i || leased {| instances := l; maxSize := m |} b.
Proof. reflexivity. Qed.

(** Handing out a browser: it was not handed out before, it is
    afterwards, and no other lease changes. *)
Lemma Get_lease (created : result nat) (bp bp' : BrowserPool) (b : nat) :
  NoDup (browsers bp) -> fresh created bp ->
  Get created bp = (Ok b, bp') ->
  leased bp b = false /\ leased bp' b = true
  /\ (forall b', b' <> b -> leased bp' b' = leased bp b')
  /\ NoDup (browsers bp').
Proof.
  intros Hnd Hfresh. unfold Get. destruct bp as [l m]. simpl.
  destruct (take_idle l) as [[b0 l']|] eqn:Et.
  - intros [= -> <-].
    destruct (take_idle_Some l l' b Et) as (l1 & l2 & -> & -> & _).
    unfold browsers in *. simpl in *. rewrite map_app in Hnd. simpl in Hnd.
    apply NoDup_app in Hnd as (Hn1 & Hd & Hn2). apply NoDup_cons in Hn2 as [Hb2 Hn2].
    assert (Hb1 : b ∉ map browser l1).
    { intros Hin. apply (Hd b Hin). left. }
    split; [|split; [|split]].
    + rewrite leased_app, leased_cons. simpl.
      rewrite (leased_absent l1 m b Hb1), (leased_absent l2 m b Hb2), andb_false_r.
      reflexivity.
    + rewrite leased_app, leased_cons. simpl.
      rewrite Nat.eqb_refl. apply orb_true_r.
    + intros b' Hne. rewrite !leased_app, !leased_cons. simpl.
      destruct (Nat.eqb_spec b b'); [congruence|]. reflexivity.
    + rewrite map_app. simpl. apply NoDup_app. split; [exact Hn1|].
      split; [exact Hd|]. apply NoDup_cons. split; assumption.
  - destruct (slen l <? m); [|discriminate].
    destruct created as [c|e]; [|discriminate].
    intros [= -> <-]. simpl in Hfresh. unfold browsers in *. simpl in *.
    split; [|split; [|split]].
    + apply leased_absent, Hfresh.
    + rewrite leased_app, leased_cons. simpl.
      rewrite Nat.eqb_refl. apply orb_true_r.
    + intros b' Hne. rewrite leased_app, leased_cons. simpl.
      destruct (Nat.eqb_spec b b'); [congruence|].
      simpl. rewrite orb_false_r. reflexivity.
    + rewrite map_app. simpl. apply NoDup_app. split; [exact Hnd|].
      split; [|apply NoDup_singleton].
      intros x Hx. rewrite list_elem_of_singleton. intros ->. contradiction.
Qed.

Lemma Get_size (created : result nat) (bp : BrowserPool) :
  slen (instances bp) <= Z.max 0 (maxSize bp) ->
  slen (instances (snd (Get created bp))) <= Z.max 0 (maxSize bp)
  /\ maxSize (snd (Get created bp)) = maxSize bp.
Proof.
  intros Hs. unfold Get. destruct (take_idle (instances bp)) as [[b l']|] eqn:Et.
  - destruct (take_idle_Some _ _ _ Et) as (l1 & l2 & E & -> & _). simpl.
    rewrite E in Hs. unfold slen in *. rewrite length_app in *. simpl in *.
    split; [exact Hs|reflexivity].
  - destruct (Z.ltb_spec (slen (instances bp)) (maxSize bp)); [|auto].
    destruct created as [c|e]; [|auto]. simpl.
    unfold slen in *. rewrite length_app. simpl. split; [lia|reflexivity].
Qed.

(** The pool stays within its size whatever is called on it. *)
Lemma run_size (ops : list Op) (bp : BrowserPool) :
  slen (instances bp) <= Z.max 0 (maxSize bp) ->
  slen (instances (run ops bp)) <= Z.max 0 (maxSize bp)
  /\ maxSize (run ops bp) = maxSize bp.
Proof.
  revert bp. induction ops as [|op ops IH]; intros bp Hs; simpl; [auto|].
  assert (Hstep : slen (instances (step op bp)) <= Z.max 0 (maxSize bp)
                  /\ maxSize (step op bp) = maxSize bp).
  { destruct op as [created|b|]; simpl.
    - apply Get_size, Hs.
    - unfold Release, slen. simpl. rewrite mark_idle_length. auto.
    - unfold slen. simpl. split; [lia|reflexivity]. }
  destruct Hstep as [Hs' Hm]. rewrite <- Hm in Hs'.
  destruct (IH (step op bp) Hs') as [H1 H2]. rewrite H2, Hm in *. auto.
Qed.

End BrowserPoolFacts.

Module BrowserPoolTheorems.
Import GoString Crawler Pool BrowserPool BrowserPoolFacts.

(** X22. Whatever sequence of [Get], [Release] and [Shutdown] calls is
    made on it, and whatever [createBrowser] returns, the pool never
    holds more instances than its size; the pool of the worker pool built
    at start-up has a size between 2 and 25. *)
Theorem browser_pool_bounded (cpuCount memSys : Z) (maxSize : Z) (ops : list Op) :
  (0 <= maxSize -> slen (instances (run ops (NewBrowserPool maxSize))) <= maxSize)
  /\ 2 <= BrowserPool.maxSize (globalBrowserPool (calculateOptimalWorkers cpuCount memSys))
       <= 25
  /\ slen (instances (run ops (globalBrowserPool (calculateOptimalWorkers cpuCount memSys))))
     <= 25.
Proof.
  assert (Hg : 2 <= Z.quot (calculateOptimalWorkers cpuCount memSys) 2 <= 25).
  { pose proof (PoolTheorems.calculateOptimalWorkers_range cpuCount memSys) as Hr.
    rewrite Z.quot_div_nonneg by lia.
    split; [apply Z.div_le_lower_bound; lia|apply Z.div_le_upper_bound; lia]. }
  split; [|split].
  - intros Hpos.
    destruct (run_size ops (NewBrowserPool maxSize)) as [Hs _]; [unfold slen; simpl; lia|].
    simpl in Hs. lia.
  - exact Hg.
  - destruct (run_size ops (globalBrowserPool (calculateOptimalWorkers cpuCount memSys)))
      as [Hs _]; [unfold slen; simpl; lia|].
    simpl in Hs. lia.
Qed.

(** X23. In a pool whose instances hold distinct browsers, a browser that
    [Get] returns was not handed out before the call and is handed out
    after it, and no other browser changes hands.  [Get] fails only when
    every browser is handed out, and then leaves the pool as it is: with
    [browser pool exhausted] when the pool is at its size, with the error
    of [createBrowser] below it. *)
Theorem browser_lease_exclusive (created : result nat) (bp : BrowserPool) :
  NoDup (browsers bp) -> fresh created bp ->
  (forall b bp', Get created bp = (Ok b, bp') ->
     leased bp b = false /\ leased bp' b = true
     /\ (forall b', b' <> b -> leased bp' b' = leased bp b')
     /\ NoDup (browsers bp'))
  /\ (forall e bp', Get created bp = (Err e, bp') ->
        bp' = bp
        /\ Forall (fun i => inUse i = true) (instances bp)
        /\ (maxSize bp <= slen (instances bp) /\ e = "browser pool exhausted"
            \/ slen (instances bp) < maxSize bp /\ created = Err e))
  /\ (Forall (fun i => inUse i = true) (instances bp) ->
      maxSize bp <= slen (instances bp) ->
      Get created bp = (Err "browser pool exhausted", bp)).
Proof.
  intros Hnd Hfresh. split; [|split].
  - intros b bp' Hg. eapply Get_lease; eassumption.
  - intros e bp'. unfold Get.
    destruct (take_idle (instances bp)) as [[b l']|] eqn:Et; [discriminate|].
    apply take_idle_None in Et.
    destruct (Z.ltb_spec (slen (instances bp)) (maxSize bp)) as [Hlt|Hge].
    + destruct created as [c|e']; [discriminate|]. intros [= -> <-]. auto.
    + intros [= <- <-]. auto.
  - intros Hall Hfull. unfold Get.
    apply take_idle_None in Hall. rewrite Hall.
    destruct (Z.ltb_spec (slen (instances bp)) (maxSize bp)); [lia|reflexivity].
Qed.

(** From a pool of two browsers with the first handed out, [Get] returns
    the second, which was idle. *)
Lemma browser_lease_exclusive_witness :
  leased Scenarios.half_used 2 = false.
Proof.
  refine (proj1 (proj1 (browser_lease_exclusive (Err "failed to launch browser")
                          Scenarios.half_used _ _) 2%nat _ _)).
  - unfold browsers. simpl. compute_done.
  - exact I.
  - reflexivity.
Defined.

(** X24. After a browser of the pool is released, the next [Get] succeeds
    with a browser the pool already holds, without creating one.
    Releasing never changes which browsers the pool holds; releasing a
    browser the pool does not hold changes nothing, releasing twice is
    releasing once, and [Shutdown] leaves the pool empty. *)
Theorem released_browser_is_reused (created : result nat) (bp : BrowserPool) (b : nat) :
  (b ∈ browsers bp ->
   exists b' bp',
     Get created (Release b bp) = (Ok b', bp')
     /\ b' ∈ browsers bp
     /\ browsers bp' = browsers bp)
  /\ (b ∉ browsers bp -> Release b bp = bp)
  /\ browsers (Release b bp) = browsers bp
  /\ Release b (Release b bp) = Release b bp
  /\ instances (Shutdown bp) = [].
Proof.
  split; [|split; [|split; [|split]]].
  - intros Hin. unfold Get, Release. simpl.
    destruct (take_idle (mark_idle b (instances bp))) as [[b' l']|] eqn:Et.
    + exists b'. eexists. split; [reflexivity|].
      destruct (take_idle_Some _ _ _ Et) as (l1 & l2 & E & -> & _).
      unfold browsers. simpl. rewrite <- (mark_idle_browsers b (instances bp)), E.
      rewrite !map_app. simpl. split; [|reflexivity].
      apply elem_of_app. right. left.
    + exfalso. apply take_idle_None in Et.
      destruct (mark_idle_idle b (instances bp) Hin) as (i & Hi & Hidle).
      rewrite Forall_forall in Et. specialize (Et i Hi). congruence.
  - intros Hn. unfold Release. rewrite (mark_idle_absent b (instances bp) Hn).
    destruct bp; reflexivity.
  - apply mark_idle_browsers.
  - unfold Release. simpl. rewrite mark_idle_twice. reflexivity.
  - reflexivity.
Qed.

End BrowserPoolTheorems.

(** ** Aggressive HTTP *)

Module AggressiveFacts.
Import GoString Stealth Aggressive StringFacts.

Section Facts.
Context {W : Type}.
Variable ToLower : string -> string.
Variable convertToMarkdown : string -> result string.
Variable http_NewRequest : string -> bool.
Variable client_Do : Attempt -> string -> W -> result HTTPResponse * W.

(** A response filled by attempt [k]. *)
Definition won (targetURL : string) (k : Z) (r : ContentResponse) : Prop :=
  cURL r = targetURL /\ cError r = "" /\ 200 <= StatusCode r < 300
  /\ Headers r = [("Content-Type", ContentType r);
                  ("X-Scraped-With", "Aggressive-HTTP-UA" +:+ pretty k)]
  /\ mSize r = len (Markdown r).

Lemma attempts_outcome (targetURL : string) (uas : list string) :
  forall (i : Z) (w : W),
    let r := fst (attempts ToLower convertToMarkdown http_NewRequest client_Do targetURL
                    (emptyResponse targetURL) i uas w) in
    (exists k, i + 1 <= k <= i + Z.of_nat (length uas) /\ won targetURL k r)
    \/ r = withError (emptyResponse targetURL) failureMessage.
Proof.
  induction uas as [|ua rest IH]; intros i w; simpl; [right; reflexivity|].
  assert (Hnext : forall w',
            let r := fst (attempts ToLower convertToMarkdown http_NewRequest client_Do
                            targetURL (emptyResponse targetURL) (i + 1) rest w') in
            (exists k, i + 1 <= k <= i + Z.pos (Pos.of_succ_nat (length rest))
                       /\ won targetURL k r)
            \/ r = withError (emptyResponse targetURL) failureMessage).
  { intros w'. destruct (IH (i + 1) w') as [(k & Hk & Hw)|E]; [left|right; exact E].
    exists k. split; [lia|exact Hw]. }
  destruct (http_NewRequest targetURL); simpl; [|apply Hnext].
  destruct (client_Do (attempt i ua) targetURL w) as [[resp|e] w1]; [|apply Hnext].
  destruct (Z.geb_spec (hStatusCode resp) 200) as [Hge|]; simpl; [|apply Hnext].
  destruct (Z.ltb_spec (hStatusCode resp) 300) as [Hlt|]; simpl; [|apply Hnext].
  destruct (body resp) as [rawContent|e]; [|apply Hnext].
  left. exists (i + 1). split; [lia|]. simpl. unfold won. simpl.
  split; [reflexivity|]. split; [reflexivity|]. split; [lia|]. split; reflexivity.
Qed.

Lemma tryAggressiveHTTP_cases (targetURL : string) (w : W) :
  let r := fst (Aggressive.tryAggressiveHTTP ToLower convertToMarkdown http_NewRequest
                  client_Do targetURL w) in
  (exists k, 1 <= k <= 5 /\ won targetURL k r)
  \/ r = withError (emptyResponse targetURL) failureMessage.
Proof.
  intros r. subst r. unfold Aggressive.tryAggressiveHTTP.
  destruct (attempts_outcome targetURL userAgents 0 w) as [(k & Hk & Hw)|E];
    [left|right; exact E].
  exists k. split; [simpl in Hk; lia|exact Hw].
Qed.

End Facts.

End AggressiveFacts.

Module AggressiveTheorems.
Import GoString Utils Stealth Aggressive StringFacts AggressiveFacts Run.

(** X25. [tryAggressiveHTTP] returns either a response without error,
    with a 2xx status, its Markdown size and the header [X-Scraped-With]
    naming one of its five attempts, or the empty response for the URL
    with the one fixed error text; no other status and no other error
    ever comes out of it. *)
Theorem tryAggressiveHTTP_outcome {W : Type} (ToLower : string -> string)
    (convertToMarkdown : string -> result string) (http_NewRequest : string -> bool)
    (client_Do : Attempt -> string -> W -> result HTTPResponse * W)
    (targetURL : string) (w : W) :
  let r := fst (Aggressive.tryAggressiveHTTP ToLower convertToMarkdown http_NewRequest
                  client_Do targetURL w) in
  (exists k, 1 <= k <= 5 /\ won targetURL k r)
  \/ r = withError (emptyResponse targetURL) failureMessage.
Proof.
  apply tryAggressiveHTTP_cases.
Qed.

End AggressiveTheorems.

(** ** Content extractor: what a failed browser scrape reports *)

Module MaskingFacts.
Import GoString Utils Stealth StringFacts AggressiveFacts ExtractorTheorems Run.

Ltac no_member :=
  let Hin := fresh "Hin" in
  intros Hin; simpl in Hin;
  repeat (apply elem_of_cons in Hin as [Hin|Hin]; [discriminate|]);
  apply elem_of_nil in Hin; contradiction.

Section Facts.
Context {W : Type} `{Net W} `{Fetchers W}.

(** The first tier never fetches with the pooled browser. *)
Lemma tryHTMLScraping_no_browser (u : string) (w : W) :
  PooledBrowser ∉ strategies (trace (tryHTMLScraping u) w).
Proof.
  pose proof (strategies_tryHTMLScraping u w) as Hs.
  rewrite !elem_of_cons, elem_of_nil in Hs.
  destruct Hs as [->|[->|[->|[]]]]; no_member.
Qed.

(** What the second tier reports once it has fetched with the pooled
    browser. *)
Lemma tryBrowserScraping_scraped (u : string) (w : W) :
  PooledBrowser ∈ strategies (trace (tryBrowserScraping u) w) ->
  cError (value (tryBrowserScraping u) w) = ""
  \/ exists e (w' : W),
       cError (fst (tryAggressiveHTTP u w')) <> ""
       /\ cError (value (tryBrowserScraping u) w)
          = "Browser scraping failed: " +:+ e +:+ " (Aggressive HTTP also failed: "
            +:+ cError (fst (tryAggressiveHTTP u w')) +:+ ")".
Proof.
  unfold tryBrowserScraping.
  rewrite trace_bind, trace_ask, value_bind.
  destruct (value (ask pool_ready) w); simpl negb; cbv iota;
    [|rewrite trace_ret; no_member].
  rewrite trace_bind, trace_ask, value_bind.
  destruct (value (ask browserPool_Get) _) as [e|];
    [rewrite trace_ret; no_member|].
  intros _. rewrite !value_bind.
  destruct (value (ask (scrapeWithPooledBrowser u)) _) as [html|e];
    [rewrite value_ret; left; reflexivity|].
  rewrite !value_bind, value_ask.
  match goal with
  | |- context [tryAggressiveHTTP u ?w'] => set (w1 := w')
  end.
  destruct (String.eqb_spec (cError (fst (tryAggressiveHTTP u w1))) "") as [E|E].
  - rewrite value_ret. left. exact E.
  - rewrite value_ret. right. exists e, w1. split; [exact E|reflexivity].
Qed.

End Facts.

End MaskingFacts.

Module MaskingTheorems.
Import GoString Utils Stealth StringFacts AggressiveFacts MaskingFacts Run.

(** X26. With [tryAggressiveHTTP] as implemented, whenever [processURL]
    has fetched with the pooled browser and returns an error on top of a
    first-tier error, that error is the first-tier error followed by the
    text that the headless browser is not available: the error of the
    browser scrape itself is never reported. *)
Theorem browser_failure_reported_as_unavailable {W : Type} `{Net W} `{Fetchers W}
    (http_NewRequest : string -> bool)
    (client_Do : Aggressive.Attempt -> string -> W -> result HTTPResponse * W)
    (targetURL : string) (w : W) :
  (forall u w', tryAggressiveHTTP u w'
                = Aggressive.tryAggressiveHTTP ToLower convertToMarkdown http_NewRequest
                    client_Do u w') ->
  PooledBrowser ∈ strategies (trace (processURL targetURL) w) ->
  cError (value (tryHTMLScraping targetURL) w) <> "" ->
  cError (value (processURL targetURL) w) <> "" ->
  cError (value (processURL targetURL) w)
  = cError (value (tryHTMLScraping targetURL) w)
    +:+ " (Browser fallback unavailable: headless browser not available in this environment)".
Proof.
  intros Himpl Hb Hhtml. revert Hb. unfold processURL.
  rewrite value_bind, trace_bind.
  set (html := value (tryHTMLScraping targetURL) w) in *.
  set (w1 := world (tryHTMLScraping targetURL) w).
  assert (Hl : long_enough html = false).
  { unfold long_enough. destruct (String.eqb_spec (cError html) ""); [contradiction|].
    reflexivity. }
  rewrite Hl. rewrite value_bind, trace_bind.
  unfold strategies. rewrite !omap_app. fold (strategies (trace (tryHTMLScraping targetURL) w)).
  fold (strategies (trace (tryBrowserScraping targetURL) w1)).
  set (browser := value (tryBrowserScraping targetURL) w1).
  intros Hb. rewrite !elem_of_app in Hb.
  destruct Hb as [Hb|[Hb|Hb]].
  { exfalso. eapply tryHTMLScraping_no_browser, Hb. }
  2:{ exfalso. revert Hb.
      destruct (String.eqb (cError browser) ""); [rewrite trace_ret; no_member|].
      destruct (negb (String.eqb (cError html) ""));
        [destruct (Contains _ _)|]; rewrite trace_ret; no_member. }
  destruct (tryBrowserScraping_scraped targetURL w1 Hb) as [E|(e & w' & Hne & E)];
    fold browser in E.
  - rewrite E. simpl. rewrite value_ret. intros Hr. contradiction.
  - destruct (String.eqb_spec (cError browser) "") as [E0|_];
      [rewrite value_ret; intros Hr; contradiction|].
    destruct (String.eqb_spec (cError html) ""); [contradiction|]. simpl negb. cbv iota.
    assert (Hagg : cError (fst (tryAggressiveHTTP targetURL w')) = Aggressive.failureMessage).
    { rewrite Himpl in *.
      destruct (AggressiveFacts.tryAggressiveHTTP_cases ToLower convertToMarkdown http_NewRequest
                  client_Do targetURL w') as [(k & _ & Hw)|E1].
      - destruct Hw as (_ & Hnil & _). contradiction.
      - rewrite E1. reflexivity. }
    assert (Hc : Contains (cError browser) "browser not available" = true).
    { rewrite E, Hagg. do 3 apply Contains_app_r. vm_compute. reflexivity. }
    rewrite Hc, value_ret. intros _. reflexivity.
Qed.

(** On the stubborn site the pooled browser fails to load the page and
    the result reports the browser as unavailable. *)
Lemma browser_failure_reported_as_unavailable_witness :
  cError (fst (fst StubbornSite.run))
  = cError (fst (fst StubbornSite.first_tier))
    +:+ " (Browser fallback unavailable: headless browser not available in this environment)".
Proof.
  refine (@browser_failure_reported_as_unavailable unit StubbornSite.net
            StubbornSite.fetchers (fun _ => true) StubbornSite.client_Do
            "https://example.com" tt _ _ _ _).
  - intros u w'. reflexivity.
  - vm_compute. repeat constructor.
  - vm_compute. discriminate.
  - vm_compute. discriminate.
Defined.

End MaskingTheorems.

(** ** Start-up recovery: what is left in memory *)

Module RecoveryFacts.
Import Database.

Section Loop.
Variable sem : LoopVar.
Variable clock : nat -> Z.

(** Every record on the heap after the loop was there before or is a
    recovered job marked failed. *)
Lemma recover_loop_heap (jobs : list JobStatus) :
  forall (i : nat) (m : Memory) (a : nat) (j : JobStatus),
    heap (recover_loop sem clock i jobs m) !! a = Some j ->
    heap m !! a = Some j \/ exists d k, d ∈ jobs /\ j = markFailed d (clock k).
Proof.
  induction jobs as [|v rest IH]; intros i m a j; simpl; [auto|].
  intros Hj. destruct (IH _ _ _ _ Hj) as [Hm|(d & k & Hd & ->)].
  - simpl in Hm. destruct (decide (loop_var sem i = a)) as [<-|Hne].
    + rewrite lookup_insert_eq in Hm. injection Hm as <-.
      right. exists v, i. split; [left|reflexivity].
    + rewrite lookup_insert_ne in Hm by exact Hne. left. exact Hm.
  - right. exists d, k. split; [right; exact Hd|reflexivity].
Qed.

Lemma recover_loop_heap_mono (jobs : list JobStatus) :
  forall (i : nat) (m : Memory) (a : nat),
    is_Some (heap m !! a) -> is_Some (heap (recover_loop sem clock i jobs m) !! a).
Proof.
  induction jobs as [|v rest IH]; intros i m a Ha; simpl; [exact Ha|].
  apply IH. simpl. destruct (decide (loop_var sem i = a)) as [<-|Hne].
  - rewrite lookup_insert_eq. eauto.
  - rewrite lookup_insert_ne by exact Hne. exact Ha.
Qed.

(** Every pointer in the map after the loop points to a record. *)
Lemma recover_loop_pointers (jobs : list JobStatus) :
  forall (i : nat) (m : Memory),
    (forall id a, ActiveJobs m !! id = Some a -> is_Some (heap m !! a)) ->
    forall id a, ActiveJobs (recover_loop sem clock i jobs m) !! id = Some a ->
                 is_Some (heap (recover_loop sem clock i jobs m) !! a).
Proof.
  induction jobs as [|v rest IH]; intros i m Hm; simpl; [exact Hm|].
  apply IH. simpl. intros id a.
  destruct (decide (jID v = id)) as [<-|Hne].
  - rewrite lookup_insert_eq. intros [= <-]. rewrite lookup_insert_eq. eauto.
  - rewrite lookup_insert_ne by exact Hne. intros Ha.
    destruct (decide (loop_var sem i = a)) as [<-|Hna].
    + rewrite lookup_insert_eq. eauto.
    + rewrite lookup_insert_ne by exact Hna. eapply Hm, Ha.
Qed.

End Loop.

End RecoveryFacts.

Module RecoveryMemoryTheorems.
Import Database RecoveryFacts.

(** X27. Under either reading of the loop variable, after start-up
    recovery on an empty registry the ids that can be polled from memory
    are exactly the ids of the records the store holds as [running], and
    every record a poll reads is [failed] with the restart message and is
    one of those records marked failed; without a collection, or when the
    query fails, the registry is left as it is. *)
Theorem recovery_leaves_no_running_job (sem : LoopVar) (clock : nat -> Z)
    (docs : list JobStatus) :
  let m := LoadActiveJobsFromMongoDB sem clock (Some docs) true emptyMemory in
  (forall id, is_Some (lookup_job m id) <-> id ∈ map jID (find_running docs))
  /\ (forall id j, lookup_job m id = Some j ->
        Status j = "failed" /\ jError j = recoveryError
        /\ exists d k, d ∈ docs /\ Status d = "running" /\ j = markFailed d (clock k))
  /\ (forall find_ok m0, LoadActiveJobsFromMongoDB sem clock None find_ok m0 = m0)
  /\ (forall store m0, LoadActiveJobsFromMongoDB sem clock store false m0 = m0).
Proof.
  intros m. subst m. unfold LoadActiveJobsFromMongoDB.
  set (m := recover_loop sem clock 0 (find_running docs) emptyMemory).
  assert (Hj : forall id j, lookup_job m id = Some j ->
             exists d k, d ∈ find_running docs /\ j = markFailed d (clock k)).
  { intros id j. unfold lookup_job.
    destruct (ActiveJobs m !! id) as [a|]; simpl; [|discriminate].
    intros Hh. destruct (recover_loop_heap sem clock _ _ _ _ _ Hh) as [He|Hd];
      [|exact Hd].
    simpl in He. rewrite lookup_empty in He. discriminate. }
  split; [|split; [|split]].
  - intros id. split.
    + intros [j Hl]. unfold lookup_job in Hl.
      destruct (ActiveJobs m !! id) as [a|] eqn:Ea; [|discriminate].
      assert (Hs : is_Some (ActiveJobs m !! id)) by eauto.
      apply RecoveryTheorems.recover_loop_ids in Hs as [Hs|Hs]; [|exact Hs].
      simpl in Hs. rewrite lookup_empty in Hs. destruct Hs; discriminate.
    + intros Hin.
      assert (Hs : is_Some (ActiveJobs m !! id)).
      { apply RecoveryTheorems.recover_loop_ids. right. exact Hin. }
      destruct Hs as [a Ha]. unfold lookup_job. rewrite Ha. simpl.
      eapply (recover_loop_pointers sem clock); [|exact Ha].
      simpl. intros id' a'. rewrite lookup_empty. discriminate.
  - intros id j Hl. destruct (Hj id j Hl) as (d & k & Hd & ->).
    split; [reflexivity|]. split; [reflexivity|].
    apply list_elem_of_filter in Hd as [Hr Hd]. eauto.
  - reflexivity.
  - intros [ds|] m0; reflexivity.
Qed.

End RecoveryMemoryTheorems.

(** ** Content extractor: responses that carry an error *)

Module ErrorShapeFacts.
Import GoString Utils Stealth Run.

(** A response that reports an error and nothing else. *)
Definition bare_error (r : ContentResponse) : Prop :=
  StatusCode r = 0 /\ ContentType r = "" /\ Markdown r = "" /\ mSize r = 0
  /\ Headers r = [].

Section Facts.
Context {W : Type} `{Net W} `{Fetchers W}.

Lemma withError_bare (u e : string) : bare_error (withError (emptyResponse u) e).
Proof. repeat split. Qed.

Lemma tryHTMLScraping_error (u : string) (w : W) :
  cError (value (tryHTMLScraping u) w) <> "" -> bare_error (value (tryHTMLScraping u) w).
Proof.
  unfold tryHTMLScraping. rewrite value_bind.
  destruct (value (FindAccessibleURL u "") w) as [actualURL info].
  destruct (negb (Success info)); [rewrite value_ret; intros _; apply withError_bare|].
  rewrite !value_bind.
  match goal with
  | |- context [match ?x with Some _ => _ | None => _ end] => destruct x
  end; [rewrite value_ret; intros Hne; contradiction Hne; reflexivity|].
  rewrite !value_bind.
  match goal with
  | |- context [match ?x with Ok _ => _ | Err _ => _ end] => destruct x as [resp|e]
  end; [|rewrite value_ret; intros _; apply withError_bare].
  destruct ((hStatusCode resp =? 403) || (hStatusCode resp =? 429));
    [rewrite value_ret; intros _; apply withError_bare|].
  destruct (body resp); rewrite value_ret;
    [intros Hne; contradiction Hne; reflexivity|intros _; apply withError_bare].
Qed.

Lemma tryBrowserScraping_error (u : string) (w : W) :
  cError (value (tryBrowserScraping u) w) <> "" ->
  bare_error (value (tryBrowserScraping u) w).
Proof.
  unfold tryBrowserScraping. rewrite value_bind.
  destruct (value (ask pool_ready) w); simpl negb; cbv iota;
    [|rewrite value_ret; intros _; apply withError_bare].
  rewrite value_bind.
  destruct (value (ask browserPool_Get) _) as [e|];
    [rewrite value_ret; intros _; apply withError_bare|].
  rewrite !value_bind.
  destruct (value (ask (scrapeWithPooledBrowser u)) _) as [html|e];
    [rewrite value_ret; intros Hne; contradiction Hne; reflexivity|].
  rewrite !value_bind.
  match goal with
  | |- context [String.eqb ?a ""] => destruct (String.eqb_spec a "") as [E|E]
  end.
  - rewrite !value_ret. intros Hne. contradiction.
  - rewrite !value_ret. intros _. apply withError_bare.
Qed.

End Facts.

End ErrorShapeFacts.

Module ErrorShapeTheorems.
Import GoString Utils Stealth ErrorShapeFacts Run.

(** X28. A response of [processURL] that reports an error carries nothing
    else: status code 0, no content type, no Markdown, size 0 and no
    headers.  So whatever a tier fetched before another tier failed is
    not returned next to the error. *)
Theorem error_response_has_no_content {W : Type} `{Net W} `{Fetchers W}
    (targetURL : string) (w : W) :
  cError (value (processURL targetURL) w) <> "" ->
  bare_error (value (processURL targetURL) w).
Proof.
  unfold processURL. rewrite value_bind.
  pose proof (tryHTMLScraping_error targetURL w) as Hh.
  set (html := value (tryHTMLScraping targetURL) w) in *.
  set (w1 := world (tryHTMLScraping targetURL) w).
  unfold long_enough.
  destruct (String.eqb_spec (cError html) "") as [E|E]; simpl andb.
  - destruct (len (TrimSpace (Markdown html)) >? 100).
    + rewrite value_ret. intros Hne. contradiction.
    + rewrite value_bind.
      pose proof (tryBrowserScraping_error targetURL w1) as Hb.
      destruct (String.eqb_spec (cError (value (tryBrowserScraping targetURL) w1)) "")
        as [Eb|Eb]; [rewrite value_ret; intros Hne; contradiction|].
      simpl negb. cbv iota. rewrite value_ret. intros _. apply Hb, Eb.
  - cbv iota. rewrite value_bind.
    pose proof (tryBrowserScraping_error targetURL w1) as Hb.
    destruct (String.eqb_spec (cError (value (tryBrowserScraping targetURL) w1)) "")
      as [Eb|Eb]; [rewrite value_ret; intros Hne; contradiction|].
    simpl negb. cbv iota.
    destruct (Contains _ _); rewrite value_ret; intros _; apply (Hh E).
Qed.

(** On the stubborn site the response carries the error and nothing
    else. *)
Lemma error_response_has_no_content_witness :
  bare_error (fst (fst StubbornSite.run)).
Proof.
  refine (@error_response_has_no_content unit StubbornSite.net StubbornSite.fetchers
            "https://example.com" tt _).
  vm_compute. discriminate.
Defined.

End ErrorShapeTheorems.

(** ** Worker pool: admission is monotone *)

Module AdmissionTheorems.
Import GoString Pool.

Definition withActive (wp : WorkerPool) (active : Z) : WorkerPool :=
  {| maxWorkers := maxWorkers wp; activeJobs := active |}.

(** X29. Admission is monotone: when a batch is admitted, every smaller
    batch is admitted by the same pool, and the same batch is admitted
    when fewer jobs are active; and while no more jobs are active than
    there are workers, a batch of fewer than ten URLs is always
    admitted. *)
Theorem admission_monotone (wp : WorkerPool) (n : Z) :
  (forall n', 0 <= n' <= n -> CanAcceptWork wp n = true -> CanAcceptWork wp n' = true)
  /\ (forall active, active <= activeJobs wp -> CanAcceptWork wp n = true ->
        CanAcceptWork (withActive wp active) n = true)
  /\ (activeJobs wp <= maxWorkers wp -> 0 <= n < 10 -> CanAcceptWork wp n = true).
Proof.
  unfold CanAcceptWork, withActive. simpl. split; [|split].
  - intros n' Hn'. rewrite !orb_true_iff, !Z.geb_le. intros [Ha|Ha]; [left|right; exact Ha].
    assert (Z.quot n' 10 <= Z.quot n 10) by (apply Z.quot_le_mono; lia). lia.
  - intros active Ha. rewrite !orb_true_iff, !Z.geb_le. lia.
  - intros Ha Hn. rewrite orb_true_iff, !Z.geb_le. left.
    rewrite Z.quot_small by lia. lia.
Qed.

End AdmissionTheorems.
